(** * GXAI-Bench: ShapeGraph ground truth and the explainer baselines

    A shallow embedding of
      - [graphxai/datasets/shape_graph.py]   (class [ShapeGraph]),
      - [graphxai/explainers/random.py]      (class [RandomExplainer]),
      - [graphxai/explainers/gnn_explainer.py] (class [GNNExplainer]),
    together with the few operations of torch, torch_geometric and Python's
    [random] module these files call.

    Conventions.
      - A Python call either returns or raises: [result A := exn + A].
      - A 1-D tensor is a list; a 2-D tensor [n x d] is a list of [n] rows.
        An [edge_index] tensor [2 x m] is the list of its [m] columns.
      - Tensor entries are binary64 floats (Rocq's primitive [float]); the
        code moves them around, stores the constants 0 and 1, or casts them
        to single precision with [.float()], which rounds each entry to the
        nearest binary32 value.
      - Global generators (torch's default generator, Python's [random]) are
        threaded explicitly as a state. *)

From Stdlib Require Import ZArith Floats.
From stdpp Require Import base option list gmap strings sorting.

Open Scope Z_scope.

(** ** Python exceptions and the error monad *)

Inductive exn : Type :=
  | RuntimeError (msg : string) (tries : Z)
  | NotImplementedError
  | Exception (msg : string)
  | NameError (name : string)
  | AssertionError (msg : string)
  | KeyError
  | IndexError
  | ValueError
  | AttributeError
  | ShapeError.

Definition result (A : Type) : Type := (exn + A)%type.

Definition raise {A : Type} (e : exn) : result A := inl e.

#[global] Instance result_ret : MRet result := fun A a => inr a.

#[global] Instance result_bind : MBind result :=
  fun A B f m => match m with inl e => inl e | inr a => f a end.

Definition returns {A : Type} (m : result A) : Prop := exists a, m = inr a.

Definition of_option {A : Type} (e : exn) (o : option A) : result A :=
  match o with Some a => inr a | None => inl e end.

(** ** torch: the tensor operations used by the sources *)

Module Torch.

Section Index.
Context {A : Type}.

(** [t[ind] = src] for a 1-D tensor [t]: entry [ind[j]] receives [src[j]].
    An index outside [t] raises; [ind] and [src] must have one shape. *)
Fixpoint index_put (t : list A) (ind : list nat) (src : list A) : result (list A) :=
  match ind, src with
  | [], [] => inr t
  | i :: ind', v :: src' =>
      if decide (i < length t)%nat then index_put (<[i:=v]> t) ind' src'
      else raise IndexError
  | _, _ => raise ShapeError
  end.

(** [t[ind]]: the tensor of the entries [t[ind[j]]]. *)
Fixpoint index_select (t : list A) (ind : list nat) : result (list A) :=
  match ind with
  | [] => inr []
  | i :: ind' =>
      v ← of_option IndexError (t !! i);
      r ← index_select t ind';
      mret (v :: r)
  end.

(** [x[:, ind] = src] for 2-D tensors: the same assignment in every row. *)
Fixpoint index_put_cols (x : list (list A)) (ind : list nat) (src : list (list A))
  : result (list (list A)) :=
  match x, src with
  | [], [] => inr []
  | r :: x', s :: src' =>
      r' ← index_put r ind s;
      x'' ← index_put_cols x' ind src';
      mret (r' :: x'')
  | _, _ => raise ShapeError
  end.

(** [x[:, ind]]. *)
Fixpoint index_select_cols (x : list (list A)) (ind : list nat) : result (list (list A)) :=
  match x with
  | [] => inr []
  | r :: x' =>
      r' ← index_select r ind;
      x'' ← index_select_cols x' ind;
      mret (r' :: x'')
  end.

(** [x[:, j]]: column [j]. *)
Definition column (x : list (list A)) (j : nat) : result (list A) :=
  mapM (fun r => of_option IndexError (r !! j)) x.

(** [torch.stack(rows)]: needs at least one row, all of one size. *)
Definition stack (rows : list (list A)) : result (list (list A)) :=
  match rows with
  | [] => raise (RuntimeError "stack expects a non-empty TensorList" 0)
  | r :: _ =>
      if forallb (fun r' => Nat.eqb (length r') (length r)) rows then inr rows
      else raise ShapeError
  end.

(** [x.shape[1]] of a 2-D tensor built by [stack]. *)
Definition shape1 (x : list (list A)) : nat :=
  match x with [] => 0%nat | r :: _ => length r end.

(** [torch.cat([x, col.unsqueeze(1)], dim=1)]: one more column. *)
Fixpoint cat_col (x : list (list A)) (col : list A) : result (list (list A)) :=
  match x, col with
  | [], [] => inr []
  | r :: x', c :: col' => x'' ← cat_col x' col'; mret ((r ++ [c]) :: x'')
  | _, _ => raise ShapeError
  end.

(** [t[-1]]. *)
Definition last_item (t : list A) : result A := of_option IndexError (last t).

(** [t[mask]]: the entries of [t] where the boolean [mask] holds. *)
Fixpoint masked_select (t : list A) (mask : list bool) : list A :=
  match t, mask with
  | v :: t', b :: mask' => if b then v :: masked_select t' mask' else masked_select t' mask'
  | _, _ => []
  end.

(** [mask.sum()]: the number of true entries of a boolean tensor. *)
Definition mask_sum (mask : list bool) : nat :=
  length (filter (fun b => b = true) mask).

(** A 2-D tensor with [d] columns. *)
Definition rectangular (d : nat) (x : list (list A)) : Prop :=
  Forall (fun r => length r = d) x.

End Index.

(** [torch.tensor([...bools...], dtype=torch.double)] and [.bool()]. *)
Definition double_of_bool (b : bool) : float := if b then 1%float else 0%float.

Definition bool_of_double (v : float) : bool := negb (PrimFloat.eqb v 0%float).

(** [v in t] for a tensor [t] ([Tensor.__contains__]): [(v == t).any()]. *)
Definition contains (t : list nat) (v : nat) : bool := bool_decide (v ∈ t).

(** [t.float()] on one entry: the nearest binary32 value, ties to even; a
    value too large becomes an infinity and one too small a zero.  The
    result is held as the binary64 value equal to it. *)
Definition round_float32 (v : float) : float :=
  match Prim2SF v with
  | S754_finite s m e =>
      match binary_normalize 24 128 (if s then Z.neg m else Z.pos m) e s with
      | S754_finite s' m' e' =>
          SF2Prim (binary_normalize prec emax (if s' then Z.neg m' else Z.pos m') e' s')
      | S754_infinity s' => if s' then neg_infinity else infinity
      | S754_zero s' => if s' then neg_zero else zero
      | S754_nan => nan
      end
  | _ => v
  end.

(** [t.float()] for a 1-D and for a 2-D tensor. *)
Definition float1 (t : list float) : list float := map round_float32 t.

Definition float2 (x : list (list float)) : list (list float) := map float1 x.

(** torch's default generator, an implicit global in the sources, as an
    explicit state.  The laws are the documented contracts of the three
    sampling functions the sources call. *)
Class Generator (TG : Type) : Type := {
  (** [torch.randint(low=0, high=2, size=(n,)).float()] *)
  randint01 : nat -> TG -> list float * TG;
  (** [torch.randperm(n)] *)
  randperm : nat -> TG -> list nat * TG;
  (** [torch.randn(n)] *)
  randn : nat -> TG -> list float * TG;
  randint01_length : forall n s, length (randint01 n s).1 = n;
  randperm_perm : forall n s, (randperm n s).1 ≡ₚ seq 0 n;
  randn_length : forall n s, length (randn n s).1 = n
}.

End Torch.

(** ** torch_geometric.utils: [to_undirected] and [k_hop_subgraph] *)

Module PyG.

(** A [2 x m] index tensor, by columns. *)
Abbreviation edge_index := (list (nat * nat)).

(** Lexicographic order on columns, the order [coalesce] sorts by. *)
Definition edge_le (e1 e2 : nat * nat) : Prop :=
  (e1.1 < e2.1 \/ (e1.1 = e2.1 /\ e1.2 <= e2.2))%nat.

#[global] Instance edge_le_dec : RelDecision edge_le.
Proof. intros e1 e2. unfold edge_le. apply _. Defined.

(** [torch.unique] of a 1-D index tensor: sorted, without repetition. *)
Definition unique (l : list nat) : list nat := merge_sort Nat.le (remove_dups l).

(** [to_undirected(edge_index)]: every edge in both directions, coalesced. *)
Definition to_undirected (ei : edge_index) : edge_index :=
  merge_sort edge_le (remove_dups (ei ++ map (fun e => (e.2, e.1)) ei)).

(** [maybe_num_nodes(edge_index)]: the largest index plus one. *)
Definition maybe_num_nodes (ei : edge_index) : nat :=
  foldr (fun e n => Nat.max (S e.1) (Nat.max (S e.2) n)) 0%nat ei.

(** One hop of [k_hop_subgraph] with [flow='source_to_target']: the sources
    of the edges whose target is in the current frontier. *)
Definition hop (ei : edge_index) (frontier : list nat) : list nat :=
  (filter (fun e => e.2 ∈ frontier) ei).*1.

(** [torch.cat(subsets)] after [num_hops] rounds. *)
Fixpoint subsets (num_hops : nat) (ei : edge_index) (frontier : list nat) : list nat :=
  match num_hops with
  | O => frontier
  | S k => frontier ++ subsets k ei (hop ei frontier)
  end.

(** The 4-tuple [k_hop_subgraph] returns. *)
Record khop_info : Type := {
  subset : list nat;
  sub_edge_index : edge_index;
  mapping : nat;
  edge_mask : list bool
}.

(** [k_hop_subgraph(node_idx, num_hops, edge_index, relabel_nodes, num_nodes)].
    The node masks have [num_nodes] entries and are indexed by [node_idx]
    and by both rows of [edge_index], so an index outside them raises.  With
    [relabel_nodes] the kept edges are renumbered by position in [subset]. *)
Definition k_hop_subgraph (node_idx num_hops : nat) (ei : edge_index)
    (relabel_nodes : bool) (num_nodes : option nat) : result khop_info :=
  let n := default (maybe_num_nodes ei) num_nodes in
  if decide ((node_idx < n)%nat /\
             Forall (fun e : nat * nat => (e.1 < n)%nat /\ (e.2 < n)%nat) ei) then
    let sub := unique (subsets num_hops ei [node_idx]) in
    let mask := map (fun e => bool_decide (e.1 ∈ sub /\ e.2 ∈ sub)) ei in
    let kept := Torch.masked_select ei mask in
    let pos v := default 0%nat (fst <$> list_find (fun u => u = v) sub) in
    inr {| subset := sub;
           sub_edge_index := if relabel_nodes then map (fun e => (pos e.1, pos e.2)) kept else kept;
           mapping := pos node_idx;
           edge_mask := mask |}
  else raise IndexError.

End PyG.

(** ** Python: numeric conversions, [str.lower] and the [random] module *)

Module Py.

(** [float(n)] for an int [n]: the nearest binary64 value. *)
Definition float_of_int (n : Z) : float :=
  SF2Prim (binary_normalize prec emax n 0 false).

(** [int(f)]: truncation toward zero; [nan] and the infinities raise. *)
Definition int_of_float (f : float) : result Z :=
  match Prim2SF f with
  | S754_zero _ => inr 0
  | S754_finite s m e =>
      let a := if 0 <=? e then Z.pos m * 2 ^ e else Z.pos m / 2 ^ (- e) in
      inr (if s then - a else a)
  | S754_infinity _ => raise ValueError
  | S754_nan => raise ValueError
  end.

(** [int(n * c)] for an int [n] and a float constant [c]. *)
Definition int_mul (n : nat) (c : float) : result Z :=
  int_of_float (PrimFloat.mul (float_of_int (Z.of_nat n)) c).

(** The float literals of the split sizes, as binary64 values. *)
Definition f_0_7 : float := 0x1.6666666666666p-1%float.
Definition f_0_25 : float := 0x1p-2%float.
Definition f_0_05 : float := 0x1.999999999999ap-5%float.

(** [c.lower()] on one ASCII character. *)
Definition lower_ascii (c : Ascii.ascii) : Ascii.ascii :=
  let n := Ascii.nat_of_ascii c in
  if ((65 <=? n) && (n <=? 90))%nat then Ascii.ascii_of_nat (n + 32) else c.

(** [s.lower()]. *)
Fixpoint lower (s : string) : string :=
  match s with
  | EmptyString => EmptyString
  | String c s' => String (lower_ascii c) (lower s')
  end.

(** The module-level generator of [random], an implicit global in the
    sources, as an explicit state.  [sample] is [random.sample(population,
    k)] for [0 <= k <= len(population)]: [k] entries at distinct positions
    of the population. *)
Class Random (R : Type) : Type := {
  seed : Z -> R;
  sample : list nat -> nat -> R -> list nat * R;
  sample_spec : forall pop k s, (k <= length pop)%nat ->
    length (sample pop k s).1 = k /\ exists rest, (sample pop k s).1 ++ rest ≡ₚ pop
}.

(** [random.sample(population, k)] for any int [k]: a sample larger than
    the population, or a negative one, raises [ValueError]. *)
Definition random_sample `{Random R} (pop : list nat) (k : Z) (s : R) : result (list nat) * R :=
  if decide (0 <= k <= Z.of_nat (length pop)) then
    let '(l, s') := sample pop (Z.to_nat k) s in (inr l, s')
  else (raise ValueError, s).

End Py.

(** ** graphxai/datasets/shape_graph.py: class [ShapeGraph] *)

Module ShapeGraph.

(** A networkx graph: its nodes in insertion order, the node attributes
    ['shape'] and ['x'], and its edges. *)
Record Graph : Type := {
  nodes : list nat;
  node_shape : gmap nat Z;
  node_x : gmap nat (list float);
  edges : list (nat * nat)
}.

(** [G.nodes[n]['shape']]. *)
Definition shape_of (G : Graph) (n : nat) : result Z :=
  of_option KeyError (node_shape G !! n).

(** [torch_geometric.data.Data(x, y, edge_index, shape)]. *)
Record Data : Type := {
  x : list (list float);
  y : list Z;
  edge_index : PyG.edge_index;
  shape : list Z
}.

(** [graphxai.Explanation], with the subgraph [set_enclosing_subgraph] stores. *)
Record Explanation : Type := {
  feature_imp : list float;
  node_imp : list float;
  edge_imp : list float;
  node_idx : nat;
  enc_subgraph : option PyG.khop_info
}.

Definition set_enclosing_subgraph (exp : Explanation) (k : PyG.khop_info) : Explanation :=
  {| feature_imp := feature_imp exp; node_imp := node_imp exp;
     edge_imp := edge_imp exp; node_idx := node_idx exp;
     enc_subgraph := Some k |}.

(** The [shape] argument: a name or a networkx graph. *)
Inductive shape_arg : Type :=
  | ShapeName (name : string)
  | ShapeGraphArg (g : Graph).

(** The keyword bag of the constructor; an absent key is [None]. *)
Record kwargs : Type := {
  kw_variant : option Z;
  kw_num_subgraphs : option Z;
  kw_prob_connection : option float;
  kw_subgraph_size : option Z;
  kw_base_graph : option string;
  kw_verify : option bool;
  kw_max_tries_verification : option Z;
  kw_n_informative : option Z;
  kw_class_sep : option float;
  kw_n_features : option Z;
  kw_n_clusters_per_class : option Z;
  kw_add_sensitive_feature : option bool
}.

(** The attributes [__init__] resolves before it builds the graph. *)
Record config : Type := {
  model_layers : nat;
  make_explanations : bool;
  variant : Z;
  num_subgraphs : Z;
  prob_connection : float;
  subgraph_size : Z;
  base_graph : string;
  verify : bool;
  max_tries_verification : Z;
  n_informative : Z;
  class_sep : float;
  n_features : Z;
  n_clusters_per_class : Z;
  add_sensitive_feature : bool;
  seed : option Z;
  insert_shape : option Graph
}.

(** The keyword arguments of [build_bound_graph]. *)
Record bbg_args : Type := {
  bbg_shape : option Graph;
  bbg_num_subgraphs : Z;
  bbg_inter_sg_connections : Z;
  bbg_prob_connection : float;
  bbg_subgraph_size : Z;
  bbg_num_hops : Z;
  bbg_base_graph : option string;
  bbg_seed : option Z
}.

(** The members of a constructed [ShapeGraph]. *)
Record t : Type := {
  cfg : config;
  G : Graph;
  graph : Data;
  yvals : list Z;
  feature_imp_true : list float;
  sensitive_feature : option nat;
  explanations : option (list Explanation);
  num_nodes : nat;
  fixed_train_mask : list bool;
  fixed_test_mask : list bool;
  fixed_valid_mask : list bool
}.

(** The global generators the constructor reads and advances: torch's
    default generator, Python's [random] and numpy's. *)
Record World (TG R NP : Type) : Type := {
  torch_gen : TG;
  py_random : R;
  np_random : NP
}.

Arguments torch_gen {TG R NP} _.
Arguments py_random {TG R NP} _.
Arguments np_random {TG R NP} _.

Definition set_torch_gen {TG R NP : Type} (w : World TG R NP) (g : TG) : World TG R NP :=
  {| torch_gen := g; py_random := py_random w; np_random := np_random w |}.

Definition set_py_random {TG R NP : Type} (w : World TG R NP) (r : R) : World TG R NP :=
  {| torch_gen := torch_gen w; py_random := r; np_random := np_random w |}.

(** The error message of the construction error. *)
Definition exhausted_msg : string :=
  "Could not build a valid graph in {max_tries_verification} attempts. Try using different parameters for graph generation or increasing max_tries_verification argument value.".

(** [to_undirected(torch.tensor(list(G.edges)).t().contiguous())], line
    246.  The tensor of an empty edge list has no rows, and [to_undirected]
    cannot split it into sources and targets. *)
Definition edge_index_of (G : Graph) : result PyG.edge_index :=
  match edges G with
  | [] => raise ValueError
  | _ => inr (PyG.to_undirected (edges G))
  end.

(** The 0/1 importance of one edge of the k-hop subgraph (lines 284-297):
    the body of the loop over the columns [i] of [khop_info[1]]. *)
Definition edge_important (in_motif : list nat) (node_idx : nat) (e : nat * nat) : bool :=
  if Torch.contains in_motif e.1 && Torch.contains in_motif e.2 then true
  else
    let one_edge_in_motif := Torch.contains in_motif e.1 || Torch.contains in_motif e.2 in
    let node_idx_in_motif := Torch.contains in_motif node_idx in
    let one_end_of_edge_is_nidx := bool_decide (e.1 = node_idx) || bool_decide (e.2 = node_idx) in
    (one_edge_in_motif && one_end_of_edge_is_nidx) && negb node_idx_in_motif.

(** The loop itself: [edge_imp] starts as zeros and entry [i] is set to 1
    where the body says so. *)
Definition edge_imp_loop (in_motif : list nat) (node_idx : nat) (sub_ei : PyG.edge_index)
  : list float :=
  foldl (fun edge_imp i =>
           match sub_ei !! i with
           | Some e => if edge_important in_motif node_idx e then <[i:=1%float]> edge_imp
                       else edge_imp
           | None => edge_imp
           end)
        (replicate (length sub_ei) 0%float) (seq 0 (length sub_ei)).

(** The dict comprehension [{i: f(i) for i in keys}] with a body that may raise. *)
Fixpoint dict_of {V : Type} (f : nat -> result V) (keys : list nat) (m : gmap nat V)
  : result (gmap nat V) :=
  match keys with
  | [] => inr m
  | i :: keys' => v ← f i; dict_of f keys' (<[i:=v]> m)
  end.

(** Lines 224-241 of [generate_shape_graph]: the sensitive column and the
    shuffle, on torch's default generator. *)
Definition sensitive_step `{Torch.Generator TG} (add_sensitive_feature : bool)
    (x : list (list float)) (feature_imp_true : list float) (g : TG)
  : result (list (list float) * list float * option nat) * TG :=
  if add_sensitive_feature then
    let '(sensitive, g1) := Torch.randint01 (length x) g in
    match Torch.cat_col x sensitive with
    | inl e => (inl e, g1)
    | inr x1 =>
        let fimp1 := feature_imp_true ++ [0%float] in
        let '(shuffle_ind, g2) := Torch.randperm (Torch.shape1 x1) g1 in
        (x2 ← Torch.index_put_cols x1 shuffle_ind x1;
         fimp2 ← Torch.index_put fimp1 shuffle_ind fimp1;
         s ← Torch.last_item shuffle_ind;
         mret (x2, fimp2, Some s), g2)
    end
  else (inr (x, feature_imp_true, None), g).

Section Externals.

Context {TG R NP : Type} `{!Torch.Generator TG} `{!Py.Random R}.

(** Code of the repository that [shape_graph.py] imports: the k-hop
    neighbourhood on networkx graphs, the two host-graph builders, motif
    verification, the label and feature generators, and the motif shapes. *)
Variable khop_subgraph_nx : nat -> nat -> Graph -> list nat.
Variable BBG_old : bbg_args -> World TG R NP -> Graph * World TG R NP.
Variable BBG_PA : bbg_args -> World TG R NP -> Graph * World TG R NP.
Variable verify_motifs : Graph -> option Graph -> bool.
Variable bound_graph_label : Graph -> nat -> Z.
Variable gaussian_lv_generator :
  Graph -> list Z -> option Z -> Z -> float -> Z -> Z ->
  World TG R NP -> ((nat -> list float) * list float) * World TG R NP.
Variable house : Graph.
Variable pentagon : Graph.

(** [explanation_generator(self, node_idx)], lines 261-307. *)
Definition explanation_generator (G : Graph) (model_layers : nat) (graph : Data)
    (feature_imp_true : list float) (node_idx : nat) : result Explanation :=
  shapes ← mapM (shape_of G) (khop_subgraph_nx node_idx 1 G);
  let original_in_num_hop : gset Z := list_to_set (filter (fun s => s ≠ 0) shapes) in
  let khop_nodes := khop_subgraph_nx node_idx model_layers G in
  node_imp_map ← dict_of (fun i => s ← shape_of G i;
                                   mret (bool_decide (s ∈ original_in_num_hop)))
                         khop_nodes ∅;
  khop_info ← PyG.k_hop_subgraph node_idx model_layers
                 (PyG.to_undirected (edge_index graph)) false None;
  node_imp_b ← mapM (fun i => of_option KeyError (node_imp_map !! i)) (PyG.subset khop_info);
  let node_imp := map Torch.double_of_bool node_imp_b in
  let in_motif := Torch.masked_select (PyG.subset khop_info) (map Torch.bool_of_double node_imp) in
  let edge_imp := edge_imp_loop in_motif node_idx (PyG.sub_edge_index khop_info) in
  let exp := {| feature_imp := feature_imp_true; node_imp := node_imp;
                edge_imp := edge_imp; node_idx := node_idx; enc_subgraph := None |} in
  mret (set_enclosing_subgraph exp khop_info).

(** What [generate_shape_graph] assigns to the object. *)
Record generated : Type := {
  gen_G : Graph;
  gen_graph : Data;
  gen_yvals : list Z;
  gen_feature_imp_true : list float;
  gen_sensitive_feature : option nat;
  gen_explanations : option (list Explanation)
}.

(** [generate_shape_graph(self)], lines 202-259. *)
Definition generate_shape_graph (c : config) (G : Graph) (w : World TG R NP)
  : result generated * World TG R NP :=
  let gen_labels := bound_graph_label G in
  let y := map gen_labels (nodes G) in
  let yvals := y in
  let '((gen_features, fimp), w1) :=
    gaussian_lv_generator G yvals (seed c) (n_features c) (class_sep c)
                          (n_informative c) (n_clusters_per_class c) w in
  match Torch.stack (map gen_features (nodes G)) with
  | inl e => (inl e, w1)
  | inr x0 =>
      let x0 := Torch.float2 x0 in
      let '(r, g) := sensitive_step (add_sensitive_feature c) x0 fimp (torch_gen w1) in
      let w2 := set_torch_gen w1 g in
      ('(x1, fimp1, sens) ← r;
       let G1 := {| nodes := nodes G; node_shape := node_shape G;
                    node_x := foldl (fun m i => <[i:=gen_features i]> m) (node_x G) (nodes G);
                    edges := edges G |} in
       edge_index ← edge_index_of G1;
       let graph := {| x := x1; y := y;
                       edge_index := edge_index;
                       shape := omap (fun n => node_shape G1 !! n) (nodes G1) |} in
       explanations ←
         (if make_explanations c
          then exps ← mapM (explanation_generator G1 (model_layers c) graph fimp1) (nodes G1);
               mret (Some exps)
          else mret None);
       mret {| gen_G := G1; gen_graph := graph; gen_yvals := yvals;
               gen_feature_imp_true := fimp1; gen_sensitive_feature := sens;
               gen_explanations := explanations |}, w2)
  end.

(** Lines 83-101: the keyword bag resolved against its defaults. *)
Definition resolve_kwargs (model_layers : nat) (seed : option Z) (make_explanations : bool)
    (kw : kwargs) (insert_shape : option Graph) : config :=
  {| model_layers := model_layers;
     make_explanations := make_explanations;
     variant := default 1 (kw_variant kw);
     num_subgraphs := default 10 (kw_num_subgraphs kw);
     prob_connection := default 1%float (kw_prob_connection kw);
     subgraph_size := default 13 (kw_subgraph_size kw);
     base_graph := default "ba" (kw_base_graph kw);
     verify := default true (kw_verify kw);
     max_tries_verification := default 5 (kw_max_tries_verification kw);
     n_informative := default 4 (kw_n_informative kw);
     class_sep := default 1%float (kw_class_sep kw);
     n_features := default 10 (kw_n_features kw);
     n_clusters_per_class := default 2 (kw_n_clusters_per_class kw);
     add_sensitive_feature := default true (kw_add_sensitive_feature kw);
     seed := seed;
     insert_shape := insert_shape |}.

(** Lines 103-127: the shape to insert, and the local [shape] afterwards. *)
Definition resolve_shape (shape : shape_arg) : result (option Graph * shape_arg) :=
  match shape with
  | ShapeGraphArg g => inr (Some g, shape)
  | ShapeName name =>
      let shape := Py.lower name in
      let insert_shape :=
        if decide (shape = "house") then Some house
        else if decide (shape = "flag") then None
        else if decide (shape = "circle") then Some pentagon
        else None in
      if decide (shape = "random")
      then raise (AssertionError "Multiple shapes not yet supported for bounded graph")
      else inr (insert_shape, ShapeName shape)
  end.

(** [shape != 'random']. *)
Definition not_random (shape : shape_arg) : bool :=
  match shape with
  | ShapeName name => bool_decide (name ≠ "random")
  | ShapeGraphArg _ => true
  end.

(** One build of the host graph (lines 133-154 and 165-185): [self.G] is
    assigned only under [variant == 0] or [variant == 1]. *)
Definition build (c : config) (w : World TG R NP) : option Graph * World TG R NP :=
  if decide (variant c = 0) then
    let '(g, w') := BBG_old {| bbg_shape := insert_shape c;
                               bbg_num_subgraphs := num_subgraphs c;
                               bbg_inter_sg_connections := 1;
                               bbg_prob_connection := prob_connection c;
                               bbg_subgraph_size := subgraph_size c;
                               bbg_num_hops := 1;
                               bbg_base_graph := Some (base_graph c);
                               bbg_seed := seed c |} w in
    (Some g, w')
  else if decide (variant c = 1) then
    let '(g, w') := BBG_PA {| bbg_shape := insert_shape c;
                              bbg_num_subgraphs := num_subgraphs c;
                              bbg_inter_sg_connections := 1;
                              bbg_prob_connection := prob_connection c;
                              bbg_subgraph_size := subgraph_size c;
                              bbg_num_hops := 1;
                              bbg_base_graph := None;
                              bbg_seed := seed c |} w in
    (Some g, w')
  else (None, w).

(** The [for i in range(max_tries_verification): ... else: raise] loop of
    lines 132-162, with [tries] iterations left.  [self_G] is the attribute
    [self.G], unset until a build assigns it. *)
Fixpoint verify_loop (c : config) (tries : nat) (self_G : option Graph) (w : World TG R NP)
  : result Graph * World TG R NP :=
  match tries with
  | O => (raise (RuntimeError exhausted_msg (max_tries_verification c)), w)
  | S tries' =>
      let '(built, w') := build c w in
      let self_G' := match built with Some g => Some g | None => self_G end in
      match self_G' with
      | None => (raise AttributeError, w')
      | Some g =>
          if verify_motifs g (insert_shape c) then (inr g, w')
          else verify_loop c tries' self_G' w'
      end
  end.

(** The attempts of the loop, for stating what it does: the globals
    before attempt [k] (the first attempt is attempt 0), the graph attempt
    [k] builds, and whether [verify_motifs] accepts or rejects it. *)
Fixpoint world_before (c : config) (k : nat) (w : World TG R NP) : World TG R NP :=
  match k with
  | O => w
  | S k' => world_before c k' (build c w).2
  end.

Definition attempt (c : config) (k : nat) (w : World TG R NP) : option Graph :=
  (build c (world_before c k w)).1.

Definition verified (c : config) (k : nat) (w : World TG R NP) : bool :=
  match attempt c k w with
  | Some g => verify_motifs g (insert_shape c)
  | None => false
  end.

Definition rejected (c : config) (k : nat) (w : World TG R NP) : bool :=
  match attempt c k w with
  | Some g => negb (verify_motifs g (insert_shape c))
  | None => false
  end.

(** Lines 131-185: the graph is built under verification or just once. *)
Definition build_graph (c : config) (shape : shape_arg) (w : World TG R NP)
  : result Graph * World TG R NP :=
  if verify c && not_random shape then
    verify_loop c (Z.to_nat (max_tries_verification c)) None w
  else
    let '(built, w') := build c w in (of_option AttributeError built, w').

(** [random.sample(range_set, int(self.num_nodes * c))]. *)
Definition sample_fraction (range_set : list nat) (num_nodes : nat) (c : float) (r : R)
  : result (list nat) * R :=
  match Py.int_mul num_nodes c with
  | inl e => (inl e, r)
  | inr k => Py.random_sample range_set k r
  end.

(** [[s in nodes for s in range_set]]. *)
Definition mask_of (range_set nodes : list nat) : list bool :=
  map (fun s => bool_decide (s ∈ nodes)) range_set.

(** Lines 191-200: the fixed train, test and valid masks. *)
Definition make_splits (num_nodes : nat) : result (list bool * list bool * list bool) * R :=
  let range_set := seq 0 num_nodes in
  let r0 := Py.seed 1234 in
  let '(train_nodes, r1) := sample_fraction range_set num_nodes Py.f_0_7 r0 in
  match train_nodes with
  | inl e => (inl e, r1)
  | inr train_nodes =>
      let '(test_nodes, r2) := sample_fraction range_set num_nodes Py.f_0_25 r1 in
      match test_nodes with
      | inl e => (inl e, r2)
      | inr test_nodes =>
          let '(valid_nodes, r3) := sample_fraction range_set num_nodes Py.f_0_05 r2 in
          match valid_nodes with
          | inl e => (inl e, r3)
          | inr valid_nodes =>
              (inr (mask_of range_set train_nodes,
                    mask_of range_set test_nodes,
                    mask_of range_set valid_nodes), r3)
          end
      end
  end.

(** [ShapeGraph.__init__], lines 69-200. *)
Definition init (model_layers : nat) (shape : shape_arg) (seed : option Z)
    (make_explanations : bool) (kw : kwargs) (w : World TG R NP)
  : result t * World TG R NP :=
  match resolve_shape shape with
  | inl e => (inl e, w)
  | inr (ins, shape') =>
      let c := resolve_kwargs model_layers seed make_explanations kw ins in
      let '(rG, w1) := build_graph c shape' w in
      match rG with
      | inl e => (inl e, w1)
      | inr G0 =>
          let '(rgen, w2) := generate_shape_graph c G0 w1 in
          match rgen with
          | inl e => (inl e, w2)
          | inr gen =>
              let num_nodes := length (nodes (gen_G gen)) in
              let '(rs, r) := make_splits num_nodes in
              let w3 := set_py_random w2 r in
              match rs with
              | inl e => (inl e, w3)
              | inr (train, test, valid) =>
                  (inr {| cfg := c; G := gen_G gen; graph := gen_graph gen;
                          yvals := gen_yvals gen;
                          feature_imp_true := gen_feature_imp_true gen;
                          sensitive_feature := gen_sensitive_feature gen;
                          explanations := gen_explanations gen;
                          num_nodes := num_nodes;
                          fixed_train_mask := train;
                          fixed_test_mask := test;
                          fixed_valid_mask := valid |}, w3)
              end
          end
      end
  end.

End Externals.

End ShapeGraph.

(** ** Explanations returned by the explainers: a dict from the names of
       [EXP_TYPES] to a tensor or [None] *)

Module Exp.

(** A dict value: [None] or a 1-D tensor. *)
Inductive value : Type :=
  | PyNone
  | Tensor (t : list float).

(** [{k: None for k in EXP_TYPES}]. *)
Definition empty_exp (EXP_TYPES : list string) : gmap string value :=
  foldl (fun m k => <[k:=PyNone]> m) ∅ EXP_TYPES.

(** [exp[k]]. *)
Definition getitem (exp : gmap string value) (k : string) : result value :=
  of_option KeyError (exp !! k).

(** [len(exp[k])] when [exp[k]] is a tensor. *)
Definition tensor_len (exp : gmap string value) (k : string) : option nat :=
  match exp !! k with
  | Some (Tensor t) => Some (length t)
  | _ => None
  end.

End Exp.

(** ** graphxai/explainers/random.py: class [RandomExplainer] *)

Module RandomExplainer.

(** The explainer object: [self.L], the number of layers of the model,
    is set by the base class. *)
Record t : Type := { L : nat }.

(** [get_explanation_node(self, node_idx, x, edge_index, num_hops)],
    lines 18-46, on torch's default generator. *)
Definition get_explanation_node `{Torch.Generator TG} (EXP_TYPES : list string) (self : t)
    (node_idx : nat) (x : list (list float)) (edge_index : PyG.edge_index)
    (num_hops : option nat) (g : TG)
  : result (gmap string Exp.value * PyG.khop_info) * TG :=
  let num_hops := default (L self) num_hops in
  match PyG.k_hop_subgraph node_idx num_hops edge_index false None with
  | inl e => (inl e, g)
  | inr khop_info =>
      let exp := Exp.empty_exp EXP_TYPES in
      match x !! 0%nat with
      | None => (raise IndexError, g)
      | Some x0 =>
          let '(f, g1) := Torch.randn (length x0) g in
          let exp := <["feature_imp":=Exp.Tensor f]> exp in
          let '(e, g2) := Torch.randn (length edge_index) g1 in
          let exp := <["edge_imp":=Exp.Tensor e]> exp in
          (inr (exp, khop_info), g2)
      end
  end.

(** [get_explanation_link(self)], lines 74-78. *)
Definition get_explanation_link {A : Type} (self : t) : result A :=
  raise NotImplementedError.

End RandomExplainer.

(** ** graphxai/explainers/gnn_explainer.py: class [GNNExplainer] *)

Module GNNExplainer.

(** Python values as far as name lookup and truth testing need them. *)
Inductive pyval : Type :=
  | VBool (b : bool)
  | VObj.

Definition truth (v : pyval) : bool :=
  match v with VBool b => b | VObj => true end.

(** The names bound at module level of [gnn_explainer.py]. *)
Definition module_globals : gmap string pyval :=
  list_to_map ((fun k => (k, VObj)) <$>
    ["np"; "torch"; "Optional"; "k_hop_subgraph"; "_BaseExplainer"; "EXP_TYPES";
     "GNNExplainer"; "__name__"; "__doc__"; "__package__"; "__loader__"; "__spec__";
     "__file__"; "__cached__"; "__builtins__"]).

(** The names of Python 3's [builtins] module. *)
Definition builtins : gmap string pyval :=
  list_to_map ((fun k => (k, VObj)) <$>
    ["abs"; "aiter"; "all"; "anext"; "any"; "ascii"; "bin"; "bool"; "breakpoint";
     "bytearray"; "bytes"; "callable"; "chr"; "classmethod"; "compile"; "complex";
     "copyright"; "credits"; "delattr"; "dict"; "dir"; "divmod"; "enumerate"; "eval";
     "exec"; "exit"; "filter"; "float"; "format"; "frozenset"; "getattr"; "globals";
     "hasattr"; "hash"; "help"; "hex"; "id"; "input"; "int"; "isinstance";
     "issubclass"; "iter"; "len"; "license"; "list"; "locals"; "map"; "max";
     "memoryview"; "min"; "next"; "object"; "oct"; "open"; "ord"; "pow"; "print";
     "property"; "quit"; "range"; "repr"; "reversed"; "round"; "set"; "setattr";
     "slice"; "sorted"; "staticmethod"; "str"; "sum"; "super"; "tuple"; "type";
     "vars"; "zip"; "__import__"; "__build_class__"; "__debug__"; "__doc__";
     "__name__"; "__package__"; "__loader__"; "__spec__";
     "None"; "True"; "False"; "Ellipsis"; "NotImplemented";
     "BaseException"; "Exception"; "ArithmeticError"; "AssertionError";
     "AttributeError"; "BlockingIOError"; "BrokenPipeError"; "BufferError";
     "BytesWarning"; "ChildProcessError"; "ConnectionAbortedError";
     "ConnectionError"; "ConnectionRefusedError"; "ConnectionResetError";
     "DeprecationWarning"; "EOFError"; "EnvironmentError"; "FileExistsError";
     "FileNotFoundError"; "FloatingPointError"; "FutureWarning"; "GeneratorExit";
     "IOError"; "ImportError"; "ImportWarning"; "IndentationError"; "IndexError";
     "InterruptedError"; "IsADirectoryError"; "KeyError"; "KeyboardInterrupt";
     "LookupError"; "MemoryError"; "ModuleNotFoundError"; "NameError";
     "NotADirectoryError"; "NotImplementedError"; "OSError"; "OverflowError";
     "PendingDeprecationWarning"; "PermissionError"; "ProcessLookupError";
     "RecursionError"; "ReferenceError"; "ResourceWarning"; "RuntimeError";
     "RuntimeWarning"; "StopAsyncIteration"; "StopIteration"; "SyntaxError";
     "SyntaxWarning"; "SystemError"; "SystemExit"; "TabError"; "TimeoutError";
     "TypeError"; "UnboundLocalError"; "UnicodeDecodeError"; "UnicodeEncodeError";
     "UnicodeError"; "UnicodeTranslateError"; "UnicodeWarning"; "UserWarning";
     "ValueError"; "Warning"; "ZeroDivisionError"; "EncodingWarning";
     "BaseExceptionGroup"; "ExceptionGroup"]).

(** Reading a name inside a function body: the function's local names,
    then the module's globals, then the builtins; otherwise [NameError]. *)
Definition load_name (locals : gmap string pyval) (name : string) : result pyval :=
  match locals !! name with
  | Some v => inr v
  | None =>
      match module_globals !! name with
      | Some v => inr v
      | None =>
          match builtins !! name with
          | Some v => inr v
          | None => raise (NameError name)
          end
      end
  end.

(** The two masks [train] is called on. *)
Inductive mask_type : Type := Feature | Edge.

Section Model.

(** The explainer object with its model and masks, and what the sources
    call on it: the base class and the optimisation are outside these files. *)
Variable St : Type.
Variable self_L : St -> nat.
Variable predict : St -> list (list float) -> PyG.edge_index -> result (list Z).
Variable set_masks : St -> list (list float) -> PyG.edge_index -> bool -> result St.
Variable model_eval : St -> result St.
Variable train : St -> mask_type -> list (list float) -> PyG.khop_info -> list Z -> result St.
Variable feature_mask_data : St -> list float.
Variable edge_mask_data : St -> list float.
Variable clear_masks : St -> St.

(** The local names of [get_explanation_node] bound when line 110 runs:
    its parameters and the names assigned above that line. *)
Definition locals_at_110 (get_feature_mask : bool) : gmap string pyval :=
  <["get_feature_mask":=VBool get_feature_mask]>
    (list_to_map ((fun k => (k, VObj)) <$>
       ["self"; "node_idx"; "edge_index"; "x"; "label"; "num_hops"; "forward_kwargs";
        "exp"; "khop_info"; "subset"; "sub_edge_index"; "mapping"; "_"; "sub_x";
        "num_epochs"; "loss_fn"; "train"])).

(** [get_explanation_node(self, node_idx, edge_index, x, label, num_hops,
    get_feature_mask, forward_kwargs)], lines 34-119. *)
Definition get_explanation_node (EXP_TYPES : list string) (self : St) (node_idx : nat)
    (edge_index : PyG.edge_index) (x : list (list float)) (label : option (list Z))
    (num_hops : option nat) (get_feature_mask : bool)
  : result (gmap string Exp.value * PyG.khop_info * St) :=
  label ← match label with None => predict self x edge_index | Some l => inr l end;
  let num_hops := default (self_L self) num_hops in
  let exp := Exp.empty_exp EXP_TYPES in
  khop_info ← PyG.k_hop_subgraph node_idx num_hops edge_index true (Some (length x));
  sub_x ← Torch.index_select x (PyG.subset khop_info);
  self ← set_masks self sub_x (PyG.sub_edge_index khop_info) get_feature_mask;
  self ← model_eval self;
  explain_feature ← load_name (locals_at_110 get_feature_mask) "explain_feature";
  '(self, exp) ←
    (if truth explain_feature
     then self ← train self Feature sub_x khop_info label;
          mret (self, <["feature_imp":=Exp.Tensor (feature_mask_data self)]> exp)
     else mret (self, exp));
  self ← train self Edge sub_x khop_info label;
  let exp := <["edge_imp":=Exp.Tensor (edge_mask_data self)]> exp in
  let self := clear_masks self in
  mret (exp, khop_info, self).

(** [get_explanation_graph(self, edge_index, x, label, forward_kwargs,
    explain_feature)], lines 121-141. *)
Definition get_explanation_graph {A : Type} (self : St) (edge_index : PyG.edge_index)
    (x : list (list float)) (label : list Z) (explain_feature : bool) : result A :=
  raise (Exception "GNNExplainer does not support graph-level explanation.").

(** [get_explanation_link(self)], lines 143-147. *)
Definition get_explanation_link {A : Type} (self : St) : result A :=
  raise NotImplementedError.

End Model.

End GNNExplainer.

(** ** Executable stand-ins for the generators and the imported code

    Concrete instances on which the definitions above run.  A generator is
    a tape of raw draws, returned one by one (zero once the tape is used
    up); the imported repository code is replaced by small functions with
    the documented interface. *)

Module Ref.

(** One raw draw. *)
Definition draw (s : list nat) : nat * list nat :=
  match s with
  | [] => (0%nat, [])
  | v :: s' => (v, s')
  end.

Fixpoint draws (n : nat) (s : list nat) : list nat * list nat :=
  match n with
  | O => ([], s)
  | S k => let '(v, s1) := draw s in
           let '(vs, s2) := draws k s1 in (v :: vs, s2)
  end.

Definition tape_randint01 (n : nat) (s : list nat) : list float * list nat :=
  let '(vs, s') := draws n s in
  (map (fun v => if Nat.even v then 0%float else 1%float) vs, s').

Definition tape_randn (n : nat) (s : list nat) : list float * list nat :=
  let '(vs, s') := draws n s in
  (map (fun v => Py.float_of_int (Z.of_nat v)) vs, s').

Definition insert_at {A : Type} (i : nat) (v : A) (l : list A) : list A :=
  take i l ++ v :: drop i l.

(** A permutation of [0..n-1]: entry [k] is put at a drawn place among
    the entries before it. *)
Fixpoint tape_randperm (n : nat) (s : list nat) : list nat * list nat :=
  match n with
  | O => ([], s)
  | S k => let '(p, s1) := tape_randperm k s in
           let '(v, s2) := draw s1 in
           (insert_at (v mod S k) k p, s2)
  end.

(** A sampler for [random.sample]: the first [k] entries of the
    population rotated by the state. *)
Definition rot_seed (a : Z) : nat := Z.to_nat (a mod 5).

Definition rot_sample (pop : list nat) (k : nat) (s : nat) : list nat * nat :=
  (take k (rotate s pop), S s).

(** Modelled from the spec: [khop_subgraph_nx] of
    [graphxai/utils/nx_conversion.py], which is not among the sources.  The
    spec's glossary: the k-hop subgraph is "the induced subgraph of all
    nodes reachable from a target node within k edge-traversals". *)
Definition khop_subgraph_nx (node_idx num_hops : nat) (G : ShapeGraph.Graph) : list nat :=
  PyG.unique (PyG.subsets num_hops (PyG.to_undirected (ShapeGraph.edges G)) [node_idx]).

(** A path graph on the nodes [0..n-1]; the nodes in [motif] carry the
    shape tag 1, the others 0. *)
Definition path_graph (n : nat) (motif : list nat) : ShapeGraph.Graph :=
  {| ShapeGraph.nodes := seq 0 n;
     ShapeGraph.node_shape :=
       list_to_map ((fun i => (i, if bool_decide (i ∈ motif) then 1 else 0)) <$> seq 0 n);
     ShapeGraph.node_x := ∅;
     ShapeGraph.edges := (fun i => (i, S i)) <$> seq 0 (n - 1) |}.

(** A host-graph builder: a path on [subgraph_size] nodes with a motif of
    two neighbouring nodes.  With a seed the motif's place follows from the
    seed alone; without one it is drawn from the numpy tape. *)
Definition BBG (a : ShapeGraph.bbg_args)
    (w : ShapeGraph.World (list nat) nat (list nat))
  : ShapeGraph.Graph * ShapeGraph.World (list nat) nat (list nat) :=
  let '(v, np) :=
    match ShapeGraph.bbg_seed a with
    | Some s => (Z.to_nat (s mod 7), ShapeGraph.np_random w)
    | None => draw (ShapeGraph.np_random w)
    end in
  (path_graph (Z.to_nat (ShapeGraph.bbg_subgraph_size a)) [v; S v],
   {| ShapeGraph.torch_gen := ShapeGraph.torch_gen w;
      ShapeGraph.py_random := ShapeGraph.py_random w;
      ShapeGraph.np_random := np |}).

(** Motif verification stand-in: the tagged nodes are exactly two. *)
Definition verify_motifs (G : ShapeGraph.Graph) (motif : option ShapeGraph.Graph) : bool :=
  Nat.eqb (length (filter (fun i => ShapeGraph.node_shape G !! i = Some 1) (ShapeGraph.nodes G))) 2.

(** Label stand-in: 1 on motif nodes. *)
Definition bound_graph_label (G : ShapeGraph.Graph) (i : nat) : Z :=
  default 0 (ShapeGraph.node_shape G !! i).

(** Feature generator stand-in: [n_features] copies of the node id. *)
Definition gaussian_lv_generator (G : ShapeGraph.Graph) (yvals : list Z) (seed : option Z)
    (n_features : Z) (class_sep : float) (n_informative n_clusters_per_class : Z)
    (w : ShapeGraph.World (list nat) nat (list nat))
  : ((nat -> list float) * list float) * ShapeGraph.World (list nat) nat (list nat) :=
  ((fun i => replicate (Z.to_nat n_features) (Py.float_of_int (Z.of_nat i)),
    replicate (Z.to_nat n_features) 1%float), w).

Definition house : ShapeGraph.Graph := path_graph 5 [0; 1; 2; 3; 4]%nat.

Definition pentagon : ShapeGraph.Graph := path_graph 5 [0; 1; 2; 3; 4]%nat.

(** A keyword bag with no key. *)
Definition no_kwargs : ShapeGraph.kwargs :=
  {| ShapeGraph.kw_variant := None; ShapeGraph.kw_num_subgraphs := None;
     ShapeGraph.kw_prob_connection := None; ShapeGraph.kw_subgraph_size := None;
     ShapeGraph.kw_base_graph := None; ShapeGraph.kw_verify := None;
     ShapeGraph.kw_max_tries_verification := None; ShapeGraph.kw_n_informative := None;
     ShapeGraph.kw_class_sep := None; ShapeGraph.kw_n_features := None;
     ShapeGraph.kw_n_clusters_per_class := None;
     ShapeGraph.kw_add_sensitive_feature := None |}.

End Ref.

(** * Properties *)

(** ** The error monad *)

Lemma bind_inr {A B : Type} (m : result A) (f : A -> result B) (b : B) :
  m ≫= f = inr b -> exists a, m = inr a /\ f a = inr b.
Proof. destruct m as [e|a]; simpl; [discriminate | eauto]. Qed.

Lemma mapM_result_length {A B : Type} (f : A -> result B) (l : list A) (l' : list B) :
  mapM f l = inr l' -> length l' = length l.
Proof.
  revert l'. induction l as [|a l IH]; intros l' Hm; simpl in Hm.
  - by inversion Hm.
  - apply bind_inr in Hm as (b & _ & Hm).
    apply bind_inr in Hm as (k & Hk & Hm).
    inversion Hm; subst. simpl. f_equal. by apply IH.
Qed.

Lemma mapM_result_lookup {A B : Type} (f : A -> result B) (l : list A) (l' : list B)
    (i : nat) (a : A) :
  mapM f l = inr l' -> l !! i = Some a -> exists b, l' !! i = Some b /\ f a = inr b.
Proof.
  revert l' i. induction l as [|a0 l IH]; intros l' i Hm Hi; [done|].
  simpl in Hm.
  apply bind_inr in Hm as (b & Hb & Hm).
  apply bind_inr in Hm as (k & Hk & Hm).
  inversion Hm; subst.
  destruct i as [|i]; simpl in *.
  - inversion Hi; subst. eauto.
  - eauto.
Qed.

Lemma mapM_result_total {A B : Type} (f : A -> result B) (l : list A) :
  (forall a, a ∈ l -> returns (f a)) -> returns (mapM f l).
Proof.
  induction l as [|a l IH]; intros Hf; simpl.
  - by eexists.
  - destruct (Hf a) as [b Hb]; [by left|].
    destruct IH as [k Hk]; [intros a' Ha'; apply Hf; by right|].
    exists (b :: k). cbn. rewrite Hb. cbn. by rewrite Hk.
Qed.

(** A call that evaluates to a return has a returned value. *)
Lemma result_inr_inv {A : Type} (m : result A) :
  (match m with inr _ => true | inl _ => false end) = true -> exists a, m = inr a.
Proof. destruct m as [e|a]; [discriminate | eauto]. Qed.

Lemma run_inr_inv {A W : Type} (r : result A * W) :
  (match r.1 with inr _ => true | inl _ => false end) = true ->
  exists a w, r = (inr a, w).
Proof. destruct r as [[e|a] w]; simpl; [discriminate | eauto]. Qed.

Lemma run_match_inv {A W : Type} (r : result A * W) (P : A -> W -> Prop) :
  (match r with (inr a, w) => P a w | (inl _, _) => False end) ->
  exists a w, r = (inr a, w) /\ P a w.
Proof. destruct r as [[e|a] w]; [done | eauto]. Qed.

(** ** torch: indexed assignment and selection *)

Module TorchFacts.

Import Torch.

Section Index.
Context {A : Type}.
Implicit Types (t src : list A) (ind : list nat).

(** An indexed assignment through distinct, in-range indices succeeds; it
    writes [src[j]] at [ind[j]] and leaves the other entries alone. *)
Lemma index_put_spec ind : forall t src,
  NoDup ind -> Forall (fun i => (i < length t)%nat) ind -> length ind = length src ->
  exists t', index_put t ind src = inr t' /\ length t' = length t /\
    (forall j i, ind !! j = Some i -> t' !! i = src !! j) /\
    (forall i, i ∉ ind -> t' !! i = t !! i).
Proof.
  induction ind as [|i ind IH]; intros t src Hnd Hlt Hlen.
  - destruct src; [|done]. exists t. split_and!; [done..| |done].
    intros j i Hj. by rewrite lookup_nil in Hj.
  - destruct src as [|v src]; [done|].
    apply NoDup_cons in Hnd as [Hi Hnd].
    apply Forall_cons in Hlt as [Hil Hlt].
    simpl. rewrite decide_True; [|done].
    destruct (IH (<[i:=v]> t) src) as (t' & Hput & Hl & Hw & Hf); [done| |by inversion Hlen|].
    { by rewrite length_insert. }
    exists t'. rewrite length_insert in Hl. split_and!; [done..| |].
    + intros [|j] i' Hj; simpl in Hj.
      * inversion Hj; subst i'. rewrite (Hf i Hi). simpl. by apply list_lookup_insert_eq.
      * simpl. by apply Hw.
    + intros i' Hi'. apply not_elem_of_cons in Hi' as [Hne Hi'].
      rewrite (Hf i' Hi'). by apply list_lookup_insert_ne.
Qed.

(** Selecting through [ind] reads back what was written through [ind]. *)
Lemma index_select_spec ind : forall t src,
  length ind = length src ->
  (forall j i, ind !! j = Some i -> t !! i = src !! j) ->
  index_select t ind = inr src.
Proof.
  induction ind as [|i ind IH]; intros t src Hlen Hw.
  - by destruct src.
  - destruct src as [|v src]; [done|]. simpl.
    rewrite (Hw 0%nat i eq_refl). simpl.
    rewrite (IH t src); [done | by inversion Hlen |].
    intros j i' Hj. apply (Hw (S j) i' Hj).
Qed.

Lemma index_put_select ind t src t' :
  NoDup ind -> length ind = length src ->
  index_put t ind src = inr t' -> index_select t' ind = inr src.
Proof.
  revert t src. induction ind as [|i ind IH]; intros t src Hnd Hlen Hput.
  - by destruct src.
  - destruct src as [|v src]; [done|]. simpl in Hput.
    case_decide as Hi; [|done].
    apply NoDup_cons in Hnd as [Hni Hnd].
    destruct (index_put_spec ind (<[i:=v]> t) src) as (t'' & Hput' & _ & Hw & Hf);
      [done| |by inversion Hlen|].
    { clear -Hput. revert Hput. generalize (<[i:=v]> t). revert src.
      induction ind as [|k ind IH]; intros src u Hput; [done|].
      destruct src as [|w src]; [done|]. simpl in Hput. case_decide as Hk; [|done].
      constructor; [done|]. apply IH in Hput. rewrite length_insert in Hput.
      done. }
    rewrite Hput in Hput'. inversion Hput'; subst t''.
    apply index_select_spec; [done|].
    intros [|j] i' Hj; simpl in Hj.
    + inversion Hj; subst i'. rewrite (Hf i Hni). by apply list_lookup_insert_eq.
    + by apply Hw.
Qed.

(** An assignment that goes through had one source entry per index. *)
Lemma index_put_inr_length ind : forall t src t',
  index_put t ind src = inr t' -> length ind = length src.
Proof.
  induction ind as [|i ind IH]; intros t src t' Hput.
  - by destruct src.
  - destruct src as [|v src]; [done|]. simpl in Hput.
    case_decide; [|done]. simpl. f_equal. by eapply IH.
Qed.

Lemma stack_inr (rows x : list (list A)) :
  stack rows = inr x -> x = rows /\ rows <> [] /\ rectangular (shape1 rows) rows.
Proof.
  unfold stack. destruct rows as [|r rows]; [done|].
  destruct (forallb _ _) eqn:Hall; [|done].
  intros Heq. inversion Heq; subst x. split_and!; [done..|].
  rewrite forallb_forall in Hall. unfold rectangular. simpl.
  apply Forall_forall. intros r' Hr'. apply list_elem_of_In in Hr'.
  apply Hall in Hr'. by apply Nat.eqb_eq in Hr'.
Qed.

End Index.

(** [.float()] changes entries, not shapes. *)
Lemma length_float1 (t : list float) : length (float1 t) = length t.
Proof. unfold float1. by rewrite length_map. Qed.

Lemma length_float2 (x : list (list float)) : length (float2 x) = length x.
Proof. unfold float2. by rewrite length_map. Qed.

Lemma shape1_float2 (x : list (list float)) : shape1 (float2 x) = shape1 x.
Proof. destruct x as [|r x]; [done|]. cbn. apply length_float1. Qed.

Lemma rectangular_float2 (d : nat) (x : list (list float)) :
  rectangular d x -> rectangular d (float2 x).
Proof.
  intros Hr. induction Hr as [|r x Hlen _ IH]; cbn; constructor; [|done].
  by rewrite length_float1.
Qed.

Lemma float2_nil_inv (x : list (list float)) : x <> [] -> float2 x <> [].
Proof. by destruct x. Qed.

End TorchFacts.

(** ** ShapeGraph: the sensitive column and the shuffle *)

Module ShuffleFacts.

Import Torch TorchFacts ShapeGraph.

Section Rows.
Context {A : Type}.
Implicit Types (row : list A) (x : list (list A)) (p : list nat).

Lemma perm_seq_facts p n :
  p ≡ₚ seq 0 n -> NoDup p /\ Forall (fun i => (i < n)%nat) p /\ length p = n.
Proof.
  intros Hp. split_and!.
  - rewrite Hp. apply NoDup_seq.
  - rewrite Hp. apply Forall_forall. intros i Hi. apply elem_of_seq in Hi. lia.
  - rewrite Hp. apply length_seq.
Qed.

(** One row under [row[p] = row.clone()] for a permutation [p]. *)
Lemma shuffle_row p row :
  p ≡ₚ seq 0 (length row) ->
  exists row', index_put row p row = inr row' /\ length row' = length row /\
    index_select row' p = inr row /\
    (forall j i, p !! j = Some i -> row' !! i = row !! j).
Proof.
  intros Hp. destruct (perm_seq_facts p _ Hp) as (Hnd & Hlt & Hlen).
  destruct (index_put_spec p row row Hnd Hlt Hlen) as (row' & Hput & Hl & Hw & _).
  exists row'. split_and!; [done..| |done].
  by apply index_select_spec.
Qed.

(** All rows of a rectangular matrix under [x[:, p] = x.clone()]. *)
Lemma shuffle_cols p n x :
  p ≡ₚ seq 0 n -> rectangular n x ->
  exists x', index_put_cols x p x = inr x' /\ rectangular n x' /\
    index_select_cols x' p = inr x /\
    Forall2 (fun row row' => forall j i, p !! j = Some i -> row' !! i = row !! j) x x'.
Proof.
  intros Hp. induction 1 as [|row x Hrow Hx IH].
  - exists []. split_and!; [done| constructor | done | constructor].
  - destruct IH as (x' & Hput & Hrect & Hsel & Hrel).
    subst n. destruct (shuffle_row p row Hp) as (row' & Hr & Hl & Hs & Hw).
    exists (row' :: x'). split_and!.
    + simpl. rewrite Hr. simpl. by rewrite Hput.
    + by constructor.
    + simpl. rewrite Hs. simpl. by rewrite Hsel.
    + by constructor.
Qed.

(** [cat_col] appends the entries of the column to the rows. *)
Lemma cat_col_spec x : forall (col : list A) d,
  length col = length x -> rectangular d x ->
  exists x1, cat_col x col = inr x1 /\ rectangular (S d) x1 /\
    length x1 = length x /\
    Forall2 (fun row1 c => row1 !! d = Some c) x1 col /\
    Forall2 (fun row row1 => take d row1 = row) x x1.
Proof.
  induction x as [|row x IH]; intros col d Hlen Hrect.
  - destruct col; [|done]. exists []. split_and!; try done; constructor.
  - destruct col as [|c col]; [done|].
    apply Forall_cons in Hrect as [Hrow Hrect].
    destruct (IH col d) as (x1 & Hcat & Hr1 & Hl1 & Hcol & Htake);
      [by inversion Hlen | done |].
    exists ((row ++ [c]) :: x1). split_and!.
    + simpl. by rewrite Hcat.
    + constructor; [|done]. rewrite length_app. simpl. lia.
    + simpl. by rewrite Hl1.
    + constructor; [|done]. rewrite lookup_app_r; [|lia].
      by replace (d - length row)%nat with 0%nat by lia.
    + constructor; [|done]. rewrite take_app_length'; done.
Qed.

(** Column [s] of the shuffled matrix is the column that was at [d]. *)
Lemma shuffled_column p x x' (col : list A) d s :
  p !! d = Some s ->
  Forall2 (fun row row' => forall j i, p !! j = Some i -> row' !! i = row !! j) x x' ->
  Forall2 (fun row c => row !! d = Some c) x col ->
  column x' s = inr col.
Proof.
  intros Hs Hrel. revert col.
  induction Hrel as [|row row' x x' Hw Hrel IH]; intros col Hcol.
  - by inversion Hcol.
  - inversion Hcol as [|? c ? col' Hc Hcol']; subst.
    unfold column in *. cbn. rewrite (Hw d s Hs), Hc. cbn.
    by rewrite (IH col' Hcol').
Qed.

End Rows.

Section Sensitive.
Context `{Generator TG}.

Lemma shape1_rectangular {A : Type} (d : nat) (x : list (list A)) :
  x ≠ [] -> rectangular d x -> shape1 x = d.
Proof. intros Hne Hrect. destruct x as [|row x]; [done|]. by inversion Hrect. Qed.

(** Lines 224-241 on a feature matrix of [d] columns and an importance
    vector of [d] entries: one permutation [shuffle_ind] is drawn and both
    the columns of [x] (with the sensitive column appended) and the entries
    of [feature_imp_true] (with a zero appended) are assigned through it.
    Selecting through the same [shuffle_ind] undoes the assignment on both,
    and the sensitive column sits at the returned index. *)
Lemma sensitive_step_shuffle_roundtrip (x : list (list float)) (fimp : list float)
    (d : nat) (g : TG) :
  x ≠ [] -> rectangular d x -> length fimp = d ->
  let sensitive := (randint01 (length x) g).1 in
  let g1 := (randint01 (length x) g).2 in
  let shuffle_ind := (randperm (S d) g1).1 in
  let g2 := (randperm (S d) g1).2 in
  let fimp1 := fimp ++ [0%float] in
  exists x1 x' fimp' s,
    cat_col x sensitive = inr x1 /\
    sensitive_step true x fimp g = (inr (x', fimp', Some s), g2) /\
    shuffle_ind ≡ₚ seq 0 (S d) /\
    index_put_cols x1 shuffle_ind x1 = inr x' /\
    index_put fimp1 shuffle_ind fimp1 = inr fimp' /\
    index_select_cols x' shuffle_ind = inr x1 /\
    index_select fimp' shuffle_ind = inr fimp1 /\
    last shuffle_ind = Some s /\
    column x' s = inr sensitive /\
    fimp' !! s = Some 0%float.
Proof.
  intros Hne Hrect Hlen sensitive g1 shuffle_ind g2 fimp1.
  assert (Hsl : length sensitive = length x) by apply randint01_length.
  destruct (cat_col_spec x sensitive d Hsl Hrect) as (x1 & Hcat & Hr1 & Hl1 & Hcol & _).
  assert (Hx1 : x1 ≠ []).
  { intros ->. destruct x; [done | discriminate]. }
  assert (Hperm : shuffle_ind ≡ₚ seq 0 (S d)) by apply randperm_perm.
  destruct (shuffle_cols shuffle_ind (S d) x1 Hperm Hr1) as (x' & Hput & _ & Hsel & Hrel).
  assert (Hf1 : length fimp1 = S d).
  { unfold fimp1. rewrite length_app. simpl. lia. }
  destruct (shuffle_row shuffle_ind fimp1) as (fimp' & Hfput & _ & Hfsel & Hfw).
  { by rewrite Hf1. }
  destruct (perm_seq_facts _ _ Hperm) as (_ & _ & Hpl).
  assert (Hlast : exists s, shuffle_ind !! d = Some s).
  { apply lookup_lt_is_Some. lia. }
  destruct Hlast as [s Hs].
  assert (Hlast : last shuffle_ind = Some s).
  { rewrite last_lookup, Hpl. done. }
  exists x1, x', fimp', s. split_and!; try done.
  - unfold sensitive_step.
    destruct (randint01 (length x) g) as [sens ga] eqn:Hri.
    subst sensitive g1 shuffle_ind g2. simpl in *.
    rewrite Hcat. rewrite (shape1_rectangular (S d) x1 Hx1 Hr1).
    destruct (randperm (S d) ga) as [ind gb] eqn:Hrp. simpl in *.
    rewrite Hput. cbn. fold fimp1. rewrite Hfput. cbn.
    unfold last_item. rewrite Hlast. done.
  - by apply (shuffled_column shuffle_ind x1 x' sensitive d s).
  - rewrite (Hfw d s Hs). unfold fimp1.
    rewrite lookup_app_r; [|lia]. by replace (d - length fimp)%nat with 0%nat by lia.
Qed.

(** A returned shuffle had an importance vector as long as the rows. *)
Lemma sensitive_step_inr_length (x : list (list float)) (fimp : list float) (d : nat)
    (g g' : TG) (r : list (list float) * list float * option nat) :
  sensitive_step true x fimp g = (inr r, g') ->
  x <> [] -> rectangular d x -> length fimp = d.
Proof.
  intros Hstep Hne Hrect. unfold sensitive_step in Hstep.
  pose proof (randint01_length (length x) g) as Hsl.
  destruct (randint01 (length x) g) as [sensitive g1]. simpl in Hsl.
  destruct (cat_col_spec x sensitive d Hsl Hrect) as (x1 & Hcat & Hr1 & Hl1 & _).
  rewrite Hcat in Hstep.
  assert (Hx1 : x1 <> []).
  { intros ->. destruct x; [done | discriminate]. }
  rewrite (shape1_rectangular (S d) x1 Hx1 Hr1) in Hstep.
  pose proof (randperm_perm (S d) g1) as Hperm.
  destruct (randperm (S d) g1) as [ind g2]. cbn [fst] in Hperm.
  inversion Hstep as [[Hres Hg]]. clear Hstep.
  apply bind_inr in Hres as (x2 & _ & Hres).
  apply bind_inr in Hres as (fimp2 & Hput & _).
  apply index_put_inr_length in Hput.
  destruct (perm_seq_facts ind (S d) Hperm) as (_ & _ & Hpl).
  rewrite Hpl, length_app in Hput. simpl in Hput. lia.
Qed.

End Sensitive.

End ShuffleFacts.

(** ** ShapeGraph: ground-truth explanations *)

Module ExplanationFacts.

Import Torch ShapeGraph.

Lemma float_one_neq_zero : 1%float <> 0%float.
Proof.
  intros Heq. assert (Hc : PrimFloat.eqb 1 0 = PrimFloat.eqb 0 0) by (by rewrite Heq).
  vm_compute in Hc. discriminate.
Qed.

Lemma bool_of_double_of_bool (b : bool) : bool_of_double (double_of_bool b) = b.
Proof. by destruct b. Qed.

Lemma node_imp_bool (bs : list bool) :
  map bool_of_double (map double_of_bool bs) = bs.
Proof.
  induction bs as [|b bs IH]; [done|]. simpl.
  by rewrite bool_of_double_of_bool, IH.
Qed.

Lemma double_of_bool_one (b : bool) : double_of_bool b = 1%float <-> b = true.
Proof.
  destruct b; simpl; split; try done;
    intros Heq; by destruct float_one_neq_zero.
Qed.

Lemma double_of_bool_zero (b : bool) : double_of_bool b = 0%float <-> b = false.
Proof.
  destruct b; simpl; split; try done;
    intros Heq; by destruct float_one_neq_zero.
Qed.

(** [t[mask]] holds the entries of [t] whose mask entry is true. *)
Lemma elem_of_masked_select {A : Type} (t : list A) : forall (mask : list bool) (v : A),
  v ∈ masked_select t mask <-> exists j, t !! j = Some v /\ mask !! j = Some true.
Proof.
  induction t as [|a t IH]; intros mask v; simpl.
  - split; [by intros ?%elem_of_nil | by intros (j & Hj & _)].
  - destruct mask as [|b mask].
    + split; [by intros ?%elem_of_nil | by intros (j & _ & Hj)].
    + destruct b.
      * rewrite elem_of_cons, IH. split.
        -- intros [-> | (j & Ht & Hm)]; [by exists 0%nat | by exists (S j)].
        -- intros ([|j] & Ht & Hm); simpl in *; [left; congruence | right; eauto].
      * rewrite IH. split.
        -- intros (j & Ht & Hm). by exists (S j).
        -- intros ([|j] & Ht & Hm); simpl in *; [done | eauto].
Qed.

(** The loop over the columns fills [edge_imp] entry by entry. *)
Lemma edge_imp_loop_prefix (in_motif : list nat) (n : nat) (sub_ei : PyG.edge_index) (k : nat) :
  (k <= length sub_ei)%nat ->
  foldl (fun edge_imp i =>
           match sub_ei !! i with
           | Some e => if edge_important in_motif n e then <[i:=1%float]> edge_imp
                       else edge_imp
           | None => edge_imp
           end)
        (replicate (length sub_ei) 0%float) (seq 0 k)
  = map (fun e => double_of_bool (edge_important in_motif n e)) (take k sub_ei)
    ++ replicate (length sub_ei - k) 0%float.
Proof.
  induction k as [|k IH]; intros Hk.
  - simpl. by rewrite Nat.sub_0_r.
  - rewrite seq_S, foldl_app, IH by lia. simpl.
    destruct (lookup_lt_is_Some_2 sub_ei k) as [e He]; [lia|].
    rewrite He, (take_S_r _ _ _ He), map_app. simpl.
    replace (length sub_ei - k)%nat with (S (length sub_ei - S k)) by lia.
    simpl. rewrite <- (assoc_L (++)). simpl.
    destruct (edge_important in_motif n e); simpl; [|done].
    set (pre := map _ (take k sub_ei)).
    assert (Hpre : length pre = k).
    { unfold pre. rewrite length_map, length_take. lia. }
    rewrite insert_app_r_alt by lia.
    by replace (k - length pre)%nat with 0%nat by lia.
Qed.

Lemma edge_imp_loop_map (in_motif : list nat) (n : nat) (sub_ei : PyG.edge_index) :
  edge_imp_loop in_motif n sub_ei
  = map (fun e => double_of_bool (edge_important in_motif n e)) sub_ei.
Proof.
  unfold edge_imp_loop. rewrite edge_imp_loop_prefix by done.
  rewrite firstn_all, Nat.sub_diag. simpl. by rewrite app_nil_r.
Qed.

Section Generator.
Variable khop_subgraph_nx : nat -> nat -> Graph -> list nat.

(** What a returned explanation is made of. *)
Lemma explanation_generator_inv (G : Graph) (L : nat) (graph : Data) (fimp : list float)
    (n : nat) (exp : Explanation) :
  explanation_generator khop_subgraph_nx G L graph fimp n = inr exp ->
  exists khop_info node_imp_b,
    PyG.k_hop_subgraph n L (PyG.to_undirected (edge_index graph)) false None = inr khop_info /\
    length node_imp_b = length (PyG.subset khop_info) /\
    exp = {| feature_imp := fimp;
             node_imp := map double_of_bool node_imp_b;
             edge_imp := edge_imp_loop (masked_select (PyG.subset khop_info) node_imp_b) n
                           (PyG.sub_edge_index khop_info);
             node_idx := n;
             enc_subgraph := Some khop_info |}.
Proof.
  unfold explanation_generator. intros Hgen.
  apply bind_inr in Hgen as (shapes & _ & Hgen).
  apply bind_inr in Hgen as (node_imp_map & _ & Hgen).
  apply bind_inr in Hgen as (khop_info & Hkhop & Hgen).
  apply bind_inr in Hgen as (node_imp_b & Hmap & Hgen).
  exists khop_info, node_imp_b. split_and!; [done | by eapply mapM_result_length |].
  rewrite node_imp_bool in Hgen. by inversion Hgen.
Qed.

(** One node: an explanation returned for [node_idx] carries the k-hop
    subgraph [khop_info] of [node_idx] over [model_layers] hops, and its
    [node_imp] has one entry per node of that subgraph, its [edge_imp] one
    entry per edge (column of [khop_info[1]]). *)
Lemma explanation_generator_lengths (G : Graph) (L : nat) (graph : Data)
    (fimp : list float) (n : nat) (exp : Explanation) :
  explanation_generator khop_subgraph_nx G L graph fimp n = inr exp ->
  exists khop_info,
    PyG.k_hop_subgraph n L (PyG.to_undirected (edge_index graph)) false None = inr khop_info /\
    enc_subgraph exp = Some khop_info /\ node_idx exp = n /\
    length (node_imp exp) = length (PyG.subset khop_info) /\
    length (edge_imp exp) = length (PyG.sub_edge_index khop_info).
Proof.
  intros Hgen.
  apply explanation_generator_inv in Hgen as (khop_info & bs & Hk & Hl & ->).
  exists khop_info. simpl. split_and!; [done..| |].
  - by rewrite length_map.
  - by rewrite edge_imp_loop_map, length_map.
Qed.

(** The map [node_imp_map] has a key for every node of [khop_nodes]. *)
Lemma dict_of_lookup {V : Type} (f : nat -> result V) (keys : list nat) :
  forall (m m' : gmap nat V),
  dict_of f keys m = inr m' ->
  forall i, i ∈ keys \/ is_Some (m !! i) -> is_Some (m' !! i).
Proof.
  induction keys as [|k keys IH]; intros m m' Hd i Hi; simpl in Hd.
  - inversion Hd; subst. destruct Hi as [Hi|Hi]; [by apply elem_of_nil in Hi | done].
  - apply bind_inr in Hd as (v & Hv & Hd).
    apply (IH _ _ Hd). destruct Hi as [Hi|Hi].
    + apply elem_of_cons in Hi as [->|Hi]; [right | by left].
      rewrite lookup_insert_eq. by eexists.
    + right. destruct (decide (k = i)) as [->|Hne].
      * rewrite lookup_insert_eq. by eexists.
      * by rewrite lookup_insert_ne.
Qed.

Lemma dict_of_total {V : Type} (f : nat -> result V) (keys : list nat) :
  (forall i, i ∈ keys -> returns (f i)) -> forall m, returns (dict_of f keys m).
Proof.
  induction keys as [|k keys IH]; intros Hf m; simpl.
  - by eexists.
  - destruct (Hf k) as [v Hv]; [by left|]. rewrite Hv. cbn.
    apply IH. intros i Hi. apply Hf. by right.
Qed.

(** [explanation_generator] returns when the nodes it looks at carry a
    ['shape'] attribute, [node_idx] is a node of [edge_index], and the
    networkx neighbourhood covers the k-hop subset. *)
Lemma explanation_generator_returns (G : Graph) (L : nat) (graph : Data)
    (fimp : list float) (n : nat) (khop_info : PyG.khop_info) :
  (forall v, v ∈ khop_subgraph_nx n 1 G -> is_Some (node_shape G !! v)) ->
  (forall v, v ∈ khop_subgraph_nx n L G -> is_Some (node_shape G !! v)) ->
  PyG.k_hop_subgraph n L (PyG.to_undirected (edge_index graph)) false None = inr khop_info ->
  (forall v, v ∈ PyG.subset khop_info -> v ∈ khop_subgraph_nx n L G) ->
  returns (explanation_generator khop_subgraph_nx G L graph fimp n).
Proof.
  intros H1 HL Hk Hcover. unfold explanation_generator.
  destruct (mapM_result_total (shape_of G) (khop_subgraph_nx n 1 G)) as [shapes ->].
  { intros v Hv. destruct (H1 v Hv) as [z Hz]. exists z. unfold shape_of. by rewrite Hz. }
  cbn.
  set (orig := list_to_set _ : gset Z).
  destruct (dict_of_total
              (fun i => s ← shape_of G i; mret (bool_decide (s ∈ orig)))
              (khop_subgraph_nx n L G)) with (m := (∅ : gmap nat bool)) as [m Hm].
  { intros v Hv. destruct (HL v Hv) as [z Hz]. eexists. unfold shape_of. rewrite Hz. done. }
  rewrite Hm. cbn. rewrite Hk. cbn.
  destruct (mapM_result_total (fun i => of_option KeyError (m !! i)) (PyG.subset khop_info))
    as [bs ->].
  { intros v Hv. destruct (dict_of_lookup _ _ _ _ Hm v) as [b Hb]; [left; by apply Hcover|].
    exists b. by rewrite Hb. }
  cbn. by eexists.
Qed.

(** C8: in the explanation returned for [node_idx], call a node tagged when
    its [node_imp] entry is 1.  The edge in column [i] of the k-hop subgraph
    has [edge_imp] 1 exactly when both its endpoints are tagged, or it is
    incident to [node_idx], exactly one endpoint is tagged and [node_idx] is
    not tagged; every other edge has [edge_imp] 0. *)
Theorem explanation_generator_edge_imp (G : Graph) (L : nat) (graph : Data)
    (fimp : list float) (n : nat) (exp : Explanation) (khop_info : PyG.khop_info) :
  explanation_generator khop_subgraph_nx G L graph fimp n = inr exp ->
  enc_subgraph exp = Some khop_info ->
  let tagged w :=
    exists j, PyG.subset khop_info !! j = Some w /\ node_imp exp !! j = Some 1%float in
  forall i u v, PyG.sub_edge_index khop_info !! i = Some (u, v) ->
    let important :=
      (tagged u /\ tagged v) \/
      ((u = n \/ v = n) /\
       ((tagged u /\ ~ tagged v) \/ (~ tagged u /\ tagged v)) /\
       ~ tagged n) in
    (edge_imp exp !! i = Some 1%float <-> important) /\
    (edge_imp exp !! i = Some 0%float <-> ~ important).
Proof.
  intros Hgen Henc tagged i u v Hi important.
  apply explanation_generator_inv in Hgen as (khop & bs & _ & Hl & ->).
  simpl in Henc. inversion Henc; subst khop. simpl in *.
  set (in_motif := masked_select (PyG.subset khop_info) bs).
  assert (Htag : forall w, tagged w <-> contains in_motif w = true).
  { intros w. unfold contains. rewrite bool_decide_eq_true.
    unfold in_motif. rewrite elem_of_masked_select. unfold tagged.
    split; intros (j & Hj & Hb); exists j; (split; [done|]).
    - rewrite list_lookup_fmap in Hb. destruct (bs !! j) as [b|]; [|done].
      simpl in Hb. inversion Hb as [Hb']. by apply double_of_bool_one in Hb' as ->.
    - by rewrite list_lookup_fmap, Hb. }
  assert (Himp : important <-> edge_important in_motif n (u, v) = true).
  { unfold important, edge_important. rewrite !Htag. simpl.
    destruct (contains in_motif u), (contains in_motif v), (contains in_motif n);
      simpl; repeat case_bool_decide; simpl; intuition congruence. }
  rewrite edge_imp_loop_map, list_lookup_fmap, Hi. simpl.
  split.
  - rewrite Himp. split.
    + intros Heq. inversion Heq as [Heq']. by apply double_of_bool_one.
    + by intros ->.
  - rewrite Himp. split.
    + intros Heq. inversion Heq as [Heq']. apply double_of_bool_zero in Heq'.
      by rewrite Heq'.
    + intros Hn. by destruct (edge_important in_motif n (u, v)).
Qed.

End Generator.

End ExplanationFacts.

(** ** ShapeGraph: the verification retry loop *)

Module RetryFacts.

Import ShapeGraph.

Section Loop.
Context {TG R NP : Type}.
Variable BBG_old : bbg_args -> World TG R NP -> Graph * World TG R NP.
Variable BBG_PA : bbg_args -> World TG R NP -> Graph * World TG R NP.
Variable verify_motifs : Graph -> option Graph -> bool.
Variable c : config.

Local Abbreviation build := (build BBG_old BBG_PA c).
Local Abbreviation verify_loop := (verify_loop BBG_old BBG_PA verify_motifs c).
Local Abbreviation world_before := (world_before BBG_old BBG_PA c).
Local Abbreviation attempt := (attempt BBG_old BBG_PA c).
Local Abbreviation verified := (verified BBG_old BBG_PA verify_motifs c).
Local Abbreviation rejected := (rejected BBG_old BBG_PA verify_motifs c).
Local Abbreviation exhausted :=
  (inl (RuntimeError exhausted_msg (max_tries_verification c)) : result Graph).

(** Whether a build assigns [self.G] depends on [variant] alone. *)
Lemma build_consistent :
  (forall w, is_Some (build w).1) \/ (forall w, build w = (None, w)).
Proof.
  unfold ShapeGraph.build.
  destruct (decide (variant c = 0)) as [H0|H0].
  - left. intros w. destruct (BBG_old _ w). by eexists.
  - destruct (decide (variant c = 1)) as [H1|H1].
    + left. intros w. destruct (BBG_PA _ w). by eexists.
    + by right.
Qed.

Lemma rejected_attempt k w :
  rejected k w = true ->
  exists g, attempt k w = Some g /\ verify_motifs g (insert_shape c) = false.
Proof.
  unfold ShapeGraph.rejected. destruct (attempt k w) as [g|]; [|done].
  intros Hr. exists g. split; [done|]. by apply negb_true_iff.
Qed.

(** Every attempt rejected: the loop runs out and raises. *)
Lemma verify_loop_exhausted n : forall w self_G,
  (forall k, (k < n)%nat -> rejected k w = true) ->
  verify_loop n self_G w = (exhausted, world_before n w).
Proof.
  induction n as [|n IH]; intros w self_G Hrej; [done|].
  destruct (rejected_attempt 0 w) as (g & Hg & Hv); [apply Hrej; lia|].
  unfold ShapeGraph.attempt in Hg. simpl in Hg. simpl.
  destruct (build w) as [built w'] eqn:Hb. simpl in Hg. subst built.
  rewrite Hv. rewrite (IH w' (Some g)); [done|].
  intros k Hk. specialize (Hrej (S k) ltac:(lia)).
  unfold ShapeGraph.rejected, ShapeGraph.attempt in *. simpl in Hrej.
  by rewrite Hb in Hrej.
Qed.

(** The first accepted attempt ends the loop with its graph. *)
Lemma verify_loop_accepts k : forall n w self_G,
  (k < n)%nat -> verified k w = true ->
  (forall j, (j < k)%nat -> rejected j w = true) ->
  exists g, attempt k w = Some g /\
    verify_loop n self_G w = (inr g, world_before (S k) w).
Proof.
  induction k as [|k IH]; intros n w self_G Hk Hver Hrej;
    (destruct n as [|n]; [lia|]).
  - unfold ShapeGraph.verified, ShapeGraph.attempt in *. simpl in *.
    destruct (build w) as [built w'] eqn:Hb. simpl in *.
    destruct built as [g|]; [|done]. exists g. by rewrite Hver.
  - destruct (rejected_attempt 0 w) as (g0 & Hg0 & Hv0); [apply Hrej; lia|].
    unfold ShapeGraph.attempt in Hg0. simpl in Hg0.
    destruct (build w) as [built w'] eqn:Hb. simpl in Hg0. subst built.
    destruct (IH n w' (Some g0)) as (g & Hg & Hloop); [lia | | |].
    + unfold ShapeGraph.verified, ShapeGraph.attempt in *. simpl in Hver.
      by rewrite Hb in Hver.
    + intros j Hj. specialize (Hrej (S j) ltac:(lia)).
      unfold ShapeGraph.rejected, ShapeGraph.attempt in *. simpl in Hrej.
      by rewrite Hb in Hrej.
    + exists g. split.
      * unfold ShapeGraph.attempt in *. simpl. by rewrite Hb.
      * simpl. rewrite Hb, Hv0, Hloop. done.
Qed.

(** The construction error comes from nowhere else. *)
Lemma verify_loop_exhausted_inv n : forall w self_G,
  (self_G = None \/ forall w', is_Some (build w').1) ->
  (verify_loop n self_G w).1 = exhausted ->
  forall k, (k < n)%nat -> rejected k w = true.
Proof.
  induction n as [|n IH]; intros w self_G HG Hres k Hk; [lia|].
  simpl in Hres. destruct (build w) as [built w'] eqn:Hb.
  assert (Hbuilt : exists g, built = Some g /\ (forall w', is_Some (build w').1)).
  { destruct build_consistent as [Hs|Hn].
    - destruct (Hs w) as [g Hg]. rewrite Hb in Hg. simpl in Hg. eauto.
    - destruct HG as [->|Hs].
      + rewrite Hn in Hb. inversion Hb; subst. done.
      + destruct (Hs w) as [g Hg]. rewrite Hb in Hg. simpl in Hg. eauto. }
  destruct Hbuilt as (g & -> & Hs).
  destruct (verify_motifs g (insert_shape c)) eqn:Hv; [done|].
  destruct k as [|k].
  - unfold ShapeGraph.rejected, ShapeGraph.attempt. simpl. rewrite Hb. simpl.
    by rewrite Hv.
  - specialize (IH w' (Some g) (or_intror Hs) Hres k ltac:(lia)).
    unfold ShapeGraph.rejected, ShapeGraph.attempt in *. simpl. by rewrite Hb.
Qed.

(** The loop builds at most [n] graphs. *)
Lemma verify_loop_builds n : forall w self_G,
  exists k, (k <= n)%nat /\ (verify_loop n self_G w).2 = world_before k w.
Proof.
  induction n as [|n IH]; intros w self_G.
  - by exists 0%nat.
  - simpl. destruct (build w) as [built w'] eqn:Hb.
    destruct built as [g|].
    + destruct (verify_motifs g (insert_shape c)).
      * exists 1%nat. split; [lia|]. simpl. by rewrite Hb.
      * destruct (IH w' (Some g)) as (k & Hk & Hw).
        exists (S k). split; [lia|]. simpl. by rewrite Hb.
    + destruct self_G as [g|].
      * destruct (verify_motifs g (insert_shape c)).
        -- exists 1%nat. split; [lia|]. simpl. by rewrite Hb.
        -- destruct (IH w' (Some g)) as (k & Hk & Hw).
           exists (S k). split; [lia|]. simpl. by rewrite Hb.
      * exists 1%nat. split; [lia|]. simpl. by rewrite Hb.
Qed.

(** C3: with verification enabled the constructor builds the host graph at
    most [max_tries_verification] times; the loop ends without error at the
    first attempt [verify_motifs] accepts, with that attempt's graph and no
    further build; and it raises the construction error, which carries
    [max_tries_verification], exactly when [verify_motifs] rejects all
    [max_tries_verification] attempts. *)
Theorem build_graph_retry (shape : shape_arg) (w : World TG R NP) :
  verify c = true -> not_random shape = true ->
  let tries := Z.to_nat (max_tries_verification c) in
  let res := build_graph BBG_old BBG_PA verify_motifs c shape w in
  (exists k, (k <= tries)%nat /\ res.2 = world_before k w) /\
  (forall k, (k < tries)%nat -> verified k w = true ->
     (forall j, (j < k)%nat -> rejected j w = true) ->
     exists g, attempt k w = Some g /\ res = (inr g, world_before (S k) w)) /\
  (res.1 = exhausted <-> forall k, (k < tries)%nat -> rejected k w = true) /\
  ((forall k, (k < tries)%nat -> rejected k w = true) -> res.2 = world_before tries w).
Proof.
  intros Hver Hshape tries res. subst res. unfold build_graph.
  rewrite Hver, Hshape. simpl. fold tries. split_and!.
  - apply verify_loop_builds.
  - intros k Hk Hacc Hrej. by apply verify_loop_accepts.
  - split.
    + apply verify_loop_exhausted_inv. by left.
    + intros Hrej. by rewrite verify_loop_exhausted.
  - intros Hrej. by rewrite verify_loop_exhausted.
Qed.

End Loop.

End RetryFacts.

(** ** ShapeGraph: the split masks *)

Module SplitFacts.

Import Torch ShapeGraph.

Lemma mask_sum_mask_of (range_set nodes : list nat) :
  NoDup range_set -> NoDup nodes -> nodes ⊆ range_set ->
  mask_sum (mask_of range_set nodes) = length nodes.
Proof.
  intros Hr Hn Hsub. unfold mask_sum, mask_of.
  transitivity (length (filter (fun s => s ∈ nodes) range_set)).
  - clear. induction range_set as [|s l IH]; [done|]. simpl.
    rewrite !filter_cons. case_bool_decide as Hs.
    + rewrite decide_True by done. rewrite decide_True by done. simpl. by rewrite IH.
    + rewrite decide_False by done. by rewrite decide_False by done.
  - apply Permutation_length, NoDup_Permutation; [by apply NoDup_filter | done |].
    intros s. rewrite list_elem_of_filter. split; [by intros [? _]|].
    intros Hs. split; [done | by apply Hsub].
Qed.

Lemma length_mask_of (range_set nodes : list nat) :
  length (mask_of range_set nodes) = length range_set.
Proof. unfold mask_of. by rewrite length_map. Qed.

Section Splits.
Context `{Py.Random R}.

(** A returned sample has the size asked for, without repetition, from
    the population. *)
Lemma sample_fraction_spec (n : nat) (c : float) (r r' : R) (l : list nat) :
  sample_fraction (seq 0 n) n c r = (inr l, r') ->
  exists k, Py.int_mul n c = inr k /\ 0 <= k <= Z.of_nat n /\
    Z.of_nat (length l) = k /\ NoDup l /\ l ⊆ seq 0 n.
Proof.
  unfold sample_fraction. destruct (Py.int_mul n c) as [e|k]; [by inversion 1|].
  unfold Py.random_sample. case_decide as Hk; [|by inversion 1].
  rewrite length_seq in Hk.
  destruct (Py.sample_spec (seq 0 n) (Z.to_nat k) r) as (Hlen & rest & Hperm).
  { rewrite length_seq. lia. }
  destruct (Py.sample (seq 0 n) (Z.to_nat k) r) as [l0 r0]. simpl in *.
  intros Heq. inversion Heq; subst l0 r0.
  exists k. split_and!; [done | lia | lia | lia | |].
  - assert (Hnd : NoDup (l ++ rest)) by (rewrite Hperm; apply NoDup_seq).
    by apply NoDup_app in Hnd as (? & _).
  - intros v Hv. rewrite <- Hperm. apply elem_of_app. by left.
Qed.

Lemma sample_fraction_returns (n : nat) (c : float) (r : R) (k : Z) :
  Py.int_mul n c = inr k -> 0 <= k <= Z.of_nat n ->
  exists l r', sample_fraction (seq 0 n) n c r = (inr l, r').
Proof.
  intros Hk Hrange. unfold sample_fraction, Py.random_sample. rewrite Hk.
  rewrite length_seq, decide_True by done.
  destruct (Py.sample (seq 0 n) (Z.to_nat k) r) as [l r']. eauto.
Qed.

(** The masks of one run of lines 191-200: each has one entry per node, and
    as many true entries as the sample size [int(num_nodes * fraction)]. *)
Lemma make_splits_sizes (n : nat) (train test valid : list bool) (r : R) :
  make_splits n = (inr (train, test, valid), r) ->
  exists k_train k_test k_valid,
    Py.int_mul n Py.f_0_7 = inr k_train /\
    Py.int_mul n Py.f_0_25 = inr k_test /\
    Py.int_mul n Py.f_0_05 = inr k_valid /\
    length train = n /\ length test = n /\ length valid = n /\
    Z.of_nat (mask_sum train) = k_train /\
    Z.of_nat (mask_sum test) = k_test /\
    Z.of_nat (mask_sum valid) = k_valid.
Proof.
  unfold make_splits.
  destruct (sample_fraction (seq 0 n) n Py.f_0_7 (Py.seed 1234)) as [[e|l1] r1] eqn:H1;
    [by inversion 1|].
  destruct (sample_fraction (seq 0 n) n Py.f_0_25 r1) as [[e|l2] r2] eqn:H2;
    [by inversion 1|].
  destruct (sample_fraction (seq 0 n) n Py.f_0_05 r2) as [[e|l3] r3] eqn:H3;
    [by inversion 1|].
  intros Heq. inversion Heq; subst train test valid r.
  apply sample_fraction_spec in H1 as (k1 & Hk1 & _ & Hl1 & Hn1 & Hs1).
  apply sample_fraction_spec in H2 as (k2 & Hk2 & _ & Hl2 & Hn2 & Hs2).
  apply sample_fraction_spec in H3 as (k3 & Hk3 & _ & Hl3 & Hn3 & Hs3).
  exists k1, k2, k3.
  rewrite !length_mask_of, length_seq.
  rewrite !mask_sum_mask_of by (done || apply NoDup_seq).
  by split_and!.
Qed.

Lemma make_splits_returns (n : nat) (k_train k_test k_valid : Z) :
  Py.int_mul n Py.f_0_7 = inr k_train -> 0 <= k_train <= Z.of_nat n ->
  Py.int_mul n Py.f_0_25 = inr k_test -> 0 <= k_test <= Z.of_nat n ->
  Py.int_mul n Py.f_0_05 = inr k_valid -> 0 <= k_valid <= Z.of_nat n ->
  exists masks r, make_splits n = (inr masks, r).
Proof.
  intros H1 R1 H2 R2 H3 R3. unfold make_splits.
  destruct (sample_fraction_returns n _ (Py.seed 1234) _ H1 R1) as (l1 & r1 & ->).
  destruct (sample_fraction_returns n _ r1 _ H2 R2) as (l2 & r2 & ->).
  destruct (sample_fraction_returns n _ r2 _ H3 R3) as (l3 & r3 & ->).
  eauto.
Qed.

End Splits.

End SplitFacts.

(** ** The explainers *)

Module ExplainerFacts.

Import Torch.

Lemma empty_exp_lookup (EXP_TYPES : list string) (k : string) :
  Exp.empty_exp EXP_TYPES !! k = if decide (k ∈ EXP_TYPES) then Some Exp.PyNone else None.
Proof.
  unfold Exp.empty_exp.
  assert (Hgen : forall m : gmap string Exp.value,
    foldl (fun m k => <[k:=Exp.PyNone]> m) m EXP_TYPES !! k
    = if decide (k ∈ EXP_TYPES) then Some Exp.PyNone else m !! k).
  { induction EXP_TYPES as [|k0 l IH]; intros m; cbn [foldl].
    - case_decide as Hin; [by apply elem_of_nil in Hin | done].
    - rewrite IH. destruct (decide (k ∈ l)) as [Hin|Hnin].
      + rewrite decide_True; [done | by right].
      + destruct (decide (k0 = k)) as [->|Hne].
        * rewrite lookup_insert_eq, decide_True; [done | by left].
        * rewrite lookup_insert_ne by done. rewrite decide_False; [done|].
          intros [?|?]%elem_of_cons; congruence. }
  rewrite Hgen. by rewrite lookup_empty.
Qed.

Lemma length_masked_select {A : Type} (t : list A) : forall mask,
  (length (masked_select t mask) <= length t)%nat.
Proof.
  induction t as [|a t IH]; intros mask; simpl; [lia|].
  destruct mask as [|[] mask]; simpl; [lia | |]; specialize (IH mask); lia.
Qed.

Lemma k_hop_subgraph_edges (node_idx num_hops : nat) (ei : PyG.edge_index)
    (num_nodes : option nat) (khop_info : PyG.khop_info) :
  PyG.k_hop_subgraph node_idx num_hops ei false num_nodes = inr khop_info ->
  (length (PyG.sub_edge_index khop_info) <= length ei)%nat.
Proof.
  unfold PyG.k_hop_subgraph. case_decide; [|done].
  intros Heq. inversion Heq; subst khop_info. simpl. apply length_masked_select.
Qed.

Section Random.
Context `{Generator TG}.

(** What a returned call of the random node explainer is made of. *)
Lemma random_get_explanation_node_inv (EXP_TYPES : list string) (self : RandomExplainer.t)
    (node_idx : nat) (x : list (list float)) (ei : PyG.edge_index)
    (num_hops : option nat) (g g' : TG) (exp : gmap string Exp.value)
    (khop_info : PyG.khop_info) :
  RandomExplainer.get_explanation_node EXP_TYPES self node_idx x ei num_hops g
    = (inr (exp, khop_info), g') ->
  exists x0 f e,
    PyG.k_hop_subgraph node_idx (default (RandomExplainer.L self) num_hops) ei false None
      = inr khop_info /\
    x !! 0%nat = Some x0 /\ length f = length x0 /\ length e = length ei /\
    exp = <["edge_imp":=Exp.Tensor e]>
            (<["feature_imp":=Exp.Tensor f]> (Exp.empty_exp EXP_TYPES)).
Proof.
  unfold RandomExplainer.get_explanation_node.
  destruct (PyG.k_hop_subgraph _ _ _ _ _) as [err|k]; [by inversion 1|].
  destruct (x !! 0%nat) as [x0|]; [|by inversion 1].
  pose proof (randn_length (length x0) g) as Hf.
  destruct (randn (length x0) g) as [f g1].
  pose proof (randn_length (length ei) g1) as He.
  destruct (randn (length ei) g1) as [e g2].
  intros Heq. inversion Heq; subst. by exists x0, f, e.
Qed.

(** C2 as the code has it: the random node explainer returns a
    [feature_imp] with one entry per feature (column of [x]) and an
    [edge_imp] with one entry per column of the [edge_index] it was given,
    that is per edge of the whole graph; the k-hop subgraph of [node_idx]
    that it returns alongside has at most that many edges. *)
Theorem random_get_explanation_node_shapes (EXP_TYPES : list string)
    (self : RandomExplainer.t) (node_idx : nat) (x : list (list float))
    (ei : PyG.edge_index) (num_hops : option nat) (g g' : TG)
    (exp : gmap string Exp.value) (khop_info : PyG.khop_info) :
  RandomExplainer.get_explanation_node EXP_TYPES self node_idx x ei num_hops g
    = (inr (exp, khop_info), g') ->
  exists x0, x !! 0%nat = Some x0 /\
    Exp.tensor_len exp "feature_imp" = Some (length x0) /\
    Exp.tensor_len exp "edge_imp" = Some (length ei) /\
    PyG.k_hop_subgraph node_idx (default (RandomExplainer.L self) num_hops) ei false None
      = inr khop_info /\
    (length (PyG.sub_edge_index khop_info) <= length ei)%nat.
Proof.
  intros Hret.
  apply random_get_explanation_node_inv in Hret as (x0 & f & e & Hk & Hx & Hf & He & ->).
  exists x0. unfold Exp.tensor_len. split_and!; [done | | | done |].
  - rewrite lookup_insert_ne by done. rewrite lookup_insert_eq. by rewrite Hf.
  - rewrite lookup_insert_eq. by rewrite He.
  - by eapply k_hop_subgraph_edges.
Qed.

(** C10: the dict returned by the random node explainer never holds a
    tensor under ['node_imp']; where ['node_imp'] is one of [EXP_TYPES],
    [exp['node_imp']] is [None]. *)
Theorem random_node_imp_none (EXP_TYPES : list string) (self : RandomExplainer.t)
    (node_idx : nat) (x : list (list float)) (ei : PyG.edge_index)
    (num_hops : option nat) (g g' : TG) (exp : gmap string Exp.value)
    (khop_info : PyG.khop_info) :
  RandomExplainer.get_explanation_node EXP_TYPES self node_idx x ei num_hops g
    = (inr (exp, khop_info), g') ->
  (forall t, exp !! "node_imp" <> Some (Exp.Tensor t)) /\
  ("node_imp" ∈ EXP_TYPES -> Exp.getitem exp "node_imp" = inr Exp.PyNone).
Proof.
  intros Hret.
  apply random_get_explanation_node_inv in Hret as (x0 & f & e & _ & _ & _ & _ & ->).
  unfold Exp.getitem.
  rewrite !lookup_insert_ne by done. rewrite empty_exp_lookup.
  split.
  - intros t. by case_decide.
  - intros Hin. by rewrite decide_True.
Qed.

End Random.

Section GNN.
Variable St : Type.
Variable self_L : St -> nat.
Variable predict : St -> list (list float) -> PyG.edge_index -> result (list Z).
Variable set_masks : St -> list (list float) -> PyG.edge_index -> bool -> result St.
Variable model_eval : St -> result St.
Variable train : St -> GNNExplainer.mask_type -> list (list float) -> PyG.khop_info ->
                 list Z -> result St.
Variable feature_mask_data : St -> list float.
Variable edge_mask_data : St -> list float.
Variable clear_masks : St -> St.

Local Abbreviation get_explanation_node :=
  (GNNExplainer.get_explanation_node St self_L predict set_masks model_eval train
     feature_mask_data edge_mask_data clear_masks).

(** [explain_feature] is bound nowhere. *)
Lemma explain_feature_unbound (get_feature_mask : bool) :
  GNNExplainer.load_name (GNNExplainer.locals_at_110 get_feature_mask) "explain_feature"
  = raise (NameError "explain_feature").
Proof. destruct get_feature_mask; vm_compute; reflexivity. Qed.


End GNN.

(** C4: the granularities an explainer does not implement raise on every
    input and return nothing: [RandomExplainer.get_explanation_link] and
    [GNNExplainer.get_explanation_link] raise [NotImplementedError], and
    [GNNExplainer.get_explanation_graph] raises an [Exception] saying that
    graph-level explanation is not supported. *)
Theorem unsupported_granularity_raises :
  (forall (A : Type) (self : RandomExplainer.t),
     RandomExplainer.get_explanation_link (A:=A) self = raise NotImplementedError /\
     ~ returns (RandomExplainer.get_explanation_link (A:=A) self)) /\
  (forall (A St : Type) (self : St) (ei : PyG.edge_index) (x : list (list float))
          (label : list Z) (explain_feature : bool),
     GNNExplainer.get_explanation_graph (A:=A) St self ei x label explain_feature
     = raise (Exception "GNNExplainer does not support graph-level explanation.") /\
     ~ returns (GNNExplainer.get_explanation_graph (A:=A) St self ei x label
                  explain_feature)) /\
  (forall (A St : Type) (self : St),
     GNNExplainer.get_explanation_link (A:=A) St self = raise NotImplementedError /\
     ~ returns (GNNExplainer.get_explanation_link (A:=A) St self)).
Proof.
  split_and!; intros; (split; [reflexivity | by intros [r Hr]]).
Qed.

End ExplainerFacts.

(** ** The stand-in generators meet the contracts *)

Module RefFacts.

Import Ref.

Lemma draws_length n : forall s, length (draws n s).1 = n.
Proof.
  induction n as [|n IH]; intros s; simpl; [done|].
  destruct (draw s) as [v s1]. specialize (IH s1).
  destruct (draws n s1) as [vs s2]. simpl in *. by rewrite IH.
Qed.

Lemma tape_randint01_length n s : length (tape_randint01 n s).1 = n.
Proof.
  unfold tape_randint01. pose proof (draws_length n s) as Hl.
  destruct (draws n s) as [vs s']. simpl in *. by rewrite length_map.
Qed.

Lemma tape_randn_length n s : length (tape_randn n s).1 = n.
Proof.
  unfold tape_randn. pose proof (draws_length n s) as Hl.
  destruct (draws n s) as [vs s']. simpl in *. by rewrite length_map.
Qed.

Lemma insert_at_perm {A : Type} (i : nat) (v : A) (l : list A) :
  insert_at i v l ≡ₚ l ++ [v].
Proof.
  unfold insert_at. rewrite <- (take_drop i l) at 3.
  rewrite <- Permutation_middle, <- (assoc_L (++)).
  rewrite (Permutation_app_comm (drop i l) [v]). simpl.
  by rewrite <- Permutation_middle.
Qed.

Lemma tape_randperm_perm n : forall s, (tape_randperm n s).1 ≡ₚ seq 0 n.
Proof.
  induction n as [|n IH]; intros s; [done|].
  simpl tape_randperm. specialize (IH s).
  destruct (tape_randperm n s) as [p s1]. destruct (draw s1) as [v s2].
  simpl fst in *. rewrite insert_at_perm, IH, seq_S. done.
Qed.

Lemma rot_sample_spec pop k s :
  (k <= length pop)%nat ->
  length (rot_sample pop k s).1 = k /\
  exists rest, (rot_sample pop k s).1 ++ rest ≡ₚ pop.
Proof.
  intros Hk. unfold rot_sample. simpl. split.
  - rewrite length_take, length_rotate. lia.
  - exists (drop k (rotate s pop)). rewrite take_drop. unfold rotate.
    rewrite Permutation_app_comm. by rewrite take_drop.
Qed.

#[global] Instance tape_generator : Torch.Generator (list nat) :=
  {| Torch.randint01 := tape_randint01;
     Torch.randperm := tape_randperm;
     Torch.randn := tape_randn;
     Torch.randint01_length := tape_randint01_length;
     Torch.randperm_perm := fun n s => tape_randperm_perm n s;
     Torch.randn_length := tape_randn_length |}.

#[global] Instance rot_random : Py.Random nat :=
  {| Py.seed := rot_seed;
     Py.sample := rot_sample;
     Py.sample_spec := rot_sample_spec |}.

End RefFacts.

(** ** Concrete runs on the stand-ins *)

Module Scenario.

Import Ref RefFacts.

(** The state of the global generators before a first construction. *)
Definition w0 : ShapeGraph.World (list nat) nat (list nat) :=
  {| ShapeGraph.torch_gen :=
       [1; 0; 1; 1; 0; 0; 1; 0; 1; 1; 0; 1; 0; 3; 1; 4; 1; 5; 9; 2; 6; 5; 3; 5]%nat;
     ShapeGraph.py_random := 0%nat;
     ShapeGraph.np_random := [20; 3; 5]%nat |}.

(** [ShapeGraph(model_layers=3, shape='House', seed=seed)] on the stand-ins. *)
Definition construct (seed : option Z) (w : ShapeGraph.World (list nat) nat (list nat))
  : result ShapeGraph.t * ShapeGraph.World (list nat) nat (list nat) :=
  ShapeGraph.init khop_subgraph_nx BBG BBG verify_motifs bound_graph_label
    gaussian_lv_generator house pentagon 3 (ShapeGraph.ShapeName "House") seed true
    no_kwargs w.

(** A graph of two separate edges, 0 - 1 and 2 - 3, with two features
    per node. *)
Definition two_edges : PyG.edge_index := [(0, 1); (1, 0); (2, 3); (3, 2)]%nat.

Definition x42 : list (list float) :=
  [[1%float; 2%float]; [3%float; 4%float]; [5%float; 6%float]; [7%float; 8%float]].

(** The names of an explanation dict. *)
Definition EXP_TYPES : list string := ["feature_imp"; "node_imp"; "edge_imp"].

(** The random node explainer on node 0 of [two_edges], one hop. *)
Definition explain_node_0
  : result (gmap string Exp.value * PyG.khop_info) * list nat :=
  RandomExplainer.get_explanation_node EXP_TYPES {| RandomExplainer.L := 3 |}
    0 x42 two_edges (Some 1%nat) [3; 1; 4; 1; 5; 9; 2; 6]%nat.

(** [ShapeGraph(model_layers=3, shape='house', seed=1234,
    make_explanations=False, subgraph_size=90)] on the stand-ins. *)
Definition construct_90 : result ShapeGraph.t * ShapeGraph.World (list nat) nat (list nat) :=
  ShapeGraph.init khop_subgraph_nx BBG BBG verify_motifs bound_graph_label
    gaussian_lv_generator house pentagon 3 (ShapeGraph.ShapeName "house") (Some 1234) false
    {| ShapeGraph.kw_variant := None; ShapeGraph.kw_num_subgraphs := None;
       ShapeGraph.kw_prob_connection := None; ShapeGraph.kw_subgraph_size := Some 90;
       ShapeGraph.kw_base_graph := None; ShapeGraph.kw_verify := None;
       ShapeGraph.kw_max_tries_verification := None; ShapeGraph.kw_n_informative := None;
       ShapeGraph.kw_class_sep := None; ShapeGraph.kw_n_features := None;
       ShapeGraph.kw_n_clusters_per_class := None;
       ShapeGraph.kw_add_sensitive_feature := None |} w0.

(** The attributes of [ShapeGraph(shape='house')] without a seed. *)
Definition cfg_house : ShapeGraph.config :=
  ShapeGraph.resolve_kwargs 3 None true no_kwargs (Some house).

(** A path 0 - 1 - ... - 5 whose nodes 3 and 4 form the motif, and the
    explanation of node 2 over two hops. *)
Definition G6 : ShapeGraph.Graph := path_graph 6 [3; 4]%nat.

Definition graph6 : ShapeGraph.Data :=
  {| ShapeGraph.x := []; ShapeGraph.y := [];
     ShapeGraph.edge_index := PyG.to_undirected (ShapeGraph.edges G6);
     ShapeGraph.shape := [] |}.

Definition explain_2 : result ShapeGraph.Explanation :=
  ShapeGraph.explanation_generator khop_subgraph_nx G6 2 graph6 [] 2.

(** [generate_shape_graph] on a path of four nodes with motif {1, 2}. *)
Definition generate_4
  : result ShapeGraph.generated * ShapeGraph.World (list nat) nat (list nat) :=
  ShapeGraph.generate_shape_graph khop_subgraph_nx bound_graph_label gaussian_lv_generator
    cfg_house (path_graph 4 [1; 2]%nat) w0.

End Scenario.

(** ** ShapeGraph: the constructed dataset *)

Module InitFacts.

Import Torch ShapeGraph.

Section Init.
Context {TG R NP : Type} `{!Generator TG} `{!Py.Random R}.
Variable khop_subgraph_nx : nat -> nat -> Graph -> list nat.
Variable BBG_old : bbg_args -> World TG R NP -> Graph * World TG R NP.
Variable BBG_PA : bbg_args -> World TG R NP -> Graph * World TG R NP.
Variable verify_motifs : Graph -> option Graph -> bool.
Variable bound_graph_label : Graph -> nat -> Z.
Variable gaussian_lv_generator :
  Graph -> list Z -> option Z -> Z -> float -> Z -> Z ->
  World TG R NP -> ((nat -> list float) * list float) * World TG R NP.
Variable house : Graph.
Variable pentagon : Graph.

Local Abbreviation init :=
  (ShapeGraph.init khop_subgraph_nx BBG_old BBG_PA verify_motifs bound_graph_label
                   gaussian_lv_generator house pentagon).
Local Abbreviation generate_shape_graph :=
  (ShapeGraph.generate_shape_graph khop_subgraph_nx bound_graph_label
                                   gaussian_lv_generator).

(** What [generate_shape_graph] leaves in the object. *)
Lemma generate_shape_graph_inv (c : config) (G0 : Graph) (w w' : World TG R NP)
    (gen : generated) :
  generate_shape_graph c G0 w = (inr gen, w') ->
  nodes (gen_G gen) = nodes G0 /\
  (make_explanations c = true ->
   exists exps, gen_explanations gen = Some exps /\
     mapM (explanation_generator khop_subgraph_nx (gen_G gen) (model_layers c)
             (gen_graph gen) (gen_feature_imp_true gen))
          (nodes (gen_G gen)) = inr exps) /\
  (make_explanations c = false -> gen_explanations gen = None).
Proof.
  unfold ShapeGraph.generate_shape_graph.
  destruct (gaussian_lv_generator _ _ _ _ _ _ _ w) as [[gen_features fimp] w1].
  destruct (stack _) as [e|x0]; [by inversion 1|].
  destruct (sensitive_step _ (float2 x0) fimp (torch_gen w1)) as [[e|[[x1 fimp1] sens]] g];
    [by inversion 1|].
  cbn. destruct (edge_index_of _) as [e|ei]; cbn; [by inversion 1|].
  destruct (make_explanations c) eqn:Hmk; cbn.
  - match goal with |- context [mapM ?f ?l] => destruct (mapM f l) as [e|exps] eqn:Hm end;
      cbn; [by inversion 1|].
    intros Heq. inversion Heq; subst gen w'. simpl. split_and!; [done | | done].
    intros _. by exists exps.
  - intros Heq. inversion Heq; subst gen w'. simpl. by split_and!.
Qed.

(** C5: when [generate_shape_graph] returns with [add_sensitive_feature]
    enabled, it has drawn one permutation [shuffle_ind] of the columns and
    assigned through it both the columns of the feature matrix (the
    generated features, cast by [.float()], with the sensitive column
    appended) and the entries
    of [feature_imp_true] (the generated weights with a zero appended).
    Selecting through the same [shuffle_ind], which is applying the inverse
    permutation, gives back the pre-shuffle matrix and importance vector
    exactly, and the sensitive column is at the stored index
    [sensitive_feature], the last entry of [shuffle_ind], where the
    importance is 0. *)
Theorem generate_shape_graph_shuffle (c : config) (G0 : Graph) (w w' : World TG R NP)
    (gen : generated) :
  generate_shape_graph c G0 w = (inr gen, w') ->
  add_sensitive_feature c = true ->
  let r := gaussian_lv_generator G0 (map (bound_graph_label G0) (nodes G0)) (seed c)
             (n_features c) (class_sep c) (n_informative c) (n_clusters_per_class c) w in
  let x0 := float2 (map r.1.1 (nodes G0)) in
  let fimp0 := r.1.2 in
  let sensitive := (randint01 (length x0) (torch_gen r.2)).1 in
  let g1 := (randint01 (length x0) (torch_gen r.2)).2 in
  let shuffle_ind := (randperm (S (shape1 x0)) g1).1 in
  exists x1 s,
    cat_col x0 sensitive = inr x1 /\
    shuffle_ind ≡ₚ seq 0 (S (shape1 x0)) /\
    index_put_cols x1 shuffle_ind x1 = inr (x (gen_graph gen)) /\
    index_put (fimp0 ++ [0%float]) shuffle_ind (fimp0 ++ [0%float])
      = inr (gen_feature_imp_true gen) /\
    index_select_cols (x (gen_graph gen)) shuffle_ind = inr x1 /\
    index_select (gen_feature_imp_true gen) shuffle_ind = inr (fimp0 ++ [0%float]) /\
    gen_sensitive_feature gen = Some s /\
    last shuffle_ind = Some s /\
    column (x (gen_graph gen)) s = inr sensitive /\
    gen_feature_imp_true gen !! s = Some 0%float.
Proof.
  intros Hgen Hadd r x0 fimp0 sensitive g1 shuffle_ind.
  unfold ShapeGraph.generate_shape_graph in Hgen. fold r in Hgen.
  destruct r as [[gen_features fimp] w1] eqn:Hr. simpl in x0, fimp0, sensitive, g1.
  destruct (stack (map gen_features (nodes G0))) as [e|x0'] eqn:Hstack; [by inversion Hgen|].
  apply TorchFacts.stack_inr in Hstack as (-> & Hne & Hrect).
  apply TorchFacts.float2_nil_inv in Hne. apply TorchFacts.rectangular_float2 in Hrect.
  rewrite <- TorchFacts.shape1_float2 in Hrect.
  cbv zeta in Hgen. fold x0 in Hgen, Hne, Hrect.
  rewrite Hadd in Hgen.
  destruct (sensitive_step true x0 fimp (torch_gen w1)) as [[e|[[x2 fimp2] sens]] g] eqn:Hstep;
    [by inversion Hgen|].
  pose proof (ShuffleFacts.sensitive_step_inr_length _ _ _ _ _ _ Hstep Hne Hrect) as Hlen.
  destruct (ShuffleFacts.sensitive_step_shuffle_roundtrip x0 fimp (shape1 x0) (torch_gen w1)
              Hne Hrect Hlen)
    as (x1 & x' & fimp' & s & Hcat & Hstep' & Hperm & Hput & Hfput & Hsel & Hfsel
        & Hlast & Hcol & Hzero).
  rewrite Hstep in Hstep'. inversion Hstep'; subst x2 fimp2 sens g.
  assert (Hx : x (gen_graph gen) = x' /\ gen_feature_imp_true gen = fimp'
               /\ gen_sensitive_feature gen = Some s).
  { cbn in Hgen. destruct (edge_index_of _) as [e|ei]; cbn in Hgen; [by inversion Hgen|].
    destruct (make_explanations c); cbn in Hgen.
    - match type of Hgen with context [mapM ?f ?l] => destruct (mapM f l) as [e|exps] end;
        cbn in Hgen; [by inversion Hgen|]. by inversion Hgen.
    - by inversion Hgen. }
  destruct Hx as (-> & -> & ->).
  exists x1, s. by split_and!.
Qed.

(** What a returned constructor call went through. *)
Lemma init_inv (L : nat) (shape : shape_arg) (seed : option Z) (mk : bool) (kw : kwargs)
    (w w' : World TG R NP) (sg : t) :
  init L shape seed mk kw w = (inr sg, w') ->
  exists ins G0 w1 gen w2 r,
    cfg sg = resolve_kwargs L seed mk kw ins /\
    generate_shape_graph (cfg sg) G0 w1 = (inr gen, w2) /\
    G sg = gen_G gen /\ graph sg = gen_graph gen /\
    feature_imp_true sg = gen_feature_imp_true gen /\
    explanations sg = gen_explanations gen /\
    num_nodes sg = length (nodes (G sg)) /\
    make_splits (num_nodes sg)
      = (inr (fixed_train_mask sg, fixed_test_mask sg, fixed_valid_mask sg), r).
Proof.
  unfold ShapeGraph.init.
  destruct (resolve_shape house pentagon shape) as [e|[ins shape']]; [by inversion 1|].
  destruct (build_graph _ _ _ _ shape' w) as [[e|G0] w1]; [by inversion 1|].
  destruct (ShapeGraph.generate_shape_graph _ _ _ _ G0 w1) as [[e|gen] w2] eqn:Hgen;
    [by inversion 1|].
  destruct (make_splits _) as [[e|[[train test] valid]] r] eqn:Hs; [by inversion 1|].
  intros Heq. inversion Heq; subst sg w'. simpl.
  exists ins, G0, w1, gen, w2, r. by split_and!.
Qed.

(** C1: in a dataset constructed with [make_explanations] enabled there is
    one ground-truth explanation per node, in node order; the explanation
    of node [n] carries the [model_layers]-hop subgraph [khop_info] that
    [k_hop_subgraph] extracts around [n], its [node_imp] has as many entries
    as that subgraph has nodes and its [edge_imp] as many as it has edges. *)
Theorem init_explanations_lengths (L : nat) (shape : shape_arg) (seed : option Z)
    (kw : kwargs) (w w' : World TG R NP) (sg : t) :
  init L shape seed true kw w = (inr sg, w') ->
  exists exps, explanations sg = Some exps /\
    length exps = length (nodes (G sg)) /\
    forall i n, nodes (G sg) !! i = Some n ->
      exists exp khop_info,
        exps !! i = Some exp /\
        explanation_generator khop_subgraph_nx (G sg) L (graph sg)
          (feature_imp_true sg) n = inr exp /\
        PyG.k_hop_subgraph n L (PyG.to_undirected (edge_index (graph sg))) false None
          = inr khop_info /\
        enc_subgraph exp = Some khop_info /\
        length (node_imp exp) = length (PyG.subset khop_info) /\
        length (edge_imp exp) = length (PyG.sub_edge_index khop_info).
Proof.
  intros Hinit.
  apply init_inv in Hinit as (ins & G0 & w1 & gen & w2 & r & Hc & Hgen & HG & Hgr & Hf & He & _).
  apply generate_shape_graph_inv in Hgen as (_ & Hexp & _).
  rewrite Hc in Hexp. simpl in Hexp.
  destruct (Hexp eq_refl) as (exps & Hexps & Hm).
  rewrite <- HG, <- Hgr, <- Hf in Hm.
  exists exps. split_and!; [congruence | by eapply mapM_result_length |].
  intros i n Hn.
  destruct (mapM_result_lookup _ _ _ i n Hm Hn) as (exp & Hi & Hgen).
  destruct (ExplanationFacts.explanation_generator_lengths _ _ _ _ _ _ _ Hgen)
    as (khop_info & Hk & Henc & _ & Hnl & Hel).
  exists exp, khop_info. by split_and!.
Qed.

(** The masks of a constructed dataset. *)
Lemma init_mask_sizes (L : nat) (shape : shape_arg) (seed : option Z) (mk : bool)
    (kw : kwargs) (w w' : World TG R NP) (sg : t) :
  init L shape seed mk kw w = (inr sg, w') ->
  let n := length (nodes (G sg)) in
  exists k_train k_test k_valid,
    Py.int_mul n Py.f_0_7 = inr k_train /\
    Py.int_mul n Py.f_0_25 = inr k_test /\
    Py.int_mul n Py.f_0_05 = inr k_valid /\
    length (fixed_train_mask sg) = n /\
    length (fixed_test_mask sg) = n /\
    length (fixed_valid_mask sg) = n /\
    Z.of_nat (mask_sum (fixed_train_mask sg)) = k_train /\
    Z.of_nat (mask_sum (fixed_test_mask sg)) = k_test /\
    Z.of_nat (mask_sum (fixed_valid_mask sg)) = k_valid.
Proof.
  intros Hinit n.
  apply init_inv in Hinit as (ins & G0 & w1 & gen & w2 & r & _ & _ & _ & _ & _ & _ & Hn & Hs).
  rewrite Hn in Hs. fold n in Hs.
  by apply SplitFacts.make_splits_sizes in Hs.
Qed.

End Init.

End InitFacts.

(** ** Claims about the dataset as a whole *)

Module DatasetFacts.

Import Torch ShapeGraph.

(** C7 as the code has it: in every constructed dataset with [n] nodes the
    fixed train, test and valid masks have [n] entries each and exactly
    [int(n * 0.7)], [int(n * 0.25)] and [int(n * 0.05)] true ones, the
    products taken in binary64 and truncated; the three samples are drawn
    one after the other from the whole node range, and a node can be in more
    than one mask (second part: a run in which node 5 is in the train and
    in the test mask). *)
Theorem fixed_masks_sizes :
  (forall (TG R NP : Type) (gen : Generator TG) (rnd : Py.Random R)
          (khop_subgraph_nx : nat -> nat -> Graph -> list nat)
          (BBG_old BBG_PA : bbg_args -> World TG R NP -> Graph * World TG R NP)
          (verify_motifs : Graph -> option Graph -> bool)
          (bound_graph_label : Graph -> nat -> Z)
          (gaussian_lv_generator :
             Graph -> list Z -> option Z -> Z -> float -> Z -> Z ->
             World TG R NP -> ((nat -> list float) * list float) * World TG R NP)
          (house pentagon : Graph)
          (L : nat) (shape : shape_arg) (seed : option Z) (mk : bool) (kw : kwargs)
          (w w' : World TG R NP) (sg : t),
     init khop_subgraph_nx BBG_old BBG_PA verify_motifs bound_graph_label
          gaussian_lv_generator house pentagon L shape seed mk kw w = (inr sg, w') ->
     let n := length (nodes (G sg)) in
     exists k_train k_test k_valid,
       Py.int_mul n Py.f_0_7 = inr k_train /\
       Py.int_mul n Py.f_0_25 = inr k_test /\
       Py.int_mul n Py.f_0_05 = inr k_valid /\
       length (fixed_train_mask sg) = n /\
       length (fixed_test_mask sg) = n /\
       length (fixed_valid_mask sg) = n /\
       Z.of_nat (mask_sum (fixed_train_mask sg)) = k_train /\
       Z.of_nat (mask_sum (fixed_test_mask sg)) = k_test /\
       Z.of_nat (mask_sum (fixed_valid_mask sg)) = k_valid) /\
  (exists sg w', Scenario.construct (Some 1234) Scenario.w0 = (inr sg, w') /\
     fixed_train_mask sg !! 5%nat = Some true /\
     fixed_test_mask sg !! 5%nat = Some true).
Proof.
  split.
  - intros. by eapply InitFacts.init_mask_sizes.
  - apply (run_match_inv (Scenario.construct (Some 1234) Scenario.w0)
             (fun sg _ => fixed_train_mask sg !! 5%nat = Some true /\
                          fixed_test_mask sg !! 5%nat = Some true)).
    vm_compute. by split.
Qed.

(** C7, the claim as stated fails for a dataset of 90 nodes: its train mask
    has 62 true entries, while the floor of 0.7 * 90 = 63 is 63.  The float
    0.7 is 0x1.6666666666666p-1, a little below 7/10; 90 times it lies below
    63 and rounds to the binary64 value 63 - 2^-47, which [int] truncates
    to 62. *)
Lemma train_mask_of_90_nodes :
  exists sg w', Scenario.construct_90 = (inr sg, w') /\
    length (nodes (G sg)) = 90%nat /\
    Z.of_nat (mask_sum (fixed_train_mask sg)) = 62 /\
    (7 * 90) / 10 = 63.
Proof.
  apply (run_match_inv Scenario.construct_90
           (fun sg _ => length (nodes (G sg)) = 90%nat /\
                        Z.of_nat (mask_sum (fixed_train_mask sg)) = 62 /\
                        (7 * 90) / 10 = 63)).
  vm_compute. by split_and!.
Qed.

(** C6, evaluated: two constructions with the same seed and parameters,
    one after the other.  The host graph and the labels agree, but the
    second construction starts from the torch generator state the first
    one left, so the sensitive column lands elsewhere and the feature
    matrix and [feature_imp_true] differ. *)
Theorem construct_twice_differs :
  exists sg1 w1 sg2 w2,
    Scenario.construct (Some 1234) Scenario.w0 = (inr sg1, w1) /\
    Scenario.construct (Some 1234) w1 = (inr sg2, w2) /\
    G sg1 = G sg2 /\ y (graph sg1) = y (graph sg2) /\
    edge_index (graph sg1) = edge_index (graph sg2) /\
    sensitive_feature sg1 = Some 1%nat /\
    sensitive_feature sg2 = Some 0%nat /\
    feature_imp_true sg1 <> feature_imp_true sg2 /\
    x (graph sg1) <> x (graph sg2).
Proof.
  destruct (run_match_inv (Scenario.construct (Some 1234) Scenario.w0)
    (fun sg1 w1 =>
       match Scenario.construct (Some 1234) w1 with
       | (inr sg2, _) =>
           G sg1 = G sg2 /\ y (graph sg1) = y (graph sg2) /\
           edge_index (graph sg1) = edge_index (graph sg2) /\
           sensitive_feature sg1 = Some 1%nat /\
           sensitive_feature sg2 = Some 0%nat /\
           feature_imp_true sg1 <> feature_imp_true sg2 /\
           x (graph sg1) <> x (graph sg2)
       | (inl _, _) => False
       end)) as (sg1 & w1 & Hrun1 & Hsnd).
  { vm_compute. split_and!; try reflexivity.
    - intros Heq. apply (f_equal (fun l => l !! 0%nat)) in Heq. simpl in Heq.
      discriminate Heq.
    - intros Heq. apply (f_equal (fun l => l !! 0%nat ≫= (fun r => r !! 1%nat))) in Heq.
      simpl in Heq. discriminate Heq. }
  apply run_match_inv in Hsnd as (sg2 & w2 & Hrun2 & Hrest).
  exists sg1, w1, sg2, w2. split; [exact Hrun1|]. split; [exact Hrun2 | exact Hrest].
Qed.

(** C2, the claim as stated fails on a graph of two separate edges: the
    one-hop subgraph of node 0 has the 2 directed edges between 0 and 1,
    while the returned [edge_imp] has 4 entries, one per column of the
    whole [edge_index]. *)
Lemma random_edge_imp_not_khop_sized :
  exists exp khop_info g',
    Scenario.explain_node_0 = (inr (exp, khop_info), g') /\
    length (PyG.sub_edge_index khop_info) = 2%nat /\
    Exp.tensor_len exp "edge_imp" = Some 4%nat /\
    Exp.tensor_len exp "edge_imp" <> Some (length (PyG.sub_edge_index khop_info)).
Proof.
  destruct (run_match_inv Scenario.explain_node_0
    (fun r _ => length (PyG.sub_edge_index r.2) = 2%nat /\
                Exp.tensor_len r.1 "edge_imp" = Some 4%nat /\
                Exp.tensor_len r.1 "edge_imp" <> Some (length (PyG.sub_edge_index r.2))))
    as ([exp khop_info] & g' & Hrun & Hrest).
  { vm_compute. by split_and!. }
  exists exp, khop_info, g'. split; [exact Hrun | exact Hrest].
Qed.


End DatasetFacts.

(** ** Instances of the theorems on concrete inputs *)

Module Witnesses.

Import RefFacts.

(** A 2 x 2 feature matrix, its importance vector and a generator tape. *)
Definition x22 : list (list float) := [[2%float; 3%float]; [5%float; 7%float]].
Definition fimp2 : list float := [1%float; 1%float].
Definition tape0 : list nat := [1; 0; 0; 1; 1; 4; 2; 7]%nat.

Lemma sensitive_step_shuffle_roundtrip_witness :
  exists x' fimp' s g',
    ShapeGraph.sensitive_step true x22 fimp2 tape0 = (inr (x', fimp', Some s), g') /\
    Torch.index_select fimp' (Torch.randperm 3 (Torch.randint01 2 tape0).2).1
      = inr (fimp2 ++ [0%float]).
Proof.
  destruct (ShuffleFacts.sensitive_step_shuffle_roundtrip x22 fimp2 2 tape0)
    as (x1 & x' & fimp' & s & _ & Hstep & _ & _ & _ & _ & Hsel & _).
  - done.
  - repeat constructor.
  - reflexivity.
  - exists x', fimp', s. eexists. split; [exact Hstep | exact Hsel].
Defined.

(** C1 on a construction that is rejected once and then accepted. *)
Lemma init_explanations_lengths_witness :
  exists sg w' exps,
    Scenario.construct None Scenario.w0 = (inr sg, w') /\
    ShapeGraph.explanations sg = Some exps /\
    length exps = length (ShapeGraph.nodes (ShapeGraph.G sg)).
Proof.
  destruct (run_inr_inv (Scenario.construct None Scenario.w0)) as (sg & w' & Hrun);
    [vm_compute; reflexivity|].
  destruct (InitFacts.init_explanations_lengths Ref.khop_subgraph_nx Ref.BBG Ref.BBG
              Ref.verify_motifs Ref.bound_graph_label Ref.gaussian_lv_generator
              Ref.house Ref.pentagon 3 (ShapeGraph.ShapeName "House") None Ref.no_kwargs
              Scenario.w0 w' sg Hrun)
    as (exps & Hexps & Hlen & _).
  exists sg, w', exps. split; [exact Hrun|]. split; [exact Hexps | exact Hlen].
Defined.

(** C3: without a seed the first graph is rejected and the second accepted;
    the loop returns the second graph after two builds. *)
Lemma build_graph_retry_witness :
  exists g,
    ShapeGraph.attempt Ref.BBG Ref.BBG Scenario.cfg_house 1 Scenario.w0 = Some g /\
    ShapeGraph.build_graph Ref.BBG Ref.BBG Ref.verify_motifs Scenario.cfg_house
      (ShapeGraph.ShapeName "house") Scenario.w0
    = (inr g, ShapeGraph.world_before Ref.BBG Ref.BBG Scenario.cfg_house 2 Scenario.w0).
Proof.
  destruct (RetryFacts.build_graph_retry Ref.BBG Ref.BBG Ref.verify_motifs
              Scenario.cfg_house (ShapeGraph.ShapeName "house") Scenario.w0)
    as (_ & Hacc & _); [reflexivity | reflexivity |].
  apply (Hacc 1%nat).
  - vm_compute. lia.
  - vm_compute. reflexivity.
  - intros [|j] Hj; [vm_compute; reflexivity | lia].
Defined.

(** C8 on the path 0 - ... - 5 with motif {3, 4}: the explanation of node 2
    marks the edge (2, 3), which touches node 2 and has one tagged end. *)
Lemma explanation_generator_edge_imp_witness :
  exists exp khop_info,
    Scenario.explain_2 = inr exp /\
    ShapeGraph.enc_subgraph exp = Some khop_info /\
    PyG.sub_edge_index khop_info !! 4%nat = Some (2, 3)%nat /\
    ShapeGraph.edge_imp exp !! 4%nat = Some 1%float.
Proof.
  destruct (result_inr_inv Scenario.explain_2) as (exp & Hrun); [vm_compute; reflexivity|].
  pose proof Hrun as Hval. vm_compute in Hval. inversion Hval as [Hexp]. clear Hval.
  set (khop_info := {| PyG.subset := [0; 1; 2; 3; 4]%nat;
                       PyG.sub_edge_index :=
                         [(0, 1); (1, 0); (1, 2); (2, 1); (2, 3); (3, 2); (3, 4); (4, 3)]%nat;
                       PyG.mapping := 2%nat;
                       PyG.edge_mask := [true; true; true; true; true; true; true; true;
                                         false; false] |}).
  assert (Henc : ShapeGraph.enc_subgraph exp = Some khop_info)
    by (rewrite <- Hexp; reflexivity).
  exists exp, khop_info. split; [exact Hrun|]. split; [exact Henc|]. split; [reflexivity|].
  apply (ExplanationFacts.explanation_generator_edge_imp _ _ _ _ _ _ _ _ Hrun Henc
           4%nat 2%nat 3%nat eq_refl).
  right. rewrite <- Hexp. simpl. split_and!.
  - by left.
  - right. split.
    + intros (j & Hj & Hn). do 5 (destruct j as [|j]; [by inversion Hj|]). done.
    + by exists 3%nat.
  - intros (j & Hj & Hn). do 5 (destruct j as [|j]; [by inversion Hj|]). done.
Defined.

(** C2 and C10 on the graph of two separate edges. *)
Lemma random_get_explanation_node_shapes_witness :
  exists exp khop_info g',
    Scenario.explain_node_0 = (inr (exp, khop_info), g') /\
    Exp.tensor_len exp "feature_imp" = Some 2%nat /\
    Exp.tensor_len exp "edge_imp" = Some 4%nat.
Proof.
  destruct (run_inr_inv Scenario.explain_node_0) as ([exp khop_info] & g' & Hrun);
    [vm_compute; reflexivity|].
  destruct (ExplainerFacts.random_get_explanation_node_shapes _ _ _ _ _ _ _ _ _ _ Hrun)
    as (x0 & Hx & Hf & He & _).
  exists exp, khop_info, g'. split; [exact Hrun|].
  assert (Hx0 : x0 = [1%float; 2%float]) by (by inversion Hx).
  rewrite Hx0 in Hf. split; [exact Hf | exact He].
Defined.

Lemma random_node_imp_none_witness :
  exists exp khop_info g',
    Scenario.explain_node_0 = (inr (exp, khop_info), g') /\
    Exp.getitem exp "node_imp" = inr Exp.PyNone.
Proof.
  destruct (run_inr_inv Scenario.explain_node_0) as ([exp khop_info] & g' & Hrun);
    [vm_compute; reflexivity|].
  destruct (ExplainerFacts.random_node_imp_none _ _ _ _ _ _ _ _ _ _ Hrun) as (_ & Hnone).
  exists exp, khop_info, g'. split; [exact Hrun|]. apply Hnone.
  unfold Scenario.EXP_TYPES. set_solver.
Defined.

(** C7 on the construction used for C1 above. *)
Lemma fixed_masks_sizes_witness :
  exists sg w' k_train,
    Scenario.construct None Scenario.w0 = (inr sg, w') /\
    Py.int_mul (length (ShapeGraph.nodes (ShapeGraph.G sg))) Py.f_0_7 = inr k_train /\
    Z.of_nat (Torch.mask_sum (ShapeGraph.fixed_train_mask sg)) = k_train.
Proof.
  destruct (run_inr_inv (Scenario.construct None Scenario.w0)) as (sg & w' & Hrun);
    [vm_compute; reflexivity|].
  destruct (proj1 DatasetFacts.fixed_masks_sizes (list nat) nat (list nat)
              RefFacts.tape_generator RefFacts.rot_random Ref.khop_subgraph_nx Ref.BBG
              Ref.BBG Ref.verify_motifs Ref.bound_graph_label Ref.gaussian_lv_generator
              Ref.house Ref.pentagon 3%nat (ShapeGraph.ShapeName "House") None true
              Ref.no_kwargs Scenario.w0 w' sg Hrun)
    as (k1 & k2 & k3 & H1 & _ & _ & _ & _ & _ & Hs & _).
  exists sg, w', k1. split; [exact Hrun|]. split; [exact H1 | exact Hs].
Defined.


(** C5 on a path of four nodes: the importance at the stored index is 0. *)
Lemma generate_shape_graph_shuffle_witness :
  exists gen w' s,
    Scenario.generate_4 = (inr gen, w') /\
    ShapeGraph.gen_sensitive_feature gen = Some s /\
    ShapeGraph.gen_feature_imp_true gen !! s = Some 0%float.
Proof.
  destruct (run_inr_inv Scenario.generate_4) as (gen & w' & Hrun); [vm_compute; reflexivity|].
  destruct (InitFacts.generate_shape_graph_shuffle Ref.khop_subgraph_nx Ref.bound_graph_label
              Ref.gaussian_lv_generator Scenario.cfg_house (Ref.path_graph 4 [1; 2]%nat)
              Scenario.w0 w' gen Hrun eq_refl)
    as (x1 & s & _ & _ & _ & _ & _ & _ & Hs & _ & _ & Hzero).
  exists gen, w', s. split; [exact Hrun|]. split; [exact Hs | exact Hzero].
Defined.

End Witnesses.

(** * Further properties of the sources *)

(** ** The error monad, continued *)

Lemma mapM_result_Forall2 {A B : Type} (f : A -> result B) (l : list A) (l' : list B) :
  mapM f l = inr l' -> Forall2 (fun a b => f a = inr b) l l'.
Proof.
  revert l'. induction l as [|a l IH]; intros l' Hm; simpl in Hm.
  - inversion Hm. constructor.
  - apply bind_inr in Hm as (b & Hb & Hm).
    apply bind_inr in Hm as (k & Hk & Hm).
    inversion Hm; subst. constructor; [done | by apply IH].
Qed.

Lemma mapM_result_inl {A B : Type} (f : A -> result B) (l : list A) (a : A) (e : exn) :
  a ∈ l -> f a = inl e -> (forall a' e', f a' = inl e' -> e' = e) ->
  mapM f l = inl e.
Proof.
  intros Ha Hfa Hone. induction l as [|a0 l IH]; [by apply elem_of_nil in Ha|].
  simpl. destruct (f a0) as [e0|b0] eqn:H0.
  - cbn. f_equal. by eapply Hone.
  - cbn. apply elem_of_cons in Ha as [->|Ha]; [congruence|].
    rewrite (IH Ha). done.
Qed.

Lemma bind_inl {A B : Type} (m : result A) (f : A -> result B) (e : exn) :
  m ≫= f = inl e -> m = inl e \/ exists a, m = inr a /\ f a = inl e.
Proof. destruct m as [e'|a]; cbn; [intros Heq; left; by inversion Heq | eauto]. Qed.

Lemma mapM_result_inl_inv {A B : Type} (f : A -> result B) (l : list A) (e : exn) :
  mapM f l = inl e -> exists a, a ∈ l /\ f a = inl e.
Proof.
  induction l as [|a l IH]; intros Hm; simpl in Hm; [done|].
  apply bind_inl in Hm as [Hm|(b & Hb & Hm)].
  - exists a. split; [by left | done].
  - apply bind_inl in Hm as [Hm|(k & Hk & Hm)]; [|done].
    destruct (IH Hm) as (a' & Ha' & Hf). exists a'. split; [by right | done].
Qed.

(** ** ShapeGraph: more on the ground-truth explanations *)

Module ExplanationMore.

Import Torch ShapeGraph.

(** A key of the comprehension's dict is one of the keys iterated over,
    with the value the body gives it. *)
Lemma dict_of_inv {V : Type} (f : nat -> result V) (keys : list nat) :
  forall (m m' : gmap nat V),
  dict_of f keys m = inr m' ->
  forall i v, m' !! i = Some v -> (i ∈ keys /\ f i = inr v) \/ m !! i = Some v.
Proof.
  induction keys as [|k keys IH]; intros m m' Hd i v Hi; simpl in Hd.
  - inversion Hd; subst. by right.
  - apply bind_inr in Hd as (u & Hu & Hd).
    destruct (IH _ _ Hd i v Hi) as [[Hin Hf]|Hm].
    + left. split; [by right | done].
    + destruct (decide (k = i)) as [->|Hne].
      * rewrite lookup_insert_eq in Hm. inversion Hm; subst. left. split; [by left | done].
      * rewrite lookup_insert_ne in Hm by done. by right.
Qed.

Lemma dict_of_inl {V : Type} (f : nat -> result V) (keys : list nat) (i : nat) (e : exn) :
  i ∈ keys -> f i = inl e -> (forall j e', f j = inl e' -> e' = e) ->
  forall m, dict_of f keys m = inl e.
Proof.
  intros Hi Hf Hone. induction keys as [|k keys IH]; intros m; [by apply elem_of_nil in Hi|].
  simpl. destruct (f k) as [e0|v] eqn:Hk.
  - cbn. f_equal. by eapply Hone.
  - cbn. apply elem_of_cons in Hi as [->|Hi]; [congruence|]. by apply IH.
Qed.

Section Generator.
Variable khop_subgraph_nx : nat -> nat -> Graph -> list nat.

(** The shape tags of motifs met within one hop of [n]: the set
    [original_in_num_hop] of line 266. *)
Definition motif_within_hop (G : Graph) (n : nat) (s : Z) : Prop :=
  s <> 0 /\ exists u, u ∈ khop_subgraph_nx n 1 G /\ node_shape G !! u = Some s.

Lemma shapes_elem (G : Graph) (l : list nat) (shapes : list Z) (s : Z) :
  mapM (shape_of G) l = inr shapes ->
  s ∈ shapes <-> exists u, u ∈ l /\ node_shape G !! u = Some s.
Proof.
  intros Hm. apply mapM_result_Forall2 in Hm. split.
  - intros Hs. apply list_elem_of_lookup in Hs as [j Hj].
    destruct (Forall2_lookup_r _ _ _ _ _ Hm Hj) as (u & Hu & Hf).
    exists u. split; [by eapply list_elem_of_lookup_2|].
    unfold shape_of in Hf. destruct (node_shape G !! u); by inversion Hf.
  - intros (u & Hu & Hs). apply list_elem_of_lookup in Hu as [j Hj].
    destruct (Forall2_lookup_l _ _ _ _ _ Hm Hj) as (s' & Hs' & Hf).
    unfold shape_of in Hf. rewrite Hs in Hf. inversion Hf; subst.
    by eapply list_elem_of_lookup_2.
Qed.

(** Everything a returned explanation is made of. *)
Lemma explanation_generator_parts (G : Graph) (L : nat) (graph : Data) (fimp : list float)
    (n : nat) (exp : Explanation) :
  explanation_generator khop_subgraph_nx G L graph fimp n = inr exp ->
  exists khop_info node_imp_b,
    (forall u, u ∈ khop_subgraph_nx n 1 G -> is_Some (node_shape G !! u)) /\
    (forall u, u ∈ khop_subgraph_nx n L G -> is_Some (node_shape G !! u)) /\
    PyG.k_hop_subgraph n L (PyG.to_undirected (edge_index graph)) false None = inr khop_info /\
    Forall2 (fun v b => v ∈ khop_subgraph_nx n L G /\
                        exists s, node_shape G !! v = Some s /\
                                  (b = true <-> motif_within_hop G n s))
            (PyG.subset khop_info) node_imp_b /\
    exp = {| feature_imp := fimp;
             node_imp := map double_of_bool node_imp_b;
             edge_imp := map (fun e => double_of_bool
                                (edge_important (masked_select (PyG.subset khop_info) node_imp_b)
                                   n e))
                           (PyG.sub_edge_index khop_info);
             node_idx := n;
             enc_subgraph := Some khop_info |}.
Proof.
  unfold explanation_generator. intros Hgen.
  apply bind_inr in Hgen as (shapes & Hshapes & Hgen).
  apply bind_inr in Hgen as (node_imp_map & Hdict & Hgen).
  apply bind_inr in Hgen as (khop_info & Hkhop & Hgen).
  apply bind_inr in Hgen as (node_imp_b & Hmap & Hgen).
  exists khop_info, node_imp_b. split_and!.
  - intros u Hu. apply mapM_result_Forall2 in Hshapes.
    apply list_elem_of_lookup in Hu as [j Hj].
    destruct (Forall2_lookup_l _ _ _ _ _ Hshapes Hj) as (s & _ & Hf).
    unfold shape_of in Hf. destruct (node_shape G !! u); [by eexists | done].
  - intros u Hu. destruct (decide (is_Some (node_shape G !! u))) as [|Hn]; [done|].
    exfalso. apply eq_None_not_Some in Hn.
    rewrite (dict_of_inl _ _ u KeyError Hu) in Hdict; [done | |].
    + unfold shape_of. by rewrite Hn.
    + intros j e'. unfold shape_of. destruct (node_shape G !! j); cbn;
        intros Heq; by inversion Heq.
  - done.
  - apply mapM_result_Forall2 in Hmap.
    eapply Forall2_impl; [exact Hmap|]. intros v b Hb. cbn in Hb.
    destruct (node_imp_map !! v) as [b'|] eqn:Hv; [|done]. inversion Hb; subst b'.
    destruct (dict_of_inv _ _ _ _ Hdict v b Hv) as [[Hin Hf]|He];
      [|by rewrite lookup_empty in He].
    split; [done|]. unfold shape_of in Hf.
    destruct (node_shape G !! v) as [s|]; [|done]. cbn in Hf. inversion Hf as [Hbs].
    exists s. split; [done|]. rewrite bool_decide_eq_true.
    rewrite elem_of_list_to_set, list_elem_of_filter.
    unfold motif_within_hop. by rewrite (shapes_elem _ _ _ _ Hshapes).
  - rewrite ExplanationFacts.node_imp_bool in Hgen.
    rewrite ExplanationFacts.edge_imp_loop_map in Hgen. by inversion Hgen.
Qed.

(** X1: in a returned explanation the entry of [node_imp] for a node of
    the k-hop subset is 1 exactly when the node's shape tag is nonzero and
    is the tag of some node within one hop of [node_idx]; otherwise it is 0.
    Every node of the subset carries a shape tag. *)
Theorem explanation_generator_node_imp (G : Graph) (L : nat) (graph : Data)
    (fimp : list float) (n : nat) (exp : Explanation) (khop_info : PyG.khop_info) :
  explanation_generator khop_subgraph_nx G L graph fimp n = inr exp ->
  enc_subgraph exp = Some khop_info ->
  forall j v, PyG.subset khop_info !! j = Some v ->
    exists s, node_shape G !! v = Some s /\
      (node_imp exp !! j = Some 1%float <-> motif_within_hop G n s) /\
      (node_imp exp !! j = Some 0%float <-> ~ motif_within_hop G n s).
Proof.
  intros Hgen Henc j v Hj.
  apply explanation_generator_parts in Hgen as (k & bs & _ & _ & _ & Hall & ->).
  simpl in Henc. inversion Henc; subst k. simpl.
  destruct (Forall2_lookup_l _ _ _ _ _ Hall Hj) as (b & Hb & _ & s & Hs & Hiff).
  exists s. split; [done|]. rewrite list_lookup_fmap, Hb. simpl. split.
  - rewrite <- Hiff. split.
    + intros Heq. inversion Heq as [Heq']. by apply ExplanationFacts.double_of_bool_one.
    + by intros ->.
  - rewrite <- Hiff. split.
    + intros Heq. inversion Heq as [Heq'].
      apply ExplanationFacts.double_of_bool_zero in Heq'. by rewrite Heq'.
    + intros Hn. by destruct b.
Qed.

Lemma masked_select_all_false {A : Type} (t : list A) (mask : list bool) :
  Forall (fun b => b = false) mask -> masked_select t mask = [].
Proof.
  intros Hall. revert t. induction Hall as [|b mask -> _ IH]; intros [|a t]; simpl; auto.
Qed.

(** X2: where no node within one hop of [node_idx] carries a nonzero
    shape tag, a returned explanation is empty: all of [node_imp] and all
    of [edge_imp] are 0. *)
Theorem explanation_generator_no_motif (G : Graph) (L : nat) (graph : Data)
    (fimp : list float) (n : nat) (exp : Explanation) :
  explanation_generator khop_subgraph_nx G L graph fimp n = inr exp ->
  (forall u s, u ∈ khop_subgraph_nx n 1 G -> node_shape G !! u = Some s -> s = 0) ->
  node_imp exp = replicate (length (node_imp exp)) 0%float /\
  edge_imp exp = replicate (length (edge_imp exp)) 0%float.
Proof.
  intros Hgen Hnone.
  apply explanation_generator_parts in Hgen as (k & bs & _ & _ & _ & Hall & ->).
  simpl.
  assert (Hbs : Forall (fun b => b = false) bs).
  { apply Forall_forall. intros b Hb. apply list_elem_of_lookup in Hb as [j Hj].
    destruct (Forall2_lookup_r _ _ _ _ _ Hall Hj) as (v & _ & _ & s & _ & Hiff).
    destruct b; [|done]. destruct (proj1 Hiff eq_refl) as (Hne & u & Hu & Hs).
    by destruct Hne; eapply Hnone. }
  rewrite (masked_select_all_false _ _ Hbs). rewrite !length_map. split.
  - clear -Hbs. induction Hbs as [|b bs -> _ IH]; simpl; [done | by f_equal].
  - generalize (PyG.sub_edge_index k). intros ei.
    induction ei as [|e ei IH]; simpl; [done | by f_equal].
Qed.

Lemma edge_important_sym (in_motif : list nat) (n u v : nat) :
  edge_important in_motif n (u, v) = edge_important in_motif n (v, u).
Proof.
  unfold edge_important. simpl.
  destruct (contains in_motif u), (contains in_motif v), (contains in_motif n),
    (bool_decide (u = n)), (bool_decide (v = n)); reflexivity.
Qed.

(** X3: the importance of an edge does not depend on its direction: the
    two columns (u, v) and (v, u) of the k-hop subgraph get one value. *)
Theorem explanation_generator_edge_imp_sym (G : Graph) (L : nat) (graph : Data)
    (fimp : list float) (n : nat) (exp : Explanation) (khop_info : PyG.khop_info) :
  explanation_generator khop_subgraph_nx G L graph fimp n = inr exp ->
  enc_subgraph exp = Some khop_info ->
  forall i j u v,
    PyG.sub_edge_index khop_info !! i = Some (u, v) ->
    PyG.sub_edge_index khop_info !! j = Some (v, u) ->
    is_Some (edge_imp exp !! i) /\ edge_imp exp !! i = edge_imp exp !! j.
Proof.
  intros Hgen Henc i j u v Hi Hj.
  apply explanation_generator_parts in Hgen as (k & bs & _ & _ & _ & _ & ->).
  simpl in Henc. inversion Henc; subst k. simpl.
  rewrite !list_lookup_fmap, Hi, Hj. simpl. split; [by eexists|].
  by rewrite edge_important_sym.
Qed.

Lemma maybe_num_nodes_bound (ei : PyG.edge_index) :
  Forall (fun e : nat * nat => (e.1 < PyG.maybe_num_nodes ei)%nat /\
                               (e.2 < PyG.maybe_num_nodes ei)%nat) ei.
Proof.
  induction ei as [|e ei IH]; [constructor|].
  simpl. constructor; [lia|].
  eapply Forall_impl; [exact IH|]. simpl. intros e' [? ?]. lia.
Qed.

(** [k_hop_subgraph] without [num_nodes] returns exactly for a node index
    below the largest index of [edge_index] plus one. *)
Lemma k_hop_subgraph_returns_iff (n L : nat) (ei : PyG.edge_index) (relabel : bool) :
  returns (PyG.k_hop_subgraph n L ei relabel None) <-> (n < PyG.maybe_num_nodes ei)%nat.
Proof.
  unfold PyG.k_hop_subgraph, returns. simpl. case_decide as Hd.
  - split; [by intros _; destruct Hd | by intros _; eexists].
  - split; [by intros [? ?]|]. intros Hn. destruct Hd. split; [done|].
    apply maybe_num_nodes_bound.
Qed.

Lemma k_hop_subgraph_subset (n L : nat) (ei : PyG.edge_index) (relabel : bool)
    (num_nodes : option nat) (khop_info : PyG.khop_info) :
  PyG.k_hop_subgraph n L ei relabel num_nodes = inr khop_info ->
  PyG.subset khop_info = PyG.unique (PyG.subsets L ei [n]).
Proof.
  unfold PyG.k_hop_subgraph. case_decide; [|done]. intros Heq. by inversion Heq.
Qed.

(** X4: [explanation_generator] returns exactly when every node that
    networkx finds within one hop and within [model_layers] hops carries a
    ['shape'] attribute, [node_idx] is below the largest node index of the
    edge list plus one, and every node of the k-hop subset taken on
    [edge_index] is among the nodes networkx finds within [model_layers]
    hops.  Otherwise it raises [KeyError] or [IndexError]. *)
Theorem explanation_generator_returns_iff (G : Graph) (L : nat) (graph : Data)
    (fimp : list float) (n : nat) :
  let ei := PyG.to_undirected (edge_index graph) in
  (returns (explanation_generator khop_subgraph_nx G L graph fimp n) <->
   (forall u, u ∈ khop_subgraph_nx n 1 G -> is_Some (node_shape G !! u)) /\
   (forall u, u ∈ khop_subgraph_nx n L G -> is_Some (node_shape G !! u)) /\
   (n < PyG.maybe_num_nodes ei)%nat /\
   (forall v, v ∈ PyG.unique (PyG.subsets L ei [n]) -> v ∈ khop_subgraph_nx n L G)) /\
  (forall e, explanation_generator khop_subgraph_nx G L graph fimp n = inl e ->
             e = KeyError \/ e = IndexError).
Proof.
  intros ei. subst ei. split; [split|].
  - intros [exp Hgen].
    apply explanation_generator_parts in Hgen as (k & bs & H1 & HL & Hk & Hall & _).
    split_and!; [done | done | |].
    + apply (k_hop_subgraph_returns_iff n L _ false). by exists k.
    + intros v Hv. rewrite <- (k_hop_subgraph_subset _ _ _ _ _ _ Hk) in Hv.
      apply list_elem_of_lookup in Hv as [j Hj].
      by destruct (Forall2_lookup_l _ _ _ _ _ Hall Hj) as (b & _ & Hin & _).
  - intros (H1 & HL & Hn & Hcover).
    destruct (proj2 (k_hop_subgraph_returns_iff n L _ false) Hn) as [k Hk].
    eapply ExplanationFacts.explanation_generator_returns; [done | done | exact Hk |].
    intros v Hv. apply Hcover. by rewrite <- (k_hop_subgraph_subset _ _ _ _ _ _ Hk).
  - intros e. unfold explanation_generator.
    intros Hgen.
    assert (Hshape : forall u e', shape_of G u = inl e' -> e' = KeyError).
    { intros u e'. unfold shape_of. destruct (node_shape G !! u); by inversion 1. }
    apply bind_inl in Hgen as [Hgen|(shapes & _ & Hgen)].
    { apply mapM_result_inl_inv in Hgen as (u & _ & Hu). left. by eapply Hshape. }
    apply bind_inl in Hgen as [Hgen|(m & _ & Hgen)].
    { left. revert Hgen. generalize (∅ : gmap nat bool).
      induction (khop_subgraph_nx n L G) as [|a l IH]; intros m0 Hd; [done|].
      simpl in Hd. apply bind_inl in Hd as [Hd|(b & _ & Hd)]; [|by eapply IH].
      apply bind_inl in Hd as [Hd|(z & _ & Hd)]; [by eapply Hshape | done]. }
    apply bind_inl in Hgen as [Hgen|(k & _ & Hgen)].
    { right. unfold PyG.k_hop_subgraph in Hgen. case_decide; [done | by inversion Hgen]. }
    apply bind_inl in Hgen as [Hgen|(bs & _ & Hgen)]; [|done].
    apply mapM_result_inl_inv in Hgen as (v & _ & Hv). left.
    destruct (m !! v); by inversion Hv.
Qed.

End Generator.

End ExplanationMore.

(** ** Explanations on the path 0 - ... - 5 with motif {3, 4} *)

Module ExplanationRuns.

Import Ref.

(** The explanation of node 2 over two hops, as [explanation_generator]
    returns it. *)
Definition khop_2 : PyG.khop_info :=
  {| PyG.subset := [0; 1; 2; 3; 4]%nat;
     PyG.sub_edge_index :=
       [(0, 1); (1, 0); (1, 2); (2, 1); (2, 3); (3, 2); (3, 4); (4, 3)]%nat;
     PyG.mapping := 2%nat;
     PyG.edge_mask := [true; true; true; true; true; true; true; true; false; false] |}.

Definition exp_2 : ShapeGraph.Explanation :=
  {| ShapeGraph.feature_imp := [];
     ShapeGraph.node_imp := [0; 0; 0; 1; 1]%float;
     ShapeGraph.edge_imp := [0; 0; 0; 0; 1; 1; 1; 1]%float;
     ShapeGraph.node_idx := 2%nat;
     ShapeGraph.enc_subgraph := Some khop_2 |}.

(** The explanation of node 0 over one hop: no motif node within one hop. *)
Definition explain_0 : result ShapeGraph.Explanation :=
  ShapeGraph.explanation_generator khop_subgraph_nx Scenario.G6 1 Scenario.graph6 [] 0.

Lemma explain_2_value : Scenario.explain_2 = inr exp_2.
Proof. vm_compute. reflexivity. Qed.

Lemma explanation_generator_node_imp_witness :
  ShapeGraph.node_imp exp_2 !! 3%nat = Some 1%float.
Proof.
  destruct (ExplanationMore.explanation_generator_node_imp khop_subgraph_nx Scenario.G6 2
              Scenario.graph6 [] 2 exp_2 khop_2 explain_2_value eq_refl 3%nat 3%nat eq_refl)
    as (s & Hs & Hone & _).
  apply Hone. vm_compute in Hs. inversion Hs; subst s. split; [done|].
  exists 3%nat. split; [|reflexivity].
  assert (Hnx : khop_subgraph_nx 2 1 Scenario.G6 = [1; 2; 3]%nat) by (vm_compute; reflexivity).
  rewrite Hnx. repeat constructor.
Defined.

Lemma explanation_generator_no_motif_witness :
  exists exp, explain_0 = inr exp /\
    ShapeGraph.edge_imp exp = replicate (length (ShapeGraph.edge_imp exp)) 0%float.
Proof.
  destruct (result_inr_inv explain_0) as (exp & Hrun); [vm_compute; reflexivity|].
  exists exp. split; [exact Hrun|].
  refine (proj2 (ExplanationMore.explanation_generator_no_motif khop_subgraph_nx Scenario.G6 1
                   Scenario.graph6 [] 0 exp Hrun _)).
  intros u s Hu Hs.
  assert (Hnx : khop_subgraph_nx 0 1 Scenario.G6 = [0; 1]%nat) by (vm_compute; reflexivity).
  rewrite Hnx in Hu. apply elem_of_cons in Hu as [->|Hu].
  - vm_compute in Hs. by inversion Hs.
  - apply list_elem_of_singleton in Hu as ->. vm_compute in Hs. by inversion Hs.
Defined.

Lemma explanation_generator_edge_imp_sym_witness :
  ShapeGraph.edge_imp exp_2 !! 4%nat = ShapeGraph.edge_imp exp_2 !! 5%nat.
Proof.
  exact (proj2 (ExplanationMore.explanation_generator_edge_imp_sym khop_subgraph_nx Scenario.G6
                  2 Scenario.graph6 [] 2 exp_2 khop_2 explain_2_value eq_refl
                  4%nat 5%nat 2%nat 3%nat eq_refl eq_refl)).
Defined.

End ExplanationRuns.

(** ** torch_geometric: [to_undirected] and the k-hop subset *)

Module UndirectedFacts.

Import PyG.

#[global] Instance edge_le_trans : Transitive edge_le.
Proof. intros [a1 a2] [b1 b2] [c1 c2]. unfold edge_le. simpl. lia. Qed.

#[global] Instance edge_le_antisymm : AntiSymm (=) edge_le.
Proof.
  intros [a1 a2] [b1 b2]. unfold edge_le. simpl. intros H1 H2.
  f_equal; lia.
Qed.

#[global] Instance edge_le_total : Total edge_le.
Proof. intros [a1 a2] [b1 b2]. unfold edge_le. simpl. lia. Qed.

(** [to_undirected] holds an edge exactly when the input holds it in one
    of the two directions. *)
Lemma elem_of_to_undirected (ei : edge_index) (u v : nat) :
  (u, v) ∈ to_undirected ei <-> (u, v) ∈ ei \/ (v, u) ∈ ei.
Proof.
  unfold to_undirected.
  rewrite merge_sort_Permutation, elem_of_remove_dups, elem_of_app, list_elem_of_fmap.
  split; intros [H|H]; auto.
  - destruct H as ([a b] & Heq & Hin). simpl in Heq. inversion Heq; subst. by right.
  - right. by exists (v, u).
Qed.

Lemma NoDup_to_undirected (ei : edge_index) : NoDup (to_undirected ei).
Proof. unfold to_undirected. rewrite merge_sort_Permutation. apply NoDup_remove_dups. Qed.

Lemma sorted_to_undirected (ei : edge_index) : StronglySorted edge_le (to_undirected ei).
Proof. unfold to_undirected. apply StronglySorted_merge_sort; apply _. Qed.

(** An index that is already undirected and coalesced is left as it is. *)
Lemma to_undirected_idemp (ei : edge_index) :
  to_undirected (to_undirected ei) = to_undirected ei.
Proof.
  apply (StronglySorted_unique edge_le); [apply sorted_to_undirected..|].
  apply NoDup_Permutation; [apply NoDup_to_undirected..|].
  intros [u v]. rewrite !elem_of_to_undirected. tauto.
Qed.

End UndirectedFacts.

(** ** torch: more on indexed assignment *)

Module IndexMore.

Import Torch.

Section Index.
Context {A : Type}.
Implicit Types (t src : list A) (ind : list nat).

Lemma index_put_length ind : forall t src t',
  index_put t ind src = inr t' -> length t' = length t.
Proof.
  induction ind as [|i ind IH]; intros t src t' Hput.
  - destruct src; [|done]. by inversion Hput.
  - destruct src as [|v src]; [done|]. simpl in Hput. case_decide; [|done].
    apply IH in Hput. by rewrite length_insert in Hput.
Qed.

Lemma index_select_Forall2 ind : forall t r,
  index_select t ind = inr r -> Forall2 (fun i v => t !! i = Some v) ind r.
Proof.
  induction ind as [|i ind IH]; intros t r Hsel; simpl in Hsel.
  - inversion Hsel. constructor.
  - apply bind_inr in Hsel as (v & Hv & Hsel).
    apply bind_inr in Hsel as (r' & Hr' & Hsel).
    inversion Hsel; subst. constructor; [|by apply IH].
    destruct (t !! i); by inversion Hv.
Qed.

(** Selecting through a permutation of all positions permutes the tensor. *)
Lemma index_select_Permutation ind t r :
  ind ≡ₚ seq 0 (length t) -> index_select t ind = inr r -> r ≡ₚ t.
Proof.
  intros Hperm Hsel. apply index_select_Forall2 in Hsel.
  destruct (Permutation_Forall2 Hperm Hsel) as (r' & Hr & Hall).
  rewrite Hr. assert (r' = t) as ->; [|done].
  apply list_eq. intros j.
  destruct (decide (j < length t)%nat) as [Hj|Hj].
  - assert (Hs : seq 0 (length t) !! j = Some j) by (by rewrite lookup_seq).
    destruct (Forall2_lookup_l _ _ _ _ _ Hall Hs) as (v & Hv & Ht). by rewrite Hv, Ht.
  - rewrite (lookup_ge_None_2 t j) by lia.
    apply lookup_ge_None_2. rewrite <- (Forall2_length _ _ _ Hall), length_seq. lia.
Qed.

End Index.

End IndexMore.

(** ** ShapeGraph: more on the generated dataset *)

Module GenerateMore.

Import Torch ShapeGraph.

Section Generate.
Context {TG R NP : Type} `{!Generator TG}.
Variable khop_subgraph_nx : nat -> nat -> Graph -> list nat.
Variable bound_graph_label : Graph -> nat -> Z.
Variable gaussian_lv_generator :
  Graph -> list Z -> option Z -> Z -> float -> Z -> Z ->
  World TG R NP -> ((nat -> list float) * list float) * World TG R NP.

Local Abbreviation generate_shape_graph :=
  (ShapeGraph.generate_shape_graph khop_subgraph_nx bound_graph_label
                                   gaussian_lv_generator).

(** The call of [gaussian_lv_generator] in lines 215-221. *)
Definition generated_features (c : config) (G0 : Graph) (w : World TG R NP)
  : ((nat -> list float) * list float) * World TG R NP :=
  gaussian_lv_generator G0 (map (bound_graph_label G0) (nodes G0)) (seed c)
    (n_features c) (class_sep c) (n_informative c) (n_clusters_per_class c) w.

(** What a returned [generate_shape_graph] has computed, step by step. *)
Lemma generate_shape_graph_parts (c : config) (G0 : Graph) (w w' : World TG R NP)
    (gen : generated) :
  generate_shape_graph c G0 w = (inr gen, w') ->
  let r := generated_features c G0 w in
  let x0 := float2 (map r.1.1 (nodes G0)) in
  x0 <> [] /\ rectangular (shape1 x0) x0 /\
  (exists g, sensitive_step (add_sensitive_feature c) x0 r.1.2 (torch_gen r.2)
             = (inr (x (gen_graph gen), gen_feature_imp_true gen,
                     gen_sensitive_feature gen), g)) /\
  edges G0 <> [] /\
  edge_index (gen_graph gen) = PyG.to_undirected (edges G0) /\
  y (gen_graph gen) = map (bound_graph_label G0) (nodes G0) /\
  nodes (gen_G gen) = nodes G0 /\
  node_shape (gen_G gen) = node_shape G0 /\
  edges (gen_G gen) = edges G0 /\
  node_x (gen_G gen) = foldl (fun m i => <[i:=r.1.1 i]> m) (node_x G0) (nodes G0).
Proof.
  intros Hgen r x0. unfold ShapeGraph.generate_shape_graph in Hgen.
  fold (generated_features c G0 w) in Hgen. fold r in Hgen.
  destruct r as [[gen_features fimp] w1] eqn:Hr. simpl in x0.
  destruct (stack (map gen_features (nodes G0))) as [e|x0'] eqn:Hstack; [by inversion Hgen|].
  apply TorchFacts.stack_inr in Hstack as (-> & Hne & Hrect).
  apply TorchFacts.float2_nil_inv in Hne. apply TorchFacts.rectangular_float2 in Hrect.
  rewrite <- TorchFacts.shape1_float2 in Hrect.
  cbv zeta in Hgen. fold x0 in Hgen, Hne, Hrect.
  destruct (sensitive_step _ x0 fimp (torch_gen w1)) as [[e|[[x2 fimp2] sens]] g] eqn:Hstep;
    [by inversion Hgen|].
  cbn in Hgen. unfold edge_index_of in Hgen. simpl in Hgen.
  destruct (edges G0) as [|e0 es] eqn:He; cbn in Hgen; [by inversion Hgen|].
  assert (Hres : gen_graph gen = {| x := x2; y := map (bound_graph_label G0) (nodes G0);
                                    edge_index := PyG.to_undirected (e0 :: es);
                                    shape := omap (fun n => node_shape G0 !! n) (nodes G0) |}
                 /\ gen_feature_imp_true gen = fimp2 /\ gen_sensitive_feature gen = sens
                 /\ gen_G gen = {| nodes := nodes G0; node_shape := node_shape G0;
                                   node_x := foldl (fun m i => <[i:=gen_features i]> m)
                                               (node_x G0) (nodes G0);
                                   edges := e0 :: es |}).
  { destruct (make_explanations c); cbn in Hgen.
    - match type of Hgen with context [mapM ?f ?l] => destruct (mapM f l) as [e|exps] end;
        cbn in Hgen; [by inversion Hgen|]. by inversion Hgen.
    - by inversion Hgen. }
  destruct Hres as (Hg & Hf & Hs & HG). rewrite Hg, Hf, Hs, HG. simpl.
  split_and!; try done. by exists g.
Qed.

(** X5: the [edge_index] of a generated dataset holds every edge of the
    networkx graph in both directions, each column once, and the second
    [to_undirected] that [explanation_generator] applies to it (line 276)
    leaves it as it is. *)
Theorem generate_shape_graph_edge_index (c : config) (G0 : Graph) (w w' : World TG R NP)
    (gen : generated) :
  generate_shape_graph c G0 w = (inr gen, w') ->
  let ei := edge_index (gen_graph gen) in
  (forall u v, (u, v) ∈ ei <-> (u, v) ∈ edges G0 \/ (v, u) ∈ edges G0) /\
  NoDup ei /\
  PyG.to_undirected ei = ei.
Proof.
  intros Hgen ei.
  destruct (generate_shape_graph_parts _ _ _ _ _ Hgen) as (_ & _ & _ & _ & Hei & _).
  subst ei. rewrite Hei. split_and!.
  - intros u v. apply UndirectedFacts.elem_of_to_undirected.
  - apply UndirectedFacts.NoDup_to_undirected.
  - apply UndirectedFacts.to_undirected_idemp.
Qed.

Lemma cat_col_lookup {A : Type} (x : list (list A)) : forall (col : list A) x1,
  cat_col x col = inr x1 ->
  length x1 = length x /\
  forall j row c, x !! j = Some row -> col !! j = Some c -> x1 !! j = Some (row ++ [c]).
Proof.
  induction x as [|r x IH]; intros col x1 Hcat.
  - destruct col; [|done]. inversion Hcat. split; [done|]. by intros j row c Hj.
  - destruct col as [|c0 col]; [done|]. simpl in Hcat.
    apply bind_inr in Hcat as (x1' & Hcat & Hret). inversion Hret; subst x1.
    destruct (IH _ _ Hcat) as (Hlen & Hlook). split; [simpl; by rewrite Hlen|].
    intros [|j] row c Hj Hc; simpl in *; [congruence | eauto].
Qed.

Lemma cat_col_inr_length {A : Type} (x : list (list A)) : forall (col : list A) x1,
  cat_col x col = inr x1 -> length col = length x.
Proof.
  induction x as [|r x IH]; intros col x1 Hcat.
  - by destruct col.
  - destruct col as [|c0 col]; [done|]. simpl in Hcat.
    apply bind_inr in Hcat as (x1' & Hcat & _). simpl. f_equal. by eapply IH.
Qed.

Lemma index_select_cols_Forall2 {A : Type} (ind : list nat) (x : list (list A)) :
  forall x1, index_select_cols x ind = inr x1 ->
  Forall2 (fun row row1 => index_select row ind = inr row1) x x1.
Proof.
  induction x as [|r x IH]; intros x1 Hsel; simpl in Hsel.
  - inversion Hsel. constructor.
  - apply bind_inr in Hsel as (r1 & Hr1 & Hsel).
    apply bind_inr in Hsel as (x1' & Hx1' & Hsel).
    inversion Hsel; subst. constructor; [done | by apply IH].
Qed.

Lemma index_put_cols_rectangular {A : Type} (ind : list nat) (d : nat)
    (x : list (list A)) : forall src x',
  index_put_cols x ind src = inr x' -> rectangular d x -> rectangular d x'.
Proof.
  induction x as [|r x IH]; intros src x' Hput Hrect.
  - destruct src; [|done]. inversion Hput. constructor.
  - destruct src as [|s src]; [done|]. simpl in Hput.
    apply bind_inr in Hput as (r' & Hr' & Hput).
    apply bind_inr in Hput as (x'' & Hx'' & Hput).
    inversion Hput; subst. apply Forall_cons in Hrect as [Hr Hrect].
    constructor; [|by eapply IH].
    apply IndexMore.index_put_length in Hr'. congruence.
Qed.

(** The shuffle of lines 224-241, taken apart. *)
Lemma sensitive_step_parts (x0 : list (list float)) (fimp0 : list float) (g g' : TG)
    (x' : list (list float)) (fimp' : list float) (sens : option nat) :
  sensitive_step true x0 fimp0 g = (inr (x', fimp', sens), g') ->
  x0 <> [] -> rectangular (shape1 x0) x0 ->
  let d := shape1 x0 in
  let bits := (randint01 (length x0) g).1 in
  exists s,
    length fimp0 = d /\ length bits = length x0 /\ length x' = length x0 /\
    rectangular (S d) x' /\ length fimp' = S d /\
    sens = Some s /\ (s < S d)%nat /\
    fimp' ≡ₚ fimp0 ++ [0%float] /\
    (forall j row0 bit, x0 !! j = Some row0 -> bits !! j = Some bit ->
       exists row, x' !! j = Some row /\ row ≡ₚ row0 ++ [bit] /\ row !! s = Some bit).
Proof.
  intros Hstep Hne Hrect d bits.
  pose proof (ShuffleFacts.sensitive_step_inr_length _ _ _ _ _ _ Hstep Hne Hrect) as Hlen.
  destruct (ShuffleFacts.sensitive_step_shuffle_roundtrip x0 fimp0 d g Hne Hrect Hlen)
    as (x1 & x2 & fimp2 & s & Hcat & Hstep' & Hperm & Hput & Hfput & Hsel & Hfsel
        & Hlast & Hcol & Hzero).
  fold bits in Hcat, Hcol.
  rewrite Hstep in Hstep'. inversion Hstep'; subst x2 fimp2 sens.
  destruct (ShuffleFacts.perm_seq_facts _ _ Hperm) as (Hnd & Hlt & Hpl).
  destruct (cat_col_lookup _ _ _ Hcat) as (Hl1 & Hlook).
  pose proof (cat_col_inr_length _ _ _ Hcat) as Hbits.
  assert (Hr1 : rectangular (S d) x1).
  { destruct (ShuffleFacts.cat_col_spec x0 bits d Hbits Hrect) as (x1' & Hcat' & Hr & _).
    rewrite Hcat in Hcat'. by inversion Hcat'; subst. }
  pose proof (index_put_cols_rectangular _ _ _ _ _ Hput Hr1) as Hr'.
  pose proof (IndexMore.index_put_length _ _ _ _ Hfput) as Hfl.
  rewrite length_app in Hfl. simpl in Hfl.
  apply index_select_cols_Forall2 in Hsel.
  assert (Hs : (s < S d)%nat).
  { apply last_Some_elem_of in Hlast.
    eapply Forall_forall in Hlt; [exact Hlt | exact Hlast]. }
  exists s. split_and!; try done.
  - rewrite <- (Forall2_length _ _ _ Hsel) in Hl1. done.
  - lia.
  - symmetry. eapply IndexMore.index_select_Permutation; [|exact Hfsel].
    by rewrite Hfl, Hlen, Nat.add_1_r.
  - intros j row0 bit Hj Hb.
    pose proof (Hlook j row0 bit Hj Hb) as H1.
    destruct (Forall2_lookup_r _ _ _ _ _ Hsel H1) as (row & Hrow & Hrsel).
    exists row. split; [done|].
    assert (Hrl : length row = S d).
    { eapply Forall_forall in Hr'; [exact Hr' | by eapply list_elem_of_lookup_2]. }
    split.
    + symmetry. eapply IndexMore.index_select_Permutation; [|exact Hrsel]. by rewrite Hrl.
    + unfold column in Hcol.
      destruct (mapM_result_lookup _ _ _ j row Hcol Hrow) as (c & Hc & Hrs).
      rewrite Hb in Hc. inversion Hc; subst c.
      destruct (row !! s); by inversion Hrs.
Qed.

(** X6: [generate_shape_graph] returns only for a graph with at least one
    node whose generated feature vectors all have one length [d]; the
    feature matrix then has one row and [y] one label per node.  With
    [add_sensitive_feature] the matrix has [d + 1] columns, the importance
    vector has exactly one weight per column, and [sensitive_feature] is
    the index of a column; without it the matrix is the generated one,
    every entry rounded to single precision by [.float()], and
    [sensitive_feature] is [None]. *)
Theorem generate_shape_graph_shapes (c : config) (G0 : Graph) (w w' : World TG R NP)
    (gen : generated) :
  generate_shape_graph c G0 w = (inr gen, w') ->
  let r := generated_features c G0 w in
  nodes G0 <> [] /\
  length (x (gen_graph gen)) = length (nodes G0) /\
  length (y (gen_graph gen)) = length (nodes G0) /\
  exists d, (forall i, i ∈ nodes G0 -> length (r.1.1 i) = d) /\
    if add_sensitive_feature c
    then rectangular (S d) (x (gen_graph gen)) /\
         length (gen_feature_imp_true gen) = S d /\
         exists s, gen_sensitive_feature gen = Some s /\ (s < S d)%nat
    else x (gen_graph gen) = float2 (map r.1.1 (nodes G0)) /\
         gen_feature_imp_true gen = r.1.2 /\
         gen_sensitive_feature gen = None.
Proof.
  intros Hgen r.
  destruct (generate_shape_graph_parts _ _ _ _ _ Hgen)
    as (Hne & Hrect & (g & Hstep) & _ & _ & Hy & _).
  fold r in Hne, Hrect, Hstep.
  set (x0 := float2 (map r.1.1 (nodes G0))) in *.
  assert (Hnodes : nodes G0 <> []).
  { intros Hn. apply Hne. unfold x0. by rewrite Hn. }
  assert (Hd : forall i, i ∈ nodes G0 -> length (r.1.1 i) = shape1 x0).
  { intros i Hi. rewrite <- (TorchFacts.length_float1 (r.1.1 i)).
    eapply Forall_forall in Hrect; [exact Hrect|].
    unfold x0, float2. apply list_elem_of_fmap. exists (r.1.1 i). split; [done|].
    apply list_elem_of_fmap. by exists i. }
  assert (Hx0 : length x0 = length (nodes G0)).
  { unfold x0. by rewrite TorchFacts.length_float2, length_map. }
  split; [done|]. rewrite Hy, length_map.
  destruct (add_sensitive_feature c) eqn:Hadd.
  - destruct (sensitive_step_parts _ _ _ _ _ _ _ Hstep Hne Hrect)
      as (s & _ & _ & Hxl & Hr' & Hfl & Hs & Hlt & _).
    split_and!; [by rewrite Hxl | done |].
    exists (shape1 x0). split; [done|]. split_and!; [done..|]. by exists s.
  - simpl in Hstep. injection Hstep as Hx Hf Hs Hg.
    split_and!; [by rewrite <- Hx | done |].
    exists (shape1 x0). by split_and!.
Qed.

(** X7: with [add_sensitive_feature] the shuffle loses and invents
    nothing: the row of a node in the feature matrix is a permutation of the
    node's generated features, each rounded to single precision by
    [.float()], and its sensitive bit, which sits at index
    [sensitive_feature], and [feature_imp_true] is a permutation of the
    generated weights and one 0. *)
Theorem generate_shape_graph_permutes (c : config) (G0 : Graph) (w w' : World TG R NP)
    (gen : generated) :
  generate_shape_graph c G0 w = (inr gen, w') ->
  add_sensitive_feature c = true ->
  let r := generated_features c G0 w in
  let bits := (randint01 (length (nodes G0)) (torch_gen r.2)).1 in
  gen_feature_imp_true gen ≡ₚ r.1.2 ++ [0%float] /\
  length bits = length (nodes G0) /\
  exists s, gen_sensitive_feature gen = Some s /\
    forall j i bit, nodes G0 !! j = Some i -> bits !! j = Some bit ->
      exists row, x (gen_graph gen) !! j = Some row /\
        row ≡ₚ float1 (r.1.1 i) ++ [bit] /\ row !! s = Some bit.
Proof.
  intros Hgen Hadd r bits.
  destruct (generate_shape_graph_parts _ _ _ _ _ Hgen)
    as (Hne & Hrect & (g & Hstep) & _).
  fold r in Hne, Hrect, Hstep. rewrite Hadd in Hstep.
  destruct (sensitive_step_parts _ _ _ _ _ _ _ Hstep Hne Hrect)
    as (s & _ & Hbl & _ & _ & _ & Hs & _ & Hfp & Hrows).
  rewrite TorchFacts.length_float2, length_map in Hbl, Hrows. fold bits in Hbl, Hrows.
  split_and!; [done..|]. exists s. split; [done|].
  intros j i bit Hj Hb. apply (Hrows j (float1 (r.1.1 i)) bit); [|done].
  unfold float2. by rewrite !list_lookup_fmap, Hj.
Qed.

Lemma foldl_insert_lookup {V : Type} (f : nat -> V) (l : list nat) (i : nat) :
  forall m : gmap nat V,
  foldl (fun m i => <[i:=f i]> m) m l !! i = if decide (i ∈ l) then Some (f i) else m !! i.
Proof.
  induction l as [|k l IH]; intros m; cbn [foldl].
  - case_decide as Hin; [by apply elem_of_nil in Hin | done].
  - rewrite IH. destruct (decide (i ∈ l)) as [Hin|Hnin].
    + rewrite decide_True; [done | by right].
    + destruct (decide (k = i)) as [->|Hne].
      * rewrite lookup_insert_eq, decide_True; [done | by left].
      * rewrite lookup_insert_ne by done. rewrite decide_False; [done|].
        intros [?|?]%elem_of_cons; congruence.
Qed.

(** X8: after generation the networkx graph has its nodes, ['shape'] tags
    and edges as before, and the ['x'] attribute of every node is the
    node's generated feature vector: the copy in the networkx graph is
    neither shuffled nor extended.  With [add_sensitive_feature] the row of
    the same node in the feature matrix has one entry more. *)
Theorem generate_shape_graph_node_x (c : config) (G0 : Graph) (w w' : World TG R NP)
    (gen : generated) :
  generate_shape_graph c G0 w = (inr gen, w') ->
  let r := generated_features c G0 w in
  nodes (gen_G gen) = nodes G0 /\
  node_shape (gen_G gen) = node_shape G0 /\
  edges (gen_G gen) = edges G0 /\
  (forall i, i ∉ nodes G0 -> node_x (gen_G gen) !! i = node_x G0 !! i) /\
  forall j i, nodes G0 !! j = Some i ->
    node_x (gen_G gen) !! i = Some (r.1.1 i) /\
    exists row, x (gen_graph gen) !! j = Some row /\
      length row = if add_sensitive_feature c then S (length (r.1.1 i))
                   else length (r.1.1 i).
Proof.
  intros Hgen r.
  destruct (generate_shape_graph_parts _ _ _ _ _ Hgen)
    as (Hne & Hrect & (g & Hstep) & _ & _ & _ & Hn & Hsh & He & Hx).
  fold r in Hne, Hrect, Hstep, Hx.
  split_and!; [done..| |].
  - intros i Hi. rewrite Hx, foldl_insert_lookup. by rewrite decide_False.
  - intros j i Hj. split.
    + rewrite Hx, foldl_insert_lookup. rewrite decide_True; [done|].
      by eapply list_elem_of_lookup_2.
    + assert (H0 : float2 (map r.1.1 (nodes G0)) !! j = Some (float1 (r.1.1 i)))
        by (unfold float2; by rewrite !list_lookup_fmap, Hj).
      destruct (add_sensitive_feature c) eqn:Hadd.
      * destruct (sensitive_step_parts _ _ _ _ _ _ _ Hstep Hne Hrect)
          as (s & _ & Hbl & _ & _ & _ & _ & _ & _ & Hrows).
        destruct (lookup_lt_is_Some_2
                    (randint01 (length (float2 (map r.1.1 (nodes G0))))
                       (torch_gen r.2)).1 j) as [bit Hbit].
        { rewrite Hbl. by eapply lookup_lt_Some. }
        destruct (Hrows j _ bit H0 Hbit) as (row & Hrow & Hperm & _).
        exists row. split; [done|].
        rewrite Hperm, length_app, TorchFacts.length_float1. simpl. lia.
      * simpl in Hstep. injection Hstep as Hxe Hf Hs Hg.
        exists (float1 (r.1.1 i)). split; [by rewrite <- Hxe|].
        apply TorchFacts.length_float1.
Qed.

End Generate.

End GenerateMore.

(** ** [generate_shape_graph] on a path of four nodes *)

Module GenerateRuns.

Import Ref RefFacts.

Lemma generate_shape_graph_edge_index_witness :
  exists gen w',
    Scenario.generate_4 = (inr gen, w') /\
    PyG.to_undirected (ShapeGraph.edge_index (ShapeGraph.gen_graph gen))
    = ShapeGraph.edge_index (ShapeGraph.gen_graph gen).
Proof.
  destruct (run_inr_inv Scenario.generate_4) as (gen & w' & Hrun); [vm_compute; reflexivity|].
  destruct (GenerateMore.generate_shape_graph_edge_index khop_subgraph_nx bound_graph_label
              gaussian_lv_generator Scenario.cfg_house (path_graph 4 [1; 2]%nat)
              Scenario.w0 w' gen Hrun) as (_ & _ & Hidem).
  exists gen, w'. split; [exact Hrun | exact Hidem].
Defined.

Lemma generate_shape_graph_shapes_witness :
  exists gen w',
    Scenario.generate_4 = (inr gen, w') /\
    length (ShapeGraph.x (ShapeGraph.gen_graph gen))
    = length (ShapeGraph.nodes (path_graph 4 [1; 2]%nat)).
Proof.
  destruct (run_inr_inv Scenario.generate_4) as (gen & w' & Hrun); [vm_compute; reflexivity|].
  destruct (GenerateMore.generate_shape_graph_shapes khop_subgraph_nx bound_graph_label
              gaussian_lv_generator Scenario.cfg_house (path_graph 4 [1; 2]%nat)
              Scenario.w0 w' gen Hrun) as (_ & Hlen & _).
  exists gen, w'. split; [exact Hrun | exact Hlen].
Defined.

Lemma generate_shape_graph_permutes_witness :
  exists gen w',
    Scenario.generate_4 = (inr gen, w') /\
    ShapeGraph.gen_feature_imp_true gen
    ≡ₚ (GenerateMore.generated_features bound_graph_label gaussian_lv_generator
          Scenario.cfg_house (path_graph 4 [1; 2]%nat) Scenario.w0).1.2 ++ [0%float].
Proof.
  destruct (run_inr_inv Scenario.generate_4) as (gen & w' & Hrun); [vm_compute; reflexivity|].
  destruct (GenerateMore.generate_shape_graph_permutes khop_subgraph_nx bound_graph_label
              gaussian_lv_generator Scenario.cfg_house (path_graph 4 [1; 2]%nat)
              Scenario.w0 w' gen Hrun eq_refl) as (Hperm & _).
  exists gen, w'. split; [exact Hrun | exact Hperm].
Defined.

Lemma generate_shape_graph_node_x_witness :
  exists gen w',
    Scenario.generate_4 = (inr gen, w') /\
    ShapeGraph.node_x (ShapeGraph.gen_G gen) !! 2%nat
    = Some ((GenerateMore.generated_features bound_graph_label gaussian_lv_generator
               Scenario.cfg_house (path_graph 4 [1; 2]%nat) Scenario.w0).1.1 2%nat).
Proof.
  destruct (run_inr_inv Scenario.generate_4) as (gen & w' & Hrun); [vm_compute; reflexivity|].
  destruct (GenerateMore.generate_shape_graph_node_x khop_subgraph_nx bound_graph_label
              gaussian_lv_generator Scenario.cfg_house (path_graph 4 [1; 2]%nat)
              Scenario.w0 w' gen Hrun) as (_ & _ & _ & _ & Hx).
  destruct (Hx 2%nat 2%nat eq_refl) as (Hattr & _).
  exists gen, w'. split; [exact Hrun | exact Hattr].
Defined.

End GenerateRuns.

(** ** graphxai/explainers/random.py: [RandomExplainer.get_explanation_graph] *)

Module RandomGraph.

(** A dict value of a whole-graph explanation: [None], a 1-D or a 2-D tensor. *)
Inductive value : Type :=
  | PyNone
  | Tensor1 (t : list float)
  | Tensor2 (t : list (list float)).

(** [torch.bernoulli(0.5 * torch.ones(n, 1))] on torch's default generator:
    [n] draws, each 0 or 1. *)
Class Bernoulli (TG : Type) : Type := {
  bernoulli_half : nat -> TG -> list float * TG;
  bernoulli_half_length : forall n s, length (bernoulli_half n s).1 = n
}.

(** [t.reshape(-1, d)] of a 1-D tensor of [rows * d] entries. *)
Fixpoint reshape (rows d : nat) (t : list float) : list (list float) :=
  match rows with
  | O => []
  | S rows' => take d t :: reshape rows' d (drop d t)
  end.

(** [torch.randn_like(x)] for a 2-D tensor [x]: one draw per entry. *)
Definition randn_like `{Torch.Generator TG} (x : list (list float)) (g : TG)
  : list (list float) * TG :=
  let '(t, g') := Torch.randn (length x * Torch.shape1 x) g in
  (reshape (length x) (Torch.shape1 x) t, g').

(** [rand_mask * r] for [rand_mask] of shape [n x 1] and [r] of shape
    [rows x d], with torch's broadcasting: the row counts must agree unless
    one of them is 1. *)
Definition mul_broadcast (rand_mask : list float) (r : list (list float))
  : result (list (list float)) :=
  if decide (length rand_mask = length r) then
    inr (zip_with (fun m row => map (PrimFloat.mul m) row) rand_mask r)
  else
    match rand_mask, r with
    | [m], _ => inr (map (fun row => map (PrimFloat.mul m) row) r)
    | _, [row] => inr (map (fun m => map (PrimFloat.mul m) row) rand_mask)
    | _, _ => raise ShapeError
    end.

(** [{k: None for k in EXP_TYPES}]. *)
Definition empty_exp (EXP_TYPES : list string) : gmap string value :=
  foldl (fun m k => <[k:=PyNone]> m) ∅ EXP_TYPES.

(** [get_explanation_graph(self, x, edge_index, num_nodes)], lines 48-72. *)
Definition get_explanation_graph `{Torch.Generator TG} `{!Bernoulli TG}
    (EXP_TYPES : list string) (self : RandomExplainer.t)
    (x : list (list float)) (edge_index : PyG.edge_index) (num_nodes : option nat) (g : TG)
  : result (gmap string value) * TG :=
  let exp := empty_exp EXP_TYPES in
  let n := match num_nodes with
           | None => PyG.maybe_num_nodes edge_index
           | Some n => n
           end in
  let '(rand_mask, g1) := bernoulli_half n g in
  let '(r, g2) := randn_like x g1 in
  match mul_broadcast rand_mask r with
  | inl e => (inl e, g2)
  | inr feature_imp =>
      let exp := <["feature_imp":=Tensor2 feature_imp]> exp in
      let '(e, g3) := Torch.randn (length edge_index) g2 in
      let exp := <["edge_imp":=Tensor1 e]> exp in
      (inr exp, g3)
  end.

End RandomGraph.

(** ** The random explainer: when it returns and what it returns *)

Module RandomMore.

Import Torch.

Lemma length_reshape (rows d : nat) : forall t, length (RandomGraph.reshape rows d t) = rows.
Proof. induction rows as [|rows IH]; intros t; simpl; [done | by rewrite IH]. Qed.

Lemma reshape_rectangular (rows d : nat) : forall t,
  length t = (rows * d)%nat -> rectangular d (RandomGraph.reshape rows d t).
Proof.
  induction rows as [|rows IH]; intros t Hlen; simpl; constructor.
  - rewrite length_take. lia.
  - apply IH. rewrite length_drop. lia.
Qed.

Lemma rectangular_scale_rows (d : nat) (m : float) (r : list (list float)) :
  rectangular d r -> rectangular d (map (fun row => map (PrimFloat.mul m) row) r).
Proof.
  intros Hr. induction Hr as [|row r Hrow _ IH]; simpl; constructor; [|done].
  by rewrite length_map.
Qed.

Lemma rectangular_scale_mask (d : nat) (row : list float) (l : list float) :
  length row = d -> rectangular d (map (fun m => map (PrimFloat.mul m) row) l).
Proof.
  intros Hrow. induction l as [|m l IH]; simpl; constructor; [|done].
  by rewrite length_map.
Qed.

Section Random.
Context `{Generator TG}.

(** X9: the random node explainer returns exactly when [node_idx] is at
    most the largest node index occurring in [edge_index] and [x] has a
    row; otherwise it raises [IndexError], and a call that raises has drawn
    nothing from the generator. *)
Theorem random_get_explanation_node_returns_iff (EXP_TYPES : list string)
    (self : RandomExplainer.t) (node_idx : nat) (x : list (list float))
    (ei : PyG.edge_index) (num_hops : option nat) (g : TG) :
  ((exists r g', RandomExplainer.get_explanation_node EXP_TYPES self node_idx x ei
                   num_hops g = (inr r, g')) <->
   (node_idx < PyG.maybe_num_nodes ei)%nat /\ x <> []) /\
  (forall e g', RandomExplainer.get_explanation_node EXP_TYPES self node_idx x ei
                  num_hops g = (inl e, g') -> e = IndexError /\ g' = g).
Proof.
  unfold RandomExplainer.get_explanation_node.
  pose proof (ExplanationMore.k_hop_subgraph_returns_iff node_idx
                (default (RandomExplainer.L self) num_hops) ei false) as Hk.
  destruct (PyG.k_hop_subgraph _ _ _ _ _) as [e0|k] eqn:Hkhop.
  - assert (He0 : e0 = IndexError).
    { unfold PyG.k_hop_subgraph in Hkhop. case_decide; [done | by inversion Hkhop]. }
    split.
    + split; [by intros (r & g' & Heq)|]. intros [Hn _].
      apply Hk in Hn as [k Hk']. done.
    + intros e g' Heq. inversion Heq; subst. done.
  - assert (Hn : (node_idx < PyG.maybe_num_nodes ei)%nat) by (apply Hk; by eexists).
    destruct x as [|x0 x]; simpl.
    + split; [split; [by intros (r & g' & Heq) | by intros [_ ?]]|].
      intros e g' Heq. by inversion Heq.
    + destruct (randn (length x0) g) as [f g1].
      destruct (randn (length ei) g1) as [e1 g2].
      split; [split; [done | intros _; eauto]|]. by intros e g' Heq.
Qed.

Context `{!RandomGraph.Bernoulli TG}.

Lemma mul_broadcast_spec (rand_mask : list float) (r : list (list float)) (d : nat) :
  rectangular d r ->
  (returns (RandomGraph.mul_broadcast rand_mask r) <->
   length rand_mask = length r \/ length rand_mask = 1%nat \/ length r = 1%nat) /\
  (forall f, RandomGraph.mul_broadcast rand_mask r = inr f ->
     rectangular d f /\
     length f = (if decide (length r = 1%nat) then length rand_mask else length r)) /\
  (forall e, RandomGraph.mul_broadcast rand_mask r = inl e -> e = ShapeError).
Proof.
  intros Hrect. unfold RandomGraph.mul_broadcast, returns.
  assert (Hmap : forall m row, row ∈ r -> length (map (PrimFloat.mul m) row) = d).
  { intros m row Hrow. rewrite length_map.
    eapply Forall_forall in Hrect; [exact Hrect | done]. }
  case_decide as Hlen.
  - split_and!; [split; [auto | by eexists] | | done].
    intros f Hf. inversion Hf; subst f. split.
    + apply Forall_forall. intros row' Hrow'.
      apply elem_of_zip_with in Hrow' as (m & row & -> & _ & Hrow). by apply Hmap.
    + rewrite length_zip_with. case_decide; lia.
  - destruct rand_mask as [|m [|m' ms]].
    + destruct r as [|row [|row' rs]]; [done | | ].
      * split_and!; [split; [auto | by eexists] | | done].
        intros f Hf. inversion Hf; subst f. simpl. split; [constructor | done].
      * split_and!; [split; [by intros [? ?] | simpl; lia] | done |].
        intros e He. by inversion He.
    + split_and!; [split; [auto | by eexists] | | done].
      intros f [= <-]. split.
      * by apply rectangular_scale_rows.
      * rewrite length_map. simpl in Hlen. case_decide; [simpl; lia | done].
    + destruct r as [|row [|row' rs]].
      * split_and!; [split; [by intros [? ?] | simpl; lia] | done |].
        intros e He. by inversion He.
      * split_and!; [split; [auto | by eexists] | | done].
        intros f [= <-]. split.
        -- apply (rectangular_scale_mask d row (m :: m' :: ms)).
           by inversion Hrect.
        -- case_decide; [|done].
           exact (length_map (fun m0 => map (PrimFloat.mul m0) row) (m :: m' :: ms)).
      * split_and!; [split; [by intros [? ?] | simpl in *; lia] | done |].
        intros e He. by inversion He.
Qed.

(** X10: the random whole-graph explainer returns exactly when the number
    of nodes [n] (the argument [num_nodes], or else the largest node index
    of [edge_index] plus one) equals the number of rows of [x], or one of
    the two is 1; otherwise the product of the mask and the noise cannot be
    broadcast and the call raises.  What it returns under
    ['feature_imp'] is a 2-D tensor with one row per node and one column per
    feature, not a vector of [d] entries; ['edge_imp'] has one entry per
    column of [edge_index]; and ['node_imp'] is never a tensor. *)
Theorem random_get_explanation_graph_shapes (EXP_TYPES : list string)
    (self : RandomExplainer.t) (x : list (list float)) (ei : PyG.edge_index)
    (num_nodes : option nat) (g : TG) :
  rectangular (shape1 x) x ->
  let n := default (PyG.maybe_num_nodes ei) num_nodes in
  ((exists exp g', RandomGraph.get_explanation_graph EXP_TYPES self x ei num_nodes g
                   = (inr exp, g')) <->
   n = length x \/ n = 1%nat \/ length x = 1%nat) /\
  (forall exp g', RandomGraph.get_explanation_graph EXP_TYPES self x ei num_nodes g
                  = (inr exp, g') ->
     (exists f e, exp !! "feature_imp" = Some (RandomGraph.Tensor2 f) /\
        exp !! "edge_imp" = Some (RandomGraph.Tensor1 e) /\
        rectangular (shape1 x) f /\
        length f = (if decide (length x = 1%nat) then n else length x) /\
        length e = length ei) /\
     (exp !! "node_imp" = None \/ exp !! "node_imp" = Some RandomGraph.PyNone)) /\
  (forall e g', RandomGraph.get_explanation_graph EXP_TYPES self x ei num_nodes g
                = (inl e, g') -> e = ShapeError).
Proof.
  intros Hrect n. unfold RandomGraph.get_explanation_graph.
  replace (match num_nodes with None => PyG.maybe_num_nodes ei | Some n0 => n0 end)
    with n by (by destruct num_nodes).
  pose proof (RandomGraph.bernoulli_half_length n g) as Hml.
  destruct (RandomGraph.bernoulli_half n g) as [rand_mask g1]. simpl in Hml.
  unfold RandomGraph.randn_like.
  pose proof (randn_length (length x * shape1 x) g1) as Hrl.
  destruct (randn (length x * shape1 x) g1) as [t g2]. simpl in Hrl.
  set (r := RandomGraph.reshape (length x) (shape1 x) t).
  assert (Hr : rectangular (shape1 x) r) by (by apply reshape_rectangular).
  assert (Hrn : length r = length x) by apply length_reshape.
  destruct (mul_broadcast_spec rand_mask r (shape1 x) Hr) as (Hiff & Hshape & Herr).
  rewrite Hml, Hrn in Hiff.
  destruct (RandomGraph.mul_broadcast rand_mask r) as [e0|f] eqn:Hmul.
  - split_and!.
    + split; [by intros (exp & g' & Heq)|]. intros Hn. apply Hiff in Hn as [? ?]. done.
    + intros exp g' Heq. by inversion Heq.
    + intros e g' Heq. inversion Heq; subst. by apply Herr.
  - destruct (Hshape f eq_refl) as (Hfr & Hfl). rewrite Hml, Hrn in Hfl.
    pose proof (randn_length (length ei) g2) as Hel.
    destruct (randn (length ei) g2) as [e g3]. simpl in Hel.
    split_and!; [| | by intros e' g' Heq].
    + split; [intros _; apply Hiff; by eexists | intros _; eauto].
    + intros exp g' Heq. inversion Heq; subst exp g'. split.
      * exists f, e. rewrite lookup_insert_ne by done. rewrite !lookup_insert_eq.
        by split_and!.
      * rewrite !lookup_insert_ne by done. unfold RandomGraph.empty_exp.
        assert (Hgen : forall (l : list string) (m : gmap string RandomGraph.value),
                  m !! "node_imp" = None \/ m !! "node_imp" = Some RandomGraph.PyNone ->
                  foldl (fun m k => <[k:=RandomGraph.PyNone]> m) m l !! "node_imp" = None \/
                  foldl (fun m k => <[k:=RandomGraph.PyNone]> m) m l !! "node_imp"
                  = Some RandomGraph.PyNone).
        { induction l as [|k l IH]; intros m Hm; cbn [foldl]; [done|].
          apply IH. destruct (decide (k = "node_imp")) as [->|Hne].
          - right. by rewrite lookup_insert_eq.
          - by rewrite lookup_insert_ne. }
        apply Hgen. by left.
Qed.

End Random.

End RandomMore.

Module RandomRuns.

Import Ref RefFacts.

#[global] Instance tape_bernoulli : RandomGraph.Bernoulli (list nat) :=
  {| RandomGraph.bernoulli_half := tape_randint01;
     RandomGraph.bernoulli_half_length := tape_randint01_length |}.

(** Three nodes, the last one isolated. *)
Definition x32 : list (list float) :=
  [[1%float; 2%float]; [3%float; 4%float]; [5%float; 6%float]].

Definition one_edge : PyG.edge_index := [(0, 1); (1, 0)]%nat.

(** On a graph whose last node is isolated the number of nodes inferred from
    [edge_index] is too small, and the call raises. *)
Lemma random_get_explanation_graph_shapes_witness :
  Torch.rectangular (Torch.shape1 x32) x32 /\
  ~ exists exp g',
      RandomGraph.get_explanation_graph Scenario.EXP_TYPES {| RandomExplainer.L := 3 |}
        x32 one_edge None [3; 1; 4; 1; 5; 9; 2; 6]%nat = (inr exp, g').
Proof.
  assert (Hrect : Torch.rectangular (Torch.shape1 x32) x32) by (by repeat constructor).
  split; [exact Hrect|].
  destruct (RandomMore.random_get_explanation_graph_shapes Scenario.EXP_TYPES
              {| RandomExplainer.L := 3 |} x32 one_edge None [3; 1; 4; 1; 5; 9; 2; 6]%nat
              Hrect) as ((Hret & _) & _).
  intros Hex. apply Hret in Hex. vm_compute in Hex. lia.
Defined.

End RandomRuns.

From stdpp Require Import pretty.

Open Scope Z_scope.

(** ** graphxai/datasets/real_world/benzene/extract_benzene.py *)

Module Benzene.

(** ['Num: {}, Shapes: {} vs. {}'.format(i, a, b)]. *)
Definition assert_message (i a b : nat) : string :=
  "Num: " +:+ pretty i +:+ ", Shapes: " +:+ pretty a +:+ " vs. " +:+ pretty b.

(** [torch.stack([e1, e2])] of two 1-D tensors, as the list of its columns. *)
Definition stack2 (e1 e2 : list nat) : result PyG.edge_index :=
  _ ← Torch.stack [e1; e2]; mret (zip e1 e2).

Section Load.

(** The types of the stored edge attributes and graph labels, of an edge
    mask and of an [Explanation] object. *)
Variables (EA Y EM Expl : Type).

(** One entry of [x_aug.npz]: a dict with the keys ['nodes'], ['edges'],
    ['globals'], ['receivers'] and ['senders']. *)
Record datadict : Type := {
  nodes : list (list float);
  edges : EA;
  globals : list Y;
  receivers : list nat;
  senders : list nat
}.

(** One attribution dict of [true_raw_attribution_datadicts.npz]; the code
    reads its key ['nodes'] only. *)
Record attribution : Type := { att_nodes : list float }.

(** [torch_geometric.data.Data(x, y, edge_attr, edge_index)]. *)
Record Data : Type := {
  x : list (list float);
  y : Y;
  edge_attr : EA;
  edge_index : PyG.edge_index
}.

(** From [graphxai.utils], which is not part of the sources: the function
    [edge_mask_from_node_mask], the constructor of [Explanation] and its
    method [set_whole_graph] (the object after the call). *)
Variable edge_mask_from_node_mask : list bool -> PyG.edge_index -> EM.
Variable Explanation : option (list float) -> list float -> EM -> Expl.
Variable set_whole_graph : Expl -> Data -> Expl.

(** The body of [for i in range(len(X))], lines 38-71, over the remaining
    indices; [all_graphs] and [explanations] are the lists built so far. *)
Fixpoint load_loop (att : list (list attribution)) (X : list datadict) (range : list nat)
    (all_graphs : list Data) (explanations : list Expl)
  : result (list Data * list Expl) :=
  match range with
  | [] => inr (all_graphs, explanations)
  | i :: range' =>
      Xi ← of_option IndexError (X !! i);
      let x := nodes Xi in
      let edge_attr := edges Xi in
      y ← of_option IndexError (globals Xi !! 0%nat);
      let e1 := receivers Xi in
      let e2 := senders Xi in
      edge_index ← stack2 e1 e2;
      let data_i := {| x := x; y := y; edge_attr := edge_attr; edge_index := edge_index |} in
      let all_graphs := all_graphs ++ [data_i] in
      att_i ← of_option IndexError (att !! i);
      att_i0 ← of_option IndexError (att_i !! 0%nat);
      let node_imp := Torch.float1 (att_nodes att_i0) in
      if decide (length node_imp = length x) then
        let exp := Explanation None node_imp
                     (edge_mask_from_node_mask (map Torch.bool_of_double node_imp) edge_index) in
        let exp := set_whole_graph exp data_i in
        load_loop att X range' all_graphs (explanations ++ [exp])
      else raise (AssertionError (assert_message i (length node_imp) (length x)))
  end.

(** [load_graphs], lines 13-73, on the contents of the three files:
    [att] is [att['datadict_list']], [X] is [X['datadict_list'][0]] and
    [zinc_ids] is the column ['mol_id'] of the CSV table. *)
Definition load_graphs {ID : Type} (att : list (list attribution)) (X : list datadict)
    (zinc_ids : list ID) : result (list Data * list Expl * list ID) :=
  '(all_graphs, explanations) ← load_loop att X (seq 0 (length X)) [] [];
  mret (all_graphs, explanations, zinc_ids).

End Load.

Arguments nodes {EA Y} _.
Arguments edges {EA Y} _.
Arguments globals {EA Y} _.
Arguments receivers {EA Y} _.
Arguments senders {EA Y} _.
Arguments x {EA Y} _.
Arguments y {EA Y} _.
Arguments edge_attr {EA Y} _.
Arguments edge_index {EA Y} _.
Arguments load_loop {EA Y EM Expl} _ _ _ _ _ _ _ _.
Arguments load_graphs {EA Y EM Expl} _ _ _ {ID} _ _ _.

End Benzene.

(** ** Loading the benzene graphs *)

Module BenzeneFacts.

Import Benzene.

Section Load.
Context {EA Y EM Expl : Type}.
Variable edge_mask_from_node_mask : list bool -> PyG.edge_index -> EM.
Variable Explanation : option (list float) -> list float -> EM -> Expl.
Variable set_whole_graph : Expl -> Data EA Y -> Expl.
Variable att : list (list attribution).
Variable X : list (datadict EA Y).

(** The graph and the explanation that entry [i] of the two archives
    gives rise to. *)
Definition entry (i : nat) (g : Data EA Y) (e : Expl) : Prop :=
  exists Xi y att_i att_i0,
    X !! i = Some Xi /\ globals Xi !! 0%nat = Some y /\
    length (receivers Xi) = length (senders Xi) /\
    att !! i = Some att_i /\ att_i !! 0%nat = Some att_i0 /\
    length (att_nodes att_i0) = length (nodes Xi) /\
    g = {| x := nodes Xi; y := y; edge_attr := edges Xi;
           edge_index := zip (receivers Xi) (senders Xi) |} /\
    e = set_whole_graph
          (Explanation None (Torch.float1 (att_nodes att_i0))
             (edge_mask_from_node_mask
                (map Torch.bool_of_double (Torch.float1 (att_nodes att_i0)))
                (zip (receivers Xi) (senders Xi)))) g.

(** Entry [i] can be loaded. *)
Definition well_formed (i : nat) : Prop :=
  exists Xi att_i att_i0,
    X !! i = Some Xi /\ globals Xi <> [] /\
    length (receivers Xi) = length (senders Xi) /\
    att !! i = Some att_i /\ att_i !! 0%nat = Some att_i0 /\
    length (att_nodes att_i0) = length (nodes Xi).

Lemma entry_well_formed (i : nat) (g : Data EA Y) (e : Expl) : entry i g e -> well_formed i.
Proof.
  intros (Xi & y & att_i & att_i0 & HX & Hy & Hlen & Ha & Ha0 & Hn & _).
  exists Xi, att_i, att_i0. split_and!; try done. by destruct (globals Xi).
Qed.

Lemma stack2_spec (e1 e2 : list nat) :
  (length e1 = length e2 -> stack2 e1 e2 = inr (zip e1 e2)) /\
  (forall r, stack2 e1 e2 = inr r -> length e1 = length e2 /\ r = zip e1 e2) /\
  (forall e, stack2 e1 e2 = inl e -> e = ShapeError).
Proof.
  unfold stack2, Torch.stack. cbn [forallb]. rewrite Nat.eqb_refl. cbn [andb].
  destruct (Nat.eqb (length e2) (length e1)) eqn:Heq; cbn.
  - apply Nat.eqb_eq in Heq. split_and!; [done | | done].
    intros r [= <-]. done.
  - apply Nat.eqb_neq in Heq. split_and!; [intros; lia | done |].
    intros e [= <-]. done.
Qed.

Local Abbreviation loop := (load_loop edge_mask_from_node_mask Explanation set_whole_graph att X).

(** One turn of the loop on a well-formed entry. *)
Lemma load_loop_step (i : nat) (range : list nat) (gs : list (Data EA Y)) (es : list Expl) :
  well_formed i ->
  exists g e, entry i g e /\ loop (i :: range) gs es = loop range (gs ++ [g]) (es ++ [e]).
Proof.
  intros (Xi & att_i & att_i0 & HX & Hy & Hlen & Ha & Ha0 & Hn).
  destruct (globals Xi) as [|y ys] eqn:Hg; [done|].
  eexists _, _. split.
  - exists Xi, y, att_i, att_i0. split_and!; try done. by rewrite Hg.
  - cbn [load_loop]. rewrite HX. cbn -[stack2]. rewrite Hg. cbn -[stack2].
    rewrite (proj1 (stack2_spec _ _) Hlen). cbn. rewrite Ha. cbn. rewrite Ha0.
    cbn -[Torch.float1]. rewrite TorchFacts.length_float1.
    rewrite decide_True by done. done.
Qed.

(** A turn of the loop that does not raise was on a well-formed entry. *)
Lemma load_loop_step_inv (i : nat) (range : list nat) (gs : list (Data EA Y))
    (es : list Expl) (r : list (Data EA Y) * list Expl) :
  loop (i :: range) gs es = inr r -> well_formed i.
Proof.
  cbn [load_loop]. intros Hrun.
  destruct (X !! i) as [Xi|] eqn:HX; [|done]. cbn -[stack2] in Hrun.
  destruct (globals Xi) as [|y ys] eqn:Hg; [done|]. cbn -[stack2] in Hrun.
  destruct (stack2 (receivers Xi) (senders Xi)) as [e|ei] eqn:Hst; [done|].
  apply stack2_spec in Hst as [Hlen ->]. cbn in Hrun.
  destruct (att !! i) as [att_i|] eqn:Ha; [|done]. cbn in Hrun.
  destruct (att_i !! 0%nat) as [att_i0|] eqn:Ha0; [|done]. cbn -[Torch.float1] in Hrun.
  rewrite TorchFacts.length_float1 in Hrun.
  case_decide as Hn; [|done].
  exists Xi, att_i, att_i0. split_and!; try done. by rewrite Hg.
Qed.

Lemma load_loop_inr (range : list nat) :
  forall gs es gs1 es1,
    loop range gs es = inr (gs1, es1) ->
    exists gs' es',
      gs1 = gs ++ gs' /\ es1 = es ++ es' /\
      length gs' = length range /\ length es' = length range /\
      forall k i, range !! k = Some i ->
        exists g e, gs' !! k = Some g /\ es' !! k = Some e /\ entry i g e.
Proof.
  induction range as [|i range IH]; intros gs es gs1 es1 Hrun.
  - injection Hrun as <- <-. exists [], []. rewrite !app_nil_r. by split_and!.
  - pose proof (load_loop_step_inv _ _ _ _ _ Hrun) as Hwf.
    destruct (load_loop_step i range gs es Hwf) as (g & e & Hent & Hstep).
    rewrite Hstep in Hrun. apply IH in Hrun as (gs' & es' & -> & -> & Hlg & Hle & Hall).
    exists (g :: gs'), (e :: es'). rewrite <- !(assoc_L (++)). cbn.
    split_and!; [done | done | by rewrite Hlg | by rewrite Hle |].
    intros [|k] j Hk; cbn in *; [injection Hk as <-; eauto | by apply Hall].
Qed.

Lemma load_loop_returns (range : list nat) :
  forall gs es, (forall i, i ∈ range -> well_formed i) -> returns (loop range gs es).
Proof.
  induction range as [|i range IH]; intros gs es Hwf; [by eexists|].
  destruct (load_loop_step i range gs es) as (g & e & _ & ->); [apply Hwf; by left|].
  apply IH. intros j Hj. apply Hwf. by right.
Qed.

Lemma load_loop_assertion (range : list nat) :
  forall gs es msg,
    loop range gs es = inl (AssertionError msg) ->
    exists k i Xi att_i att_i0,
      range !! k = Some i /\
      (forall k' j, (k' < k)%nat -> range !! k' = Some j -> well_formed j) /\
      X !! i = Some Xi /\ att !! i = Some att_i /\ att_i !! 0%nat = Some att_i0 /\
      length (att_nodes att_i0) <> length (nodes Xi) /\
      msg = assert_message i (length (att_nodes att_i0)) (length (nodes Xi)).
Proof.
  induction range as [|i range IH]; intros gs es msg Hrun; [done|].
  pose proof Hrun as Hrun0. cbn [load_loop] in Hrun.
  destruct (X !! i) as [Xi|] eqn:HX; [|done]. cbn -[stack2] in Hrun.
  destruct (globals Xi) as [|y ys] eqn:Hg; [done|]. cbn -[stack2] in Hrun.
  destruct (stack2 (receivers Xi) (senders Xi)) as [e|ei] eqn:Hst.
  { apply stack2_spec in Hst. by subst e. }
  apply stack2_spec in Hst as [Hlen ->]. cbn in Hrun.
  destruct (att !! i) as [att_i|] eqn:Ha; [|done]. cbn in Hrun.
  destruct (att_i !! 0%nat) as [att_i0|] eqn:Ha0; [|done]. cbn -[Torch.float1] in Hrun.
  rewrite !TorchFacts.length_float1 in Hrun.
  case_decide as Hn.
  - apply IH in Hrun as (k & j & Xj & att_j & att_j0 & Hk & Hbefore & Hrest).
    exists (S k), j, Xj, att_j, att_j0. split; [done|]. split; [|done].
    intros [|k'] j' Hlt Hj'; cbn in Hj'.
    + injection Hj' as <-. exists Xi, att_i, att_i0. split_and!; try done. by rewrite Hg.
    + apply (Hbefore k'); [lia | done].
  - injection Hrun as <-.
    exists 0%nat, i, Xi, att_i, att_i0. split_and!; try done. intros k' j Hlt. lia.
Qed.

(** X11: [load_graphs] returns exactly when every entry of [X] can be
    loaded: it has a first global, as many receivers as senders, and an
    attribution list whose first dict has one node importance per row of
    the node features. *)
Theorem load_graphs_returns_iff {ID : Type} (zinc_ids : list ID) :
  returns (load_graphs edge_mask_from_node_mask Explanation set_whole_graph att X zinc_ids)
  <-> forall i, (i < length X)%nat -> well_formed i.
Proof.
  unfold load_graphs. split.
  - intros [[[gs es] ids] Hrun].
    destruct (loop (seq 0 (length X)) [] []) as [e|[gs1 es1]] eqn:Hloop; [done|].
    apply load_loop_inr in Hloop as (gs' & es' & _ & _ & _ & _ & Hall).
    intros i Hi. destruct (Hall i i) as (g & e & _ & _ & Hent).
    + by apply lookup_seq.
    + by eapply entry_well_formed.
  - intros Hwf.
    destruct (load_loop_returns (seq 0 (length X)) [] []) as [[gs es] Hrun].
    + intros i Hi. apply elem_of_seq in Hi. apply Hwf. lia.
    + rewrite Hrun. by eexists.
Qed.

(** X12: what [load_graphs] returns: one graph and one explanation per
    entry of [X], in order, the graph with the entry's node features and
    the explanation with as many node importances as the graph has nodes,
    each the stored value rounded to single precision by [.float()], the
    node mask of the edge importances being taken after that rounding;
    entries of [att] past the end of [X] are ignored, and [zinc_ids] is
    handed back as read, whatever its length. *)
Theorem load_graphs_result {ID : Type} (zinc_ids ids : list ID)
    (all_graphs : list (Data EA Y)) (explanations : list Expl) :
  load_graphs edge_mask_from_node_mask Explanation set_whole_graph att X zinc_ids
  = inr (all_graphs, explanations, ids) ->
  ids = zinc_ids /\
  length all_graphs = length X /\ length explanations = length X /\
  forall i Xi, X !! i = Some Xi ->
    exists g e att_i att_i0,
      all_graphs !! i = Some g /\ explanations !! i = Some e /\ entry i g e /\
      x g = nodes Xi /\
      att !! i = Some att_i /\ att_i !! 0%nat = Some att_i0 /\
      length (att_nodes att_i0) = length (x g).
Proof.
  unfold load_graphs. intros Hrun.
  destruct (loop (seq 0 (length X)) [] []) as [e|[gs1 es1]] eqn:Hloop; [done|].
  injection Hrun as <- <- <-.
  apply load_loop_inr in Hloop as (gs' & es' & -> & -> & Hlg & Hle & Hall).
  rewrite length_seq in Hlg, Hle. cbn. split_and!; [done..|].
  intros i Xi HXi.
  destruct (Hall i i) as (g & e & Hg & He & Hent).
  { apply lookup_seq. split; [done|]. by eapply lookup_lt_Some. }
  pose proof Hent as (Xi' & y & att_i & att_i0 & HX & _ & _ & Ha & Ha0 & Hn & Hgeq & _).
  rewrite HXi in HX. injection HX as <-.
  exists g, e, att_i, att_i0. subst g. by split_and!.
Qed.

(** X13: when [load_graphs] raises an [AssertionError], its message names
    the first entry whose number of node importances differs from its
    number of nodes, together with the two numbers; every entry before it
    could be loaded. *)
Theorem load_graphs_assertion {ID : Type} (zinc_ids : list ID) (msg : string) :
  load_graphs edge_mask_from_node_mask Explanation set_whole_graph att X zinc_ids
  = inl (AssertionError msg) ->
  exists i Xi att_i att_i0,
    X !! i = Some Xi /\ att !! i = Some att_i /\ att_i !! 0%nat = Some att_i0 /\
    length (att_nodes att_i0) <> length (nodes Xi) /\
    msg = assert_message i (length (att_nodes att_i0)) (length (nodes Xi)) /\
    forall j, (j < i)%nat -> well_formed j.
Proof.
  unfold load_graphs. intros Hrun.
  destruct (loop (seq 0 (length X)) [] []) as [e|[gs1 es1]] eqn:Hloop; [|done].
  injection Hrun as ->.
  apply load_loop_assertion in Hloop
    as (k & i & Xi & att_i & att_i0 & Hk & Hbefore & HX & Ha & Ha0 & Hn & Hmsg).
  apply lookup_seq in Hk as [-> Hlt]. cbn in *.
  exists k, Xi, att_i, att_i0. split_and!; try done.
  intros j Hj. apply (Hbefore j j Hj). apply lookup_seq. split; [done | lia].
Qed.

End Load.

End BenzeneFacts.

Module BenzeneRuns.

Import Benzene.

(** Stand-ins for [graphxai.utils]: an edge is kept when both its
    endpoints are, and an explanation is the tuple of its four fields. *)
Definition edge_mask (node_mask : list bool) (ei : PyG.edge_index) : list bool :=
  map (fun e => default false (node_mask !! e.1) && default false (node_mask !! e.2)) ei.

Definition explanation : Type :=
  option (list float) * list float * list bool * option (Data unit Z).

Definition new_explanation (feature_imp : option (list float)) (node_imp : list float)
    (edge_imp : list bool) : explanation :=
  (feature_imp, node_imp, edge_imp, None).

Definition set_graph (exp : explanation) (data : Data unit Z) : explanation :=
  (exp.1.1.1, exp.1.1.2, exp.1.2, Some data).

(** One molecule of two atoms. *)
Definition X_two_atoms : list (datadict unit Z) :=
  [ {| nodes := [[1%float; 0%float]; [0%float; 1%float]]; edges := tt; globals := [1%Z];
       receivers := [0; 1]%nat; senders := [1; 0]%nat |} ].

(** The second importance is too small for single precision. *)
Definition att_ok : list (list attribution) :=
  [[ {| att_nodes := [1%float; 0x1p-200%float] |} ]].

Definition att_long : list (list attribution) :=
  [[ {| att_nodes := [1%float; 0%float; 0%float] |} ]].

(** Two identifiers for one molecule are handed back as they are, and the
    importance [2^-200] is stored as 0 and leaves its node out of the mask. *)
Lemma load_graphs_result_witness :
  exists all_graphs explanations e,
    load_graphs edge_mask new_explanation set_graph att_ok X_two_atoms ["ZINC1"; "ZINC2"]
    = inr (all_graphs, explanations, ["ZINC1"; "ZINC2"]) /\
    length all_graphs = 1%nat /\
    explanations !! 0%nat = Some e /\
    e.1.1.2 = [1%float; 0%float] /\ e.1.2 = [false; false].
Proof.
  destruct (result_inr_inv
              (load_graphs edge_mask new_explanation set_graph att_ok X_two_atoms ["ZINC1"; "ZINC2"]))
    as ([[gs es] ids] & Hrun); [vm_compute; reflexivity|].
  destruct (BenzeneFacts.load_graphs_result edge_mask new_explanation set_graph att_ok X_two_atoms
              ["ZINC1"; "ZINC2"] ids gs es Hrun) as (Hids & Hlen & _ & Hall).
  destruct (Hall 0%nat _ eq_refl) as (g & e & att_i & att_i0 & _ & He & Hent & _).
  destruct Hent as (Xi & y & att_i' & att_i0' & HX & Hy & _ & Ha & Ha0 & _ & Hg & Heq).
  injection HX as <-. injection Hy as <-. injection Ha as <-. injection Ha0 as <-.
  exists gs, es, e. split.
  { exact (eq_trans Hrun (f_equal (fun i => inr (gs, es, i)) Hids)). }
  split; [exact Hlen|]. split; [exact He|].
  rewrite Heq. split; vm_compute; reflexivity.
Defined.

Lemma load_graphs_assertion_witness :
  load_graphs edge_mask new_explanation set_graph att_long X_two_atoms ["ZINC1"]
  = inl (AssertionError "Num: 0, Shapes: 3 vs. 2") /\
  exists i Xi att_i att_i0,
    X_two_atoms !! i = Some Xi /\ att_long !! i = Some att_i /\ att_i !! 0%nat = Some att_i0 /\
    length (att_nodes att_i0) <> length (nodes Xi) /\
    "Num: 0, Shapes: 3 vs. 2"
    = assert_message i (length (att_nodes att_i0)) (length (nodes Xi)) /\
    forall j, (j < i)%nat -> BenzeneFacts.well_formed att_long X_two_atoms j.
Proof.
  assert (Hrun : load_graphs edge_mask new_explanation set_graph att_long X_two_atoms ["ZINC1"]
                 = inl (AssertionError "Num: 0, Shapes: 3 vs. 2"))
    by (vm_compute; reflexivity).
  split; [exact Hrun|].
  exact (BenzeneFacts.load_graphs_assertion edge_mask new_explanation set_graph att_long X_two_atoms
           ["ZINC1"] "Num: 0, Shapes: 3 vs. 2" Hrun).
Defined.

End BenzeneRuns.

(** ** graphxai/datasets/shape_graph.py: [ShapeGraph.visualize] *)

Module Visualize.

Import ShapeGraph.

(** [{Gitems[i][0]: i for i in range(self.G.number_of_nodes())}] for
    [Gitems = list(self.G.nodes.items())]: every node with its position. *)
Definition node_map (G : Graph) : gmap nat nat :=
  foldl (fun m iv => <[iv.2:=iv.1]> m) ∅ (zip (seq 0 (length (nodes G))) (nodes G)).

(** [{i: f(i) for i in keys}]. *)
Definition dict_comprehension {V : Type} (f : nat -> result V) (keys : list nat)
  : result (gmap nat V) :=
  vs ← mapM f keys;
  mret (foldl (fun m kv => <[kv.1:=kv.2]> m) ∅ (zip keys vs)).

(** [int(self.G.nodes[i]['shape'] > 0)]. *)
Definition in_shape (G : Graph) (i : nat) : result Z :=
  s ← shape_of G i; mret (if bool_decide (0 < s) then 1 else 0).

(** Lines 310-339, up to the call of [nx.draw]: the arguments [node_color]
    and [labels] that [visualize] hands to it. *)
Definition visualize (self : t) (shape_label : bool) : result (list Z * gmap nat nat) :=
  let node_map := node_map (G self) in
  y ← (if shape_label then
         mapM (in_shape (G self)) (seq 0 (num_nodes self))
       else
         let ylist := y (graph self) in
         mapM (fun i => k ← of_option KeyError (node_map !! i);
                        of_option IndexError (ylist !! k)) (nodes (G self)));
  node_weights ← dict_comprehension (fun i => of_option KeyError (node_map !! i))
                   (nodes (G self));
  mret (y, node_weights).

End Visualize.

(** ** The constructed dataset: small graphs, shape names, drawing *)

Module DatasetMore.

Import Torch ShapeGraph.

Lemma mask_sum_zero (mask : list bool) :
  mask_sum mask = 0%nat -> mask = replicate (length mask) false.
Proof.
  unfold mask_sum. induction mask as [|b mask IH]; [done|].
  rewrite filter_cons. destruct b.
  - rewrite decide_True by done. done.
  - rewrite decide_False by done. intros Hz. cbn. f_equal. by apply IH.
Qed.

Lemma int_mul_valid_small (n : nat) : (n < 20)%nat -> Py.int_mul n Py.f_0_05 = inr 0.
Proof.
  intros Hn. do 20 (destruct n as [|n]; [vm_compute; reflexivity|]). lia.
Qed.

Lemma int_mul_test_small (n : nat) : (n < 4)%nat -> Py.int_mul n Py.f_0_25 = inr 0.
Proof.
  intros Hn. do 4 (destruct n as [|n]; [vm_compute; reflexivity|]). lia.
Qed.

Lemma int_mul_train_small (n : nat) : (n < 2)%nat -> Py.int_mul n Py.f_0_7 = inr 0.
Proof.
  intros Hn. do 2 (destruct n as [|n]; [vm_compute; reflexivity|]). lia.
Qed.

Lemma lower_ascii_idemp (c : Ascii.ascii) : Py.lower_ascii (Py.lower_ascii c) = Py.lower_ascii c.
Proof.
  destruct c as [[] [] [] [] [] [] [] []]; vm_compute; reflexivity.
Qed.

Lemma lower_idemp (s : string) : Py.lower (Py.lower s) = Py.lower s.
Proof.
  induction s as [|c s IH]; [done|]. cbn. by rewrite lower_ascii_idemp, IH.
Qed.

Lemma mapM_result_intro {A B : Type} (f : A -> result B) (l : list A) (l' : list B) :
  Forall2 (fun a b => f a = inr b) l l' -> mapM f l = inr l'.
Proof.
  induction 1 as [|a b l l' Hab _ IH]; [done|]. cbn. rewrite Hab. cbn. by rewrite IH.
Qed.

Lemma foldl_insert_notin {V : Type} (kvs : list (nat * V)) (v : nat) :
  forall m : gmap nat V, v ∉ kvs.*1 ->
    foldl (fun m kv => <[kv.1:=kv.2]> m) m kvs !! v = m !! v.
Proof.
  induction kvs as [|[k x] kvs IH]; intros m Hv; [done|]. cbn in *.
  apply not_elem_of_cons in Hv as [Hne Hv]. rewrite IH by done.
  by rewrite lookup_insert_ne.
Qed.

Lemma foldl_insert_NoDup {V : Type} (kvs : list (nat * V)) (k : nat) (x : V) :
  forall m : gmap nat V, NoDup kvs.*1 -> (k, x) ∈ kvs ->
    foldl (fun m kv => <[kv.1:=kv.2]> m) m kvs !! k = Some x.
Proof.
  induction kvs as [|[k0 x0] kvs IH]; intros m Hnd Hin; [by apply elem_of_nil in Hin|].
  cbn in *. apply NoDup_cons in Hnd as [Hk0 Hnd].
  apply elem_of_cons in Hin as [[= -> ->]|Hin].
  - rewrite foldl_insert_notin by done. by rewrite lookup_insert_eq.
  - by apply IH.
Qed.

(** The map from each node to its position. *)
Lemma node_map_lookup (G0 : Graph) (k v : nat) :
  NoDup (nodes G0) -> nodes G0 !! k = Some v -> Visualize.node_map G0 !! v = Some k.
Proof.
  intros Hnd Hk. unfold Visualize.node_map.
  set (kvs := zip (seq 0 (length (nodes G0))) (nodes G0)).
  assert (Hswap : forall m : gmap nat nat,
            foldl (fun m iv => <[iv.2:=iv.1]> m) m kvs
            = foldl (fun m kv => <[kv.1:=kv.2]> m) m (prod_swap <$> kvs)).
  { clear. induction kvs as [|[i v] kvs IH]; intros m; [done|]. cbn. by rewrite IH. }
  rewrite Hswap. apply foldl_insert_NoDup.
  - rewrite <- list_fmap_compose.
    replace ((fst ∘ prod_swap) <$> kvs) with (kvs.*2) by (by apply list_fmap_ext; intros ? []).
    unfold kvs. rewrite snd_zip; [done|]. by rewrite length_seq.
  - apply list_elem_of_fmap. exists (k, v). split; [done|].
    apply list_elem_of_lookup. exists k. unfold kvs.
    rewrite lookup_zip_with. rewrite lookup_seq_lt by (by eapply lookup_lt_Some).
    cbn. by rewrite Hk.
Qed.

Lemma foldl_insert_in {V : Type} (kvs : list (nat * V)) (k : nat) :
  forall m : gmap nat V, k ∈ kvs.*1 ->
    is_Some (foldl (fun m kv => <[kv.1:=kv.2]> m) m kvs !! k).
Proof.
  induction kvs as [|[k0 x0] kvs IH]; intros m Hin; [by apply elem_of_nil in Hin|].
  cbn in *. destruct (decide (k ∈ kvs.*1)) as [Hk|Hk]; [by apply IH|].
  apply elem_of_cons in Hin as [->|Hin]; [|done].
  rewrite foldl_insert_notin by done. rewrite lookup_insert_eq. by eexists.
Qed.

Lemma node_map_is_Some (G0 : Graph) (v : nat) :
  v ∈ nodes G0 -> is_Some (Visualize.node_map G0 !! v).
Proof.
  intros Hv. unfold Visualize.node_map.
  set (kvs := zip (seq 0 (length (nodes G0))) (nodes G0)).
  assert (Hswap : forall m : gmap nat nat,
            foldl (fun m iv => <[iv.2:=iv.1]> m) m kvs
            = foldl (fun m kv => <[kv.1:=kv.2]> m) m (prod_swap <$> kvs)).
  { clear. induction kvs as [|[i v] kvs IH]; intros m; [done|]. cbn. by rewrite IH. }
  rewrite Hswap. apply foldl_insert_in.
  rewrite <- list_fmap_compose.
  replace ((fst ∘ prod_swap) <$> kvs) with (kvs.*2) by (by apply list_fmap_ext; intros ? []).
  unfold kvs. rewrite snd_zip; [done|]. by rewrite length_seq.
Qed.

(** The labels [{i: node_map[i] for i in self.G.nodes}] are always built. *)
Lemma node_weights_returns (G0 : Graph) :
  returns (Visualize.dict_comprehension
             (fun i => of_option KeyError (Visualize.node_map G0 !! i)) (nodes G0)).
Proof.
  unfold Visualize.dict_comprehension.
  destruct (mapM_result_total (fun i => of_option KeyError (Visualize.node_map G0 !! i))
              (nodes G0)) as [vs Hvs].
  - intros v Hv. destruct (node_map_is_Some G0 v Hv) as [k Hk]. rewrite Hk. by eexists.
  - rewrite Hvs. by eexists.
Qed.

(** X17: with [shape_label=True], [visualize] reads the shape of the node
    whose id is [i] for every [i] below the number of nodes: it returns
    exactly when each of these ids carries a shape attribute, and raises
    [KeyError] otherwise.  The colour at position [i] of [node_color] then
    tells whether node id [i] is in a motif, whatever node is at position
    [i] of the graph. *)
Theorem visualize_shape_label (self : t) :
  (returns (Visualize.visualize self true) <->
   forall i, (i < num_nodes self)%nat -> is_Some (node_shape (G self) !! i)) /\
  (forall y labels, Visualize.visualize self true = inr (y, labels) ->
     length y = num_nodes self /\
     forall i s, (i < num_nodes self)%nat -> node_shape (G self) !! i = Some s ->
       y !! i = Some (if bool_decide (0 < s) then 1 else 0)) /\
  (forall e, Visualize.visualize self true = inl e -> e = KeyError).
Proof.
  unfold Visualize.visualize.
  destruct (node_weights_returns (G self)) as [nw Hnw]. rewrite Hnw.
  destruct (mapM (Visualize.in_shape (G self)) (seq 0 (num_nodes self))) as [e|y] eqn:Hy; cbn.
  - apply mapM_result_inl_inv in Hy as (i & Hi & Hfi).
    apply elem_of_seq in Hi. unfold Visualize.in_shape, shape_of in Hfi.
    destruct (node_shape (G self) !! i) as [s|] eqn:Hs; [done|]. injection Hfi as <-.
    split_and!.
    + split; [by intros [? ?]|]. intros Hall.
      destruct (Hall i) as [s Hs']; [lia|]. congruence.
    + done.
    + by intros e [= <-].
  - split_and!; [| |done].
    + split; [|by eexists]. intros _ i Hi.
      destruct (mapM_result_lookup _ _ _ i i Hy) as (b & _ & Hb).
      { by apply lookup_seq. }
      unfold Visualize.in_shape, shape_of in Hb.
      destruct (node_shape (G self) !! i); [by eexists | done].
    + intros y' labels [= <- <-]. split.
      * apply mapM_result_length in Hy. by rewrite length_seq in Hy.
      * intros i s Hi Hs.
        destruct (mapM_result_lookup _ _ _ i i Hy) as (b & Hyb & Hb).
        { by apply lookup_seq. }
        unfold Visualize.in_shape, shape_of in Hb. rewrite Hs in Hb. cbn in Hb.
        injection Hb as <-. done.
Qed.

Section Dataset.
Context `{Generator TG} `{Py.Random R} {NP : Type}.
Variable khop_subgraph_nx : nat -> nat -> Graph -> list nat.
Variables BBG_old BBG_PA : bbg_args -> World TG R NP -> Graph * World TG R NP.
Variable verify_motifs : Graph -> option Graph -> bool.
Variable bound_graph_label : Graph -> nat -> Z.
Variable gaussian_lv_generator :
  Graph -> list Z -> option Z -> Z -> float -> Z -> Z ->
  World TG R NP -> ((nat -> list float) * list float) * World TG R NP.
Variables house pentagon : Graph.

Local Abbreviation init :=
  (ShapeGraph.init khop_subgraph_nx BBG_old BBG_PA verify_motifs bound_graph_label
     gaussian_lv_generator house pentagon).

(** X14: a dataset of fewer than 20 nodes has an empty validation mask,
    one of fewer than 4 nodes an empty test mask as well, and a single node
    is in no split at all. *)
Theorem small_dataset_empty_masks (L : nat) (shape : shape_arg) (seed : option Z)
    (mk : bool) (kw : kwargs) (w w' : World TG R NP) (sg : t) :
  init L shape seed mk kw w = (inr sg, w') ->
  ((num_nodes sg < 20)%nat ->
   fixed_valid_mask sg = replicate (num_nodes sg) false) /\
  ((num_nodes sg < 4)%nat ->
   fixed_test_mask sg = replicate (num_nodes sg) false) /\
  ((num_nodes sg < 2)%nat ->
   fixed_train_mask sg = replicate (num_nodes sg) false).
Proof.
  intros Hinit.
  apply InitFacts.init_inv in Hinit
    as (ins & G0 & w1 & gen & w2 & r & _ & _ & _ & _ & _ & _ & _ & Hs).
  apply SplitFacts.make_splits_sizes in Hs
    as (k1 & k2 & k3 & Hk1 & Hk2 & Hk3 & Hl1 & Hl2 & Hl3 & Hs1 & Hs2 & Hs3).
  split_and!; intros Hn.
  - rewrite int_mul_valid_small in Hk3 by done. injection Hk3 as <-.
    rewrite <- Hl3. apply mask_sum_zero. lia.
  - rewrite int_mul_test_small in Hk2 by done. injection Hk2 as <-.
    rewrite <- Hl2. apply mask_sum_zero. lia.
  - rewrite int_mul_train_small in Hk1 by done. injection Hk1 as <-.
    rewrite <- Hl1. apply mask_sum_zero. lia.
Qed.

(** X15: the shape name is read without regard to case: two names with
    one lower-case form construct the same dataset.  Only the name
    ['random'] is refused, with an [AssertionError] before anything is built
    or drawn; every other name is accepted, and a name other than ['house']
    and ['circle'] leaves the dataset without a shape to insert. *)
Theorem init_shape_name (L : nat) (seed : option Z) (mk : bool) (kw : kwargs)
    (w : World TG R NP) (name : string) :
  (forall name', Py.lower name' = Py.lower name ->
     init L (ShapeName name') seed mk kw w = init L (ShapeName name) seed mk kw w) /\
  (Py.lower name = "random" ->
     init L (ShapeName name) seed mk kw w
     = (inl (AssertionError "Multiple shapes not yet supported for bounded graph"), w)) /\
  (forall sg w', init L (ShapeName name) seed mk kw w = (inr sg, w') ->
     Py.lower name <> "random" /\
     (Py.lower name <> "house" -> Py.lower name <> "circle" ->
      insert_shape (cfg sg) = None)).
Proof.
  split_and!.
  - intros name' Heq. unfold ShapeGraph.init, resolve_shape. by rewrite Heq.
  - intros Heq. unfold ShapeGraph.init, resolve_shape. rewrite Heq.
    by case_decide.
  - intros sg w' Hinit. unfold ShapeGraph.init, resolve_shape in Hinit.
    case_decide as Hr; [done|]. split; [done|]. intros Hh Hc.
    destruct (build_graph _ _ _ _ _ w) as [[e1|G0] w1]; [done|].
    destruct (ShapeGraph.generate_shape_graph _ _ _ _ G0 w1) as [[e|gen] w2]; [done|].
    destruct (make_splits _) as [[e|[[train test] valid]] r]; [done|].
    injection Hinit as <- _. cbn.
    rewrite decide_False by done. case_decide; [done|]. by rewrite decide_False.
Qed.

(** X16: on a constructed dataset, [visualize] with [shape_label=False]
    does not raise: the colours it hands to [nx.draw] are the labels
    [graph.y], one per node in the order of the nodes, and each node is
    labelled with its position. *)
Theorem visualize_labels (L : nat) (shape : shape_arg) (seed : option Z)
    (mk : bool) (kw : kwargs) (w w' : World TG R NP) (sg : t) :
  init L shape seed mk kw w = (inr sg, w') ->
  NoDup (nodes (G sg)) ->
  exists labels,
    Visualize.visualize sg false = inr (y (graph sg), labels) /\
    length (y (graph sg)) = length (nodes (G sg)) /\
    (forall k v, nodes (G sg) !! k = Some v -> labels !! v = Some k) /\
    (forall v, v ∉ nodes (G sg) -> labels !! v = None).
Proof.
  intros Hinit Hnd.
  apply InitFacts.init_inv in Hinit
    as (ins & G0 & w1 & gen & w2 & r & _ & Hgen & HG & Hgraph & _).
  apply GenerateMore.generate_shape_graph_parts in Hgen
    as (_ & _ & _ & _ & _ & Hy & Hnodes & _).
  assert (Hlen : length (y (graph sg)) = length (nodes (G sg))).
  { rewrite Hgraph, HG, Hy, Hnodes. by rewrite length_map. }
  unfold Visualize.visualize, Visualize.dict_comprehension.
  set (nm := Visualize.node_map (G sg)).
  assert (Hpos : mapM (fun i => of_option KeyError (nm !! i)) (nodes (G sg))
                 = inr (seq 0 (length (nodes (G sg))))).
  { apply mapM_result_intro, Forall2_same_length_lookup_2; [by rewrite length_seq|].
    intros k v p Hv Hp. apply lookup_seq in Hp as [-> _].
    unfold nm. by rewrite (node_map_lookup _ _ _ Hnd Hv). }
  assert (Hcol : mapM (fun i => k ← of_option KeyError (nm !! i);
                                of_option IndexError (y (graph sg) !! k)) (nodes (G sg))
                 = inr (y (graph sg))).
  { apply mapM_result_intro, Forall2_same_length_lookup_2; [done|].
    intros k v c Hv Hc. unfold nm. rewrite (node_map_lookup _ _ _ Hnd Hv). cbn.
    by rewrite Hc. }
  rewrite Hcol, Hpos. cbn. eexists. split; [done|]. split; [done|]. split.
  - intros k v Hv. apply foldl_insert_NoDup.
    + rewrite fst_zip; [done|]. by rewrite length_seq.
    + apply list_elem_of_lookup. exists k. rewrite lookup_zip_with, Hv. cbn.
      rewrite lookup_seq_lt by (by eapply lookup_lt_Some). done.
  - intros v Hv. rewrite foldl_insert_notin; [done|].
    rewrite fst_zip; [done|]. by rewrite length_seq.
Qed.

End Dataset.

End DatasetMore.

Module DatasetRuns.

Import Ref RefFacts.

(** The dataset of the default arguments on the stand-ins has 13 nodes. *)
Lemma construct_13 :
  exists sg w',
    Scenario.construct None Scenario.w0 = (inr sg, w') /\
    ShapeGraph.num_nodes sg = 13%nat /\
    ShapeGraph.nodes (ShapeGraph.G sg) = seq 0 13.
Proof.
  apply (run_match_inv (Scenario.construct None Scenario.w0)
           (fun sg _ => ShapeGraph.num_nodes sg = 13%nat /\
                        ShapeGraph.nodes (ShapeGraph.G sg) = seq 0 13)).
  vm_compute. split; reflexivity.
Qed.

Lemma small_dataset_empty_masks_witness :
  exists sg w',
    Scenario.construct None Scenario.w0 = (inr sg, w') /\
    ShapeGraph.fixed_valid_mask sg = replicate (ShapeGraph.num_nodes sg) false.
Proof.
  destruct construct_13 as (sg & w' & Hrun & Hn & _).
  destruct (DatasetMore.small_dataset_empty_masks khop_subgraph_nx BBG BBG verify_motifs
              bound_graph_label gaussian_lv_generator house pentagon
              3 (ShapeGraph.ShapeName "House") None true no_kwargs Scenario.w0 w' sg Hrun)
    as (Hvalid & _).
  exists sg, w'. split; [exact Hrun|]. apply Hvalid. rewrite Hn. lia.
Defined.

Lemma visualize_labels_witness :
  exists sg w' labels,
    Scenario.construct None Scenario.w0 = (inr sg, w') /\
    Visualize.visualize sg false = inr (ShapeGraph.y (ShapeGraph.graph sg), labels).
Proof.
  destruct construct_13 as (sg & w' & Hrun & _ & Hnodes).
  assert (Hnd : NoDup (ShapeGraph.nodes (ShapeGraph.G sg))).
  { rewrite Hnodes. apply NoDup_seq. }
  destruct (DatasetMore.visualize_labels khop_subgraph_nx BBG BBG verify_motifs
              bound_graph_label gaussian_lv_generator house pentagon
              3 (ShapeGraph.ShapeName "House") None true no_kwargs Scenario.w0 w' sg Hrun Hnd)
    as (labels & Hvis & _).
  exists sg, w', labels. split; [exact Hrun | exact Hvis].
Defined.

End DatasetRuns.

(** ** formal/plot_small_large.py: the statistics the script prints *)

Module PlotSmallLarge.

(** The algorithm names of lines 24 and 29. *)
Definition names : list string :=
  ["rand"; "grad"; "cam"; "gcam"; "gbp"; "ig"; "gnnex"; "pgmex"; "pgex"].

Definition ty : string := "node".

(** [f'./results_small/{algo}_gef_{ty}.npy'] and
    [f'./results_homophily/{algo}_gef_{ty}.npy']. *)
Definition path_small (algo : string) : string :=
  "./results_small/" +:+ algo +:+ "_gef_" +:+ ty +:+ ".npy".

Definition path_large (algo : string) : string :=
  "./results_homophily/" +:+ algo +:+ "_gef_" +:+ ty +:+ ".npy".

(** [l.remove(a)]: the first occurrence goes; [ValueError] without one. *)
Fixpoint remove (l : list string) (a : string) : result (list string) :=
  match l with
  | [] => raise ValueError
  | b :: l' => if decide (b = a) then inr l' else l'' ← remove l' a; mret (b :: l'')
  end.

Section Script.

(** The entries of a result array and a printed mean; an entry of an
    object array may be [None]. *)
Variables (V M : Type).

(** numpy: [np.load(path, allow_pickle=True)] on the files present, and
    [np.mean]. *)
Variable np_load : string -> result (list (option V)).
Variable np_mean : list (option V) -> result M.

(** [arr[-1]]. *)
Definition last_item (arr : list (option V)) : result (option V) :=
  of_option IndexError (last arr).

(** The three module-level lists of lines 24-26. *)
Record state : Type := {
  algos : list string;
  df_small : list (list (option V));
  df_large : list (list (option V))
}.

(** Lines 29-37: the loop over the algorithm names still to read. *)
Fixpoint load_loop (todo : list string) (st : state) : result state :=
  match todo with
  | [] => inr st
  | algo :: todo' =>
      temp_small ← np_load (path_small algo);
      l ← last_item temp_small;
      st ← match l with
           | Some _ => inr {| algos := algos st; df_small := df_small st ++ [temp_small];
                              df_large := df_large st |}
           | None => algos' ← remove (algos st) algo;
                     inr {| algos := algos'; df_small := df_small st;
                            df_large := df_large st |}
           end;
      temp_large ← np_load (path_large algo);
      l ← last_item temp_large;
      let st := match l with
                | Some _ => {| algos := algos st; df_small := df_small st;
                               df_large := df_large st ++ [temp_large] |}
                | None => st
                end in
      load_loop todo' st
  end.

(** A printed line: the name and the two means. *)
Definition line : Type := (string * M * M)%type.

(** Lines 41-42: [for i, val in enumerate(df_small): print(...)], from
    index [i] on. *)
Fixpoint print_loop (st : state) (i : nat) (vals : list (list (option V)))
    (out : list line) : result (list line) :=
  match vals with
  | [] => inr out
  | val :: vals' =>
      name ← of_option IndexError (algos st !! i);
      mean_small ← np_mean val;
      large ← of_option IndexError (df_large st !! i);
      mean_large ← np_mean large;
      print_loop st (S i) vals' (out ++ [(name, mean_small, mean_large)])
  end.

(** The script up to its [exit(0)] of line 43: the lines printed. *)
Definition main : result (list line) :=
  st ← load_loop names {| algos := names; df_small := []; df_large := [] |};
  print_loop st 0 (df_small st) [].

(** The algorithms among [l] whose array, read by [path], ends in an entry
    other than [None], each with its array. *)
Definition kept (path : string -> string) (l : list string)
  : list (string * list (option V)) :=
  omap (fun algo => match np_load (path algo) with
                    | inr arr => match last arr with
                                 | Some (Some _) => Some (algo, arr)
                                 | _ => None
                                 end
                    | inl _ => None
                    end) l.

End Script.

Arguments algos {V} _.
Arguments df_small {V} _.
Arguments df_large {V} _.

End PlotSmallLarge.

Module PlotFacts.

Import PlotSmallLarge.

Lemma remove_middle (pre post : list string) (a : string) :
  a ∉ pre -> remove (pre ++ a :: post) a = inr (pre ++ post).
Proof.
  induction pre as [|b pre IH]; intros Ha; cbn.
  - by rewrite decide_True.
  - apply not_elem_of_cons in Ha as [Hne Ha].
    rewrite decide_False by done. by rewrite IH.
Qed.

Section Script.
Context {V M : Type}.
Variable np_load : string -> result (list (option V)).
Variable np_mean : list (option V) -> result M.

Local Abbreviation kept_small := (kept V np_load path_small).
Local Abbreviation kept_large := (kept V np_load path_large).

Lemma kept_cons (path : string -> string) (algo : string) (l : list string) :
  kept V np_load path (algo :: l)
  = match np_load (path algo) with
    | inr arr => match last arr with
                 | Some (Some _) => (algo, arr) :: kept V np_load path l
                 | _ => kept V np_load path l
                 end
    | inl _ => kept V np_load path l
    end.
Proof.
  unfold kept. cbn. destruct (np_load (path algo)) as [e|arr]; [done|].
  by destruct (last arr) as [[v|]|].
Qed.

Lemma read_loop_inr (todo : list string) :
  forall pre ds dl st,
    NoDup (pre ++ todo) ->
    load_loop V np_load todo {| algos := pre ++ todo; df_small := ds; df_large := dl |}
    = inr st ->
    algos st = pre ++ (kept_small todo).*1 /\
    df_small st = ds ++ (kept_small todo).*2 /\
    df_large st = dl ++ (kept_large todo).*2.
Proof.
  induction todo as [|algo todo IH]; intros pre ds dl st Hnd Hrun.
  - injection Hrun as <-. cbn. by rewrite !app_nil_r.
  - cbn [load_loop] in Hrun. rewrite !kept_cons.
    destruct (np_load (path_small algo)) as [e|temp_small]; [done|]. cbn in Hrun.
    unfold last_item in Hrun.
    destruct (last temp_small) as [ls|]; [|done]. cbn in Hrun.
    assert (Hnotin : algo ∉ pre).
    { apply NoDup_app in Hnd as (_ & Hdis & _). intros Hin. apply (Hdis _ Hin). by left. }
    destruct ls as [vs|]; cbn in Hrun.
    + destruct (np_load (path_large algo)) as [e|temp_large]; [done|]. cbn in Hrun.
      destruct (last temp_large) as [ll|]; [|done]. cbn in Hrun.
      replace (pre ++ algo :: todo) with ((pre ++ [algo]) ++ todo) in Hrun, Hnd
        by (by rewrite <- (assoc_L (++))).
      destruct ll as [vl|]; cbn in Hrun; apply IH in Hrun as (Ha & Hs & Hl); try done;
        rewrite Ha, Hs, Hl, <- ?(assoc_L (++)); done.
    + rewrite remove_middle in Hrun by done. cbn in Hrun.
      destruct (np_load (path_large algo)) as [e|temp_large]; [done|]. cbn in Hrun.
      destruct (last temp_large) as [ll|]; [|done]. cbn in Hrun.
      assert (Hnd' : NoDup (pre ++ todo)).
      { apply NoDup_app in Hnd as (Hp & Hdis & Ht). apply NoDup_cons in Ht as [_ Ht].
        apply NoDup_app. split_and!; [done | | done].
        intros x Hx Hxt. apply (Hdis x Hx). by right. }
      destruct ll as [vl|]; cbn in Hrun; apply IH in Hrun as (Ha & Hs & Hl); try done;
        rewrite Ha, Hs, Hl, <- ?(assoc_L (++)); done.
Qed.

Lemma print_loop_inr (st : state V) (vals : list (list (option V))) :
  forall i out lines,
    print_loop V M np_mean st i vals out = inr lines ->
    exists lines',
      lines = out ++ lines' /\ length lines' = length vals /\
      forall k val, vals !! k = Some val ->
        exists name mean_small large mean_large,
          algos st !! (i + k)%nat = Some name /\ np_mean val = inr mean_small /\
          df_large st !! (i + k)%nat = Some large /\ np_mean large = inr mean_large /\
          lines' !! k = Some (name, mean_small, mean_large).
Proof.
  induction vals as [|val vals IH]; intros i out lines Hrun.
  - injection Hrun as <-. exists []. by rewrite app_nil_r.
  - cbn [print_loop] in Hrun.
    destruct (algos st !! i) as [name|] eqn:Hname; [|done]. cbn in Hrun.
    destruct (np_mean val) as [e|ms] eqn:Hms; [done|]. cbn in Hrun.
    destruct (df_large st !! i) as [large|] eqn:Hlarge; [|done]. cbn in Hrun.
    destruct (np_mean large) as [e|ml] eqn:Hml; [done|]. cbn in Hrun.
    apply IH in Hrun as (lines' & -> & Hlen & Hall).
    exists ((name, ms, ml) :: lines'). rewrite <- (assoc_L (++)). cbn.
    split_and!; [done | by rewrite Hlen |].
    intros [|k] val' Hk; cbn in Hk.
    + injection Hk as <-. rewrite Nat.add_0_r. exists name, ms, large, ml. by split_and!.
    + destruct (Hall k val' Hk) as (n' & ms' & l' & ml' & H1 & H2 & H3 & H4 & H5).
      replace (i + S k)%nat with (S i + k)%nat by lia.
      exists n', ms', l', ml'. by split_and!.
Qed.

(** X18: each printed line carries the name and the mean of the [i]-th
    algorithm whose small result ends in an entry other than [None], next
    to the mean of the [i]-th array among the large results that end in
    such an entry -- whichever algorithm that array belongs to. *)
Theorem main_lines (lines : list (line M)) :
  main V M np_load np_mean = inr lines ->
  length lines = length (kept_small names) /\
  forall i l, lines !! i = Some l ->
    exists algo_small small algo_large large mean_small mean_large,
      kept_small names !! i = Some (algo_small, small) /\
      kept_large names !! i = Some (algo_large, large) /\
      np_mean small = inr mean_small /\ np_mean large = inr mean_large /\
      l = (algo_small, mean_small, mean_large).
Proof.
  unfold main. intros Hrun.
  apply bind_inr in Hrun as (st & Hload & Hprint).
  apply (read_loop_inr names [] [] []) in Hload as (Ha & Hs & Hl);
    [|by apply (bool_decide_unpack _)].
  cbn [app] in Ha, Hs, Hl.
  apply print_loop_inr in Hprint as (lines' & -> & Hlen & Hall). cbn [app].
  rewrite Hs, length_fmap in Hlen. split; [done|].
  intros i l Hi.
  assert (Hlt : (i < length (kept_small names))%nat).
  { rewrite <- Hlen. by eapply lookup_lt_Some. }
  destruct (lookup_lt_is_Some_2 _ _ Hlt) as [[an arr] Hks].
  destruct (Hall i arr) as (name & ms & large & ml & Hn & Hms & Hlg & Hml & Hline).
  { rewrite Hs, list_lookup_fmap, Hks. done. }
  cbn [Nat.add] in Hn, Hlg. rewrite Ha, list_lookup_fmap, Hks in Hn. injection Hn as <-.
  rewrite Hl, list_lookup_fmap in Hlg.
  destruct (kept_large names !! i) as [[al arl]|] eqn:Hkl; [|done]. injection Hlg as <-.
  rewrite Hline in Hi. injection Hi as <-.
  exists an, arr, al, arl, ms, ml. by split_and!.
Qed.

(** The array of [algo] can be read and has a last entry. *)
Definition readable (path : string -> string) (algo : string) : Prop :=
  exists arr, np_load (path algo) = inr arr /\ arr <> [].

Lemma last_is_Some {A : Type} (l : list A) : l <> [] -> is_Some (last l).
Proof. intros Hl. destruct (last l) eqn:Hlast; [by eexists|]. by apply last_None in Hlast. Qed.

Lemma read_loop_readable (todo : list string) :
  forall st st',
    load_loop V np_load todo st = inr st' ->
    forall algo, algo ∈ todo -> readable path_small algo /\ readable path_large algo.
Proof.
  induction todo as [|a todo IH]; intros st st' Hrun algo Hin; [by apply elem_of_nil in Hin|].
  cbn [load_loop] in Hrun.
  destruct (np_load (path_small a)) as [e|temp_small] eqn:Hsmall; [done|]. cbn in Hrun.
  unfold last_item in Hrun.
  destruct (last temp_small) as [ls|] eqn:Hls; [|done]. cbn in Hrun.
  match type of Hrun with (?m ≫= _) = _ => destruct m as [e|st1]; [done|] end.
  cbn in Hrun.
  destruct (np_load (path_large a)) as [e|temp_large] eqn:Hlarge; [done|]. cbn in Hrun.
  destruct (last temp_large) as [ll|] eqn:Hll; [|done]. cbn in Hrun.
  apply elem_of_cons in Hin as [->|Hin]; [|by eapply IH].
  split; eexists; (split; [done|]); by intros ->.
Qed.

Lemma read_loop_returns (todo : list string) :
  forall pre ds dl,
    NoDup (pre ++ todo) ->
    (forall algo, algo ∈ todo -> readable path_small algo /\ readable path_large algo) ->
    returns (load_loop V np_load todo {| algos := pre ++ todo; df_small := ds; df_large := dl |}).
Proof.
  induction todo as [|a todo IH]; intros pre ds dl Hnd Hread; [by eexists|].
  destruct (Hread a) as [(small & Hsmall & Hsne) (large & Hlarge & Hlne)]; [by left|].
  destruct (last_is_Some small Hsne) as [ls Hls].
  destruct (last_is_Some large Hlne) as [ll Hll].
  assert (Hnotin : a ∉ pre).
  { apply NoDup_app in Hnd as (_ & Hdis & _). intros Hin. apply (Hdis _ Hin). by left. }
  assert (Hnd1 : NoDup ((pre ++ [a]) ++ todo)) by (by rewrite <- (assoc_L (++))).
  assert (Hnd2 : NoDup (pre ++ todo)).
  { apply NoDup_app in Hnd as (Hp & Hdis & Ht). apply NoDup_cons in Ht as [_ Ht].
    apply NoDup_app. split_and!; [done | | done].
    intros x Hx Hxt. apply (Hdis x Hx). by right. }
  assert (Hread' : forall algo, algo ∈ todo ->
            readable path_small algo /\ readable path_large algo).
  { intros algo Hin. apply Hread. by right. }
  cbn [load_loop]. rewrite Hsmall. cbn. unfold last_item. rewrite Hls. cbn.
  destruct ls as [vs|]; cbn.
  - rewrite Hlarge. cbn. rewrite Hll. cbn.
    replace (pre ++ a :: todo) with ((pre ++ [a]) ++ todo) by (by rewrite <- (assoc_L (++))).
    destruct ll; by apply IH.
  - rewrite remove_middle by done. cbn. rewrite Hlarge. cbn. rewrite Hll. cbn.
    destruct ll; by apply IH.
Qed.

Lemma print_loop_returns (st : state V) (vals : list (list (option V))) :
  forall i out,
    (forall k val, vals !! k = Some val ->
       is_Some (algos st !! (i + k)%nat) /\ returns (np_mean val) /\
       exists large, df_large st !! (i + k)%nat = Some large /\ returns (np_mean large)) ->
    returns (print_loop V M np_mean st i vals out).
Proof.
  induction vals as [|val vals IH]; intros i out Hall; [by eexists|].
  destruct (Hall 0%nat val eq_refl) as ([name Hname] & [ms Hms] & large & Hlarge & [ml Hml]).
  rewrite Nat.add_0_r in Hname, Hlarge.
  cbn [print_loop]. rewrite Hname. cbn. rewrite Hms. cbn. rewrite Hlarge. cbn.
  rewrite Hml. cbn. apply IH. intros k val' Hk.
  replace (S i + k)%nat with (i + S k)%nat by lia. by apply (Hall (S k)).
Qed.

(** X19: the script reaches its [exit(0)] exactly when all eighteen
    arrays can be read and are not empty, at least as many large results
    as small results end in an entry other than [None], and [np.mean]
    returns on the arrays that are printed. *)
Theorem main_returns_iff :
  returns (main V M np_load np_mean) <->
  (forall algo, algo ∈ names -> readable path_small algo /\ readable path_large algo) /\
  (length (kept_small names) <= length (kept_large names))%nat /\
  (forall i algo arr, (i < length (kept_small names))%nat ->
     kept_small names !! i = Some (algo, arr) \/ kept_large names !! i = Some (algo, arr) ->
     returns (np_mean arr)).
Proof.
  assert (Hnames : NoDup ([] ++ names)) by (by apply (bool_decide_unpack _)).
  unfold main. split.
  - intros [lines Hrun].
    apply bind_inr in Hrun as (st & Hload & Hprint).
    pose proof (read_loop_readable _ _ _ Hload) as Hread.
    apply (read_loop_inr names [] [] []) in Hload as (Ha & Hs & Hl); [|done].
    cbn [app] in Ha, Hs, Hl.
    apply print_loop_inr in Hprint as (lines' & _ & Hlen & Hall).
    assert (Hi : forall i algo arr, kept_small names !! i = Some (algo, arr) ->
              returns (np_mean arr) /\
              exists al large, kept_large names !! i = Some (al, large) /\
                               returns (np_mean large)).
    { intros i algo arr Hks.
      destruct (Hall i arr) as (name & ms & large & ml & _ & Hms & Hlg & Hml & _).
      { by rewrite Hs, list_lookup_fmap, Hks. }
      cbn [Nat.add] in Hlg. rewrite Hl, list_lookup_fmap in Hlg.
      destruct (kept_large names !! i) as [[al arl]|] eqn:Hkl; [|done]. injection Hlg as <-.
      split; [by eexists|]. exists al, arl. split; [done | by eexists]. }
    split_and!; [done | |].
    + destruct (decide (length (kept_small names) <= length (kept_large names))%nat)
        as [|Hgt]; [done|]. exfalso.
      destruct (lookup_lt_is_Some_2 (kept_small names) (length (kept_large names)))
        as [[algo arr] Hks]; [lia|].
      destruct (Hi _ _ _ Hks) as (_ & al & large & Hkl & _).
      apply lookup_lt_Some in Hkl. lia.
    + intros i algo arr Hlt [Hks|Hkl]; [by destruct (Hi _ _ _ Hks)|].
      destruct (lookup_lt_is_Some_2 _ _ Hlt) as [[an arr'] Hks].
      destruct (Hi _ _ _ Hks) as (_ & al & large & Hkl' & Hret). congruence.
  - intros (Hread & Hle & Hmean).
    destruct (read_loop_returns names [] [] [] Hnames Hread) as [st Hload].
    cbn [app] in Hload. rewrite Hload. cbn.
    apply (read_loop_inr names [] [] []) in Hload as (Ha & Hs & Hl); [|done].
    cbn [app] in Ha, Hs, Hl.
    apply print_loop_returns. intros k val Hk. cbn [Nat.add].
    rewrite Hs, list_lookup_fmap in Hk.
    destruct (kept_small names !! k) as [[an arr]|] eqn:Hks; [|done]. injection Hk as <-.
    assert (Hlt : (k < length (kept_small names))%nat) by (by eapply lookup_lt_Some).
    destruct (lookup_lt_is_Some_2 (kept_large names) k) as [[al large] Hkl]; [lia|].
    split_and!.
    + rewrite Ha, list_lookup_fmap, Hks. by eexists.
    + eapply Hmean; [done | by left].
    + exists large. rewrite Hl, list_lookup_fmap, Hkl. split; [done|].
      eapply Hmean; [done | by right].
Qed.

End Script.

End PlotFacts.

Module PlotRuns.

Import PlotSmallLarge.

(** Stand-ins for numpy.  Every array has one entry, the length of its
    file name, except that the small result of ['rand'] ends in [None]. *)
Definition load (path : string) : result (list (option Z)) :=
  if decide (path = path_small "rand") then inr [Some 0; None]
  else inr [Some (Z.of_nat (String.length path))].

Definition mean (arr : list (option Z)) : result Z :=
  vs ← mapM (of_option (Exception "unsupported operand type")) arr;
  if decide (vs = []) then raise ValueError
  else inr (foldr Z.add 0 vs / Z.of_nat (length vs)).

(** With no usable small result for ['rand'], the first line is that of
    ['grad'], printed next to the large result of ['rand']. *)
Lemma main_lines_witness :
  exists lines l algo_large large,
    main Z Z load mean = inr lines /\ lines !! 0%nat = Some l /\
    kept Z load path_large names !! 0%nat = Some (algo_large, large) /\
    mean large = inr l.2 /\
    l.1.1 = "grad" /\ algo_large = "rand".
Proof.
  destruct (result_inr_inv (main Z Z load mean)) as (lines & Hrun); [vm_compute; reflexivity|].
  destruct (PlotFacts.main_lines load mean lines Hrun) as (Hlen & Hall).
  destruct (lookup_lt_is_Some_2 lines 0%nat) as [l Hl].
  { rewrite Hlen. vm_compute. lia. }
  destruct (Hall 0%nat l Hl) as (an & small & al & large & ms & ml & Hks & Hkl & _ & Hml & ->).
  exists lines, (an, ms, ml), al, large.
  split; [exact Hrun|]. split; [exact Hl|]. split; [exact Hkl|]. split; [exact Hml|].
  vm_compute in Hks, Hkl. injection Hks as <- _. injection Hkl as <- _.
  split; reflexivity.
Defined.

End PlotRuns.

(** ** GNNExplainer: the optimisation is never reached *)

Module GNNMore.

(** X20: [GNNExplainer.get_explanation_node] never runs its optimisation:
    whatever [train] does, whatever the masks hold and whatever
    [_clear_masks] does, the outcome of the call is the same, since the
    call ends before the first use of any of them. *)
Theorem gnn_get_explanation_node_never_trains (St : Type) (self_L : St -> nat)
    (predict : St -> list (list float) -> PyG.edge_index -> result (list Z))
    (set_masks : St -> list (list float) -> PyG.edge_index -> bool -> result St)
    (model_eval : St -> result St)
    (train train' : St -> GNNExplainer.mask_type -> list (list float) -> PyG.khop_info ->
                    list Z -> result St)
    (feature_mask_data feature_mask_data' edge_mask_data edge_mask_data' : St -> list float)
    (clear_masks clear_masks' : St -> St)
    (EXP_TYPES : list string) (self : St) (node_idx : nat) (ei : PyG.edge_index)
    (x : list (list float)) (label : option (list Z)) (num_hops : option nat)
    (get_feature_mask : bool) :
  GNNExplainer.get_explanation_node St self_L predict set_masks model_eval train
    feature_mask_data edge_mask_data clear_masks EXP_TYPES self node_idx ei x label
    num_hops get_feature_mask
  = GNNExplainer.get_explanation_node St self_L predict set_masks model_eval train'
      feature_mask_data' edge_mask_data' clear_masks' EXP_TYPES self node_idx ei x label
      num_hops get_feature_mask.
Proof.
  unfold GNNExplainer.get_explanation_node.
  destruct (match label with None => predict self x ei | Some l => inr l end)
    as [e|label']; [done|].
  cbn -[GNNExplainer.load_name GNNExplainer.locals_at_110].
  destruct (PyG.k_hop_subgraph _ _ _ _ _) as [e|khop_info]; [done|].
  cbn -[GNNExplainer.load_name GNNExplainer.locals_at_110].
  destruct (Torch.index_select x _) as [e|sub_x]; [done|].
  cbn -[GNNExplainer.load_name GNNExplainer.locals_at_110].
  destruct (set_masks self sub_x _ get_feature_mask) as [e|s1]; [done|].
  cbn -[GNNExplainer.load_name GNNExplainer.locals_at_110].
  destruct (model_eval s1) as [e|s2]; [done|].
  cbn -[GNNExplainer.load_name GNNExplainer.locals_at_110].
  by rewrite ExplainerFacts.explain_feature_unbound.
Qed.

End GNNMore.
